(** * BitArray: a shallow embedding of [bitarray.go] and its properties

    The Go package keeps every bit array behind a pointer ([*BitArray]) and
    mutates it in place.  The embedding follows that: a heap of [BitArray]
    records addressed by pointers, a state monad over the heap in which a
    Go panic is an outcome of its own (carrying the heap at the moment of the
    panic, since a panic can be recovered and the objects inspected
    afterwards), and one definition per Go function, written in the order of
    the source's statements.

    Go's [int] is taken to be 64 bits wide (as on amd64 and arm64); [+], [-]
    and [*] wrap around, [/] and [%] truncate towards zero.  A [uint8] is an
    integer in [0, 256).  A Go string is a [string], one character per rune:
    the package only ever distinguishes the digits 0 and 1, the space and
    anything else, and produces ASCII digits only. *)

From Stdlib Require Import ZArith Lia Ascii String.
From stdpp Require Import base numbers list list_numbers strings.

Local Open Scope Z_scope.

(** ** Go integers *)

Module GoInt.

Definition int_bits : Z := 64.
Definition min_int : Z := - 2 ^ (int_bits - 1).
Definition max_int : Z := 2 ^ (int_bits - 1) - 1.

(** Two's complement wrap-around of a mathematical result. *)
Definition wrap (z : Z) : Z :=
  (z + 2 ^ (int_bits - 1)) `mod` 2 ^ int_bits - 2 ^ (int_bits - 1).

Definition is_int (z : Z) : Prop := min_int ≤ z ≤ max_int.

Definition add (a b : Z) : Z := wrap (a + b).
Definition sub (a b : Z) : Z := wrap (a - b).
Definition mul (a b : Z) : Z := wrap (a * b).
Definition neg (a : Z) : Z := wrap (- a).

(** [uint8] values. *)
Definition max_uint8 : Z := 255.
Definition is_uint8 (x : Z) : Prop := 0 ≤ x ≤ max_uint8.
Definition wrap8 (x : Z) : Z := x `mod` 256.

End GoInt.
Export GoInt.

Declare Scope go_scope.
Delimit Scope go_scope with go.
Infix "+i" := add (at level 50, left associativity) : go_scope.
Infix "-i" := sub (at level 50, left associativity) : go_scope.
Infix "*i" := mul (at level 40, left associativity) : go_scope.
Notation "a /i b" := (Z.quot a b) (at level 40, left associativity) : go_scope.
Notation "a %i b" := (Z.rem a b) (at level 40, left associativity) : go_scope.
Local Open Scope go_scope.

(** ** The data type, the heap and the monad *)

(** [type BitArray struct { size int; data []uint8 }] *)
Record BitArray : Type := mkBitArray { size : Z; data : list Z }.

(** A [*BitArray] is an address; address 0 is [nil], and the object at
    address [S k] is the [k]-th one that was allocated. *)
Definition ptr : Type := nat.
Definition nil : ptr := O.
Abbreviation heap := (list BitArray).

(** What a Go [panic] carries: the string of an explicit [panic],
    an [error] value ([MustParse]), or a run-time error (index out of range,
    negative shift count, division by zero, nil dereference, negative
    [make] length). *)
Inductive error : Type :=
  | UnknownCharacter (c : ascii)
  | CodecError (code : nat).

Inductive panic_value : Type :=
  | PanicString (msg : string)
  | PanicError (e : error)
  | RuntimeError.

Inductive outcome (A : Type) : Type :=
  | Ok (a : A) (h : heap)
  | Panicked (p : panic_value) (h : heap).
Arguments Ok {A} a h.
Arguments Panicked {A} p h.

Definition M (A : Type) : Type := heap → outcome A.

Definition ret {A} (a : A) : M A := fun h => Ok a h.
Definition bind {A B} (m : M A) (k : A → M B) : M B :=
  fun h => match m h with
           | Ok a h' => k a h'
           | Panicked p h' => Panicked p h'
           end.
Definition panic {A} (p : panic_value) : M A := fun h => Panicked p h.

Notation "x ← y ; z" := (bind y (fun x => z))
  (at level 20, y at level 100, z at level 200, only parsing) : go_scope.
Notation "x ;; z" := (bind x (fun _ => z))
  (at level 100, z at level 200, only parsing, right associativity) : go_scope.

(** The heap after an outcome, whichever it is. *)
Definition heap_of {A} (o : outcome A) : heap :=
  match o with Ok _ h => h | Panicked _ h => h end.

(** A pair of a value and an [error], as Go functions return it. *)
Inductive result (A : Type) : Type :=
  | Success (a : A)
  | Failure (e : error).
Arguments Success {A} a.
Arguments Failure {A} e.

(** *** Heap primitives *)

Definition deref (h : heap) (p : ptr) : option BitArray :=
  match p with
  | O => None
  | S k => h !! k
  end.

Definition update (h : heap) (p : ptr) (v : BitArray) : heap :=
  match p with
  | O => h
  | S k => <[k := v]> h
  end.

(** Dereference; a nil (or dangling) pointer is a run-time panic. *)
Definition load (p : ptr) : M BitArray :=
  fun h => match deref h p with
           | Some v => Ok v h
           | None => Panicked RuntimeError h
           end.

Definition store (p : ptr) (v : BitArray) : M unit :=
  fun h => Ok tt (update h p v).

(** [&BitArray{...}]: a fresh object at the end of the heap. *)
Definition alloc (v : BitArray) : M ptr :=
  fun h => Ok (S (length h)) (h ++ [v]).

(** [l[n]] for an [int] index. *)
Definition index (l : list Z) (n : Z) : option Z :=
  if bool_decide (0 ≤ n) then l !! Z.to_nat n else None.

(** [ba.size] *)
Definition get_size (ba : ptr) : M Z := v ← load ba; ret (size v).

(** [len(ba.data)] *)
Definition len_data (ba : ptr) : M Z :=
  v ← load ba; ret (Z.of_nat (length (data v))).

(** [ba.data[n]] as a value; out of range panics. *)
Definition data_at (ba : ptr) (n : Z) : M Z :=
  v ← load ba;
  match index (data v) n with
  | Some x => ret x
  | None => panic RuntimeError
  end.

(** [ba.data[n] = x]; out of range panics. *)
Definition data_set (ba : ptr) (n : Z) (x : Z) : M unit :=
  v ← load ba;
  if bool_decide (0 ≤ n < Z.of_nat (length (data v))) then
    store ba (mkBitArray (size v) (<[Z.to_nat n := x]> (data v)))
  else panic RuntimeError.

(** [make([]uint8, n)] *)
Definition make (n : Z) : M (list Z) :=
  if bool_decide (n < 0) then panic RuntimeError
  else ret (replicate (Z.to_nat n) 0).

(** [a << i] at type [uint8] with a signed shift count: a negative count
    panics, bits shifted beyond the eighth are lost. *)
Definition shl8 (a i : Z) : M Z :=
  if bool_decide (i < 0) then panic RuntimeError
  else ret (wrap8 (Z.shiftl a i)).

(** [n % d] on [int]; a zero divisor panics. *)
Definition int_rem (n d : Z) : M Z :=
  if bool_decide (d = 0) then panic RuntimeError else ret (n %i d).

(** *** Loops *)

(** [for i := a; i < e; i++ { acc = body(i, acc) }], the bound [e] being
    loop-invariant.  The counter cannot overflow: inside the loop
    [i < e ≤ max_int]. *)
Fixpoint loop_up {A} (fuel : nat) (i e : Z) (body : Z → A → M A) (acc : A) : M A :=
  match fuel with
  | O => ret acc
  | S fuel' =>
      if bool_decide (i < e) then
        acc' ← body i acc; loop_up fuel' (i + 1) e body acc'
      else ret acc
  end.

Definition for_up_acc {A} (a e : Z) (body : Z → A → M A) (acc : A) : M A :=
  loop_up (Z.to_nat (e - a)) a e body acc.

Definition for_up (a e : Z) (body : Z → M unit) : M unit :=
  for_up_acc a e (fun i _ => body i) tt.

(** [for i := a; i >= e; i-- { acc = body(i, acc) }] with [e ≥ 0] or more
    generally [e > min_int], so that the counter cannot underflow. *)
Fixpoint loop_down {A} (fuel : nat) (i e : Z) (body : Z → A → M A) (acc : A) : M A :=
  match fuel with
  | O => ret acc
  | S fuel' =>
      if bool_decide (e ≤ i) then
        acc' ← body i acc; loop_down fuel' (i - 1) e body acc'
      else ret acc
  end.

Definition for_down_acc {A} (a e : Z) (body : Z → A → M A) (acc : A) : M A :=
  loop_down (Z.to_nat (a - e + 1)) a e body acc.

Definition for_down (a e : Z) (body : Z → M unit) : M unit :=
  for_down_acc a e (fun i _ => body i) tt.

(** [for _, x := range l { body(x) }] *)
Fixpoint for_range {A} (l : list A) (body : A → M unit) : M unit :=
  match l with
  | [] => ret tt
  | x :: l' => body x;; for_range l' body
  end.

(** ** The package, function by function *)

(** [const bitsN = 8] *)
Definition bitsN : Z := 8.

(** [func (ba *BitArray) checkIdx(idx int)] *)
Definition checkIdx (ba : ptr) (idx : Z) : M unit :=
  sz ← get_size ba;
  if bool_decide (idx < 0) || bool_decide (idx >= sz) then
    panic (PanicString "index out of range")
  else ret tt.

(** [func (ba *BitArray) checkSize(other *BitArray)] *)
Definition checkSize (ba other : ptr) : M unit :=
  sz ← get_size ba;
  osz ← get_size other;
  if bool_decide (sz ≠ osz) then
    panic (PanicString "bit array sizes must be equal")
  else ret tt.

(** [func (ba *BitArray) set(idx int)]: [ba.data[n] |= 1 << i] *)
Definition set (ba : ptr) (idx : Z) : M unit :=
  let n := idx /i bitsN in
  let i := idx %i bitsN in
  x ← data_at ba n;
  m ← shl8 1 i;
  data_set ba n (Z.lor x m).

(** [func (ba *BitArray) unset(idx int)]: [ba.data[n] &^= 1 << i] *)
Definition unset (ba : ptr) (idx : Z) : M unit :=
  let n := idx /i bitsN in
  let i := idx %i bitsN in
  x ← data_at ba n;
  m ← shl8 1 i;
  data_set ba n (Z.ldiff x m).

(** [func (ba *BitArray) get(idx int) bool]: [ba.data[n]&(1<<i) != 0] *)
Definition get (ba : ptr) (idx : Z) : M bool :=
  let n := idx /i bitsN in
  let i := idx %i bitsN in
  x ← data_at ba n;
  m ← shl8 1 i;
  ret (bool_decide (Z.land x m ≠ 0)).

(** [func (ba *BitArray) Set(idx int)] *)
Definition Set_ (ba : ptr) (idx : Z) : M unit :=
  checkIdx ba idx;; set ba idx.

(** [func (ba *BitArray) Unset(idx int)] *)
Definition Unset (ba : ptr) (idx : Z) : M unit :=
  checkIdx ba idx;; unset ba idx.

(** [func (ba *BitArray) Get(idx int) bool] *)
Definition Get (ba : ptr) (idx : Z) : M bool :=
  checkIdx ba idx;; get ba idx.

(** [func New(size int, idx ...int) *BitArray] *)
Definition New (size : Z) (idx : list Z) : M ptr :=
  if bool_decide (size ≤ 0) then panic (PanicString "size must be > 0")
  else
    let n := size /i bitsN in
    let r := size %i bitsN in
    let n := if bool_decide (r > 0) then n +i 1 else n in
    d ← make n;
    ba ← alloc (mkBitArray size d);
    for_range idx (fun i => Set_ ba i);;
    ret ba.

(** The runes of [s] once [strings.ReplaceAll] has removed the spaces. *)
Definition runes_without_spaces (s : string) : list ascii :=
  filter (fun c => c ≠ " "%char) (list_ascii_of_string s).

(** The body of [for i, c := range rs] in [Parse]; [rs[i]] is [c]. *)
Fixpoint Parse_loop (ba : ptr) (rsLen i : Z) (rs : list ascii) : M (result ptr) :=
  match rs with
  | [] => ret (Success ba)
  | c :: rs' =>
      if bool_decide (c = "1"%char) then
        set ba (rsLen -i 1 -i i);; Parse_loop ba rsLen (i + 1) rs'
      else if bool_decide (c ≠ "0"%char) then
        ret (Failure (UnknownCharacter c))
      else Parse_loop ba rsLen (i + 1) rs'
  end.

(** [func Parse(s string)], returning a [*BitArray] and an [error] *)
Definition Parse (s : string) : M (result ptr) :=
  let rs := runes_without_spaces s in
  let rsLen := Z.of_nat (length rs) in
  ba ← New rsLen [];
  Parse_loop ba rsLen 0 rs.

(** [func MustParse(s string) *BitArray] *)
Definition MustParse (s : string) : M ptr :=
  r ← Parse s;
  match r with
  | Failure err => panic (PanicError err)
  | Success ba => ret ba
  end.

(** [func Clone(ba *BitArray) *BitArray]: [make] and [copy] give a slice
    with the same elements in new storage. *)
Definition Clone (ba : ptr) : M ptr :=
  v ← load ba;
  alloc (mkBitArray (size v) (data v)).

(** [func (ba *BitArray) Clear()] *)
Definition Clear (ba : ptr) : M unit :=
  len ← len_data ba;
  for_up 0 len (fun i => data_set ba i 0).

(** [func (ba *BitArray) SetAll()] *)
Definition SetAll (ba : ptr) : M unit :=
  sz ← get_size ba;
  len ← len_data ba;
  let x := sz %i bitsN in
  (if bool_decide (x = 0) then data_set ba (len -i 1) max_uint8
   else
     m ← shl8 2 (x -i 1);
     data_set ba (len -i 1) (wrap8 (m - 1)));;
  for_up 0 (len -i 1) (fun i => data_set ba i max_uint8).

(** The shape shared by [And], [Or], [Xor], [AndNot]: the byte operator
    [op] on all bytes but the last, then either [op] on the last byte or
    the bit loop [tail] over the bits of the partial last byte. *)
Definition bytewise (ba other : ptr) (op : Z → Z → Z) (tail : Z → M unit) : M unit :=
  checkSize ba other;;
  len ← len_data ba;
  for_up 0 (len -i 1) (fun i =>
    x ← data_at ba i; y ← data_at other i; data_set ba i (op x y));;
  sz ← get_size ba;
  if bool_decide (sz %i bitsN = 0) then
    let i := len -i 1 in
    x ← data_at ba i; y ← data_at other i; data_set ba i (op x y)
  else
    for_up ((sz /i bitsN) *i bitsN) sz tail.

(** [func (ba *BitArray) And(other *BitArray)] *)
Definition And (ba other : ptr) : M unit :=
  bytewise ba other Z.land (fun i =>
    b ← get other i;
    if negb b then unset ba i else ret tt).

(** [func (ba *BitArray) Or(other *BitArray)] *)
Definition Or (ba other : ptr) : M unit :=
  bytewise ba other Z.lor (fun i =>
    b ← get other i;
    if b then set ba i else ret tt).

(** [func (ba *BitArray) Xor(other *BitArray)] *)
Definition Xor (ba other : ptr) : M unit :=
  bytewise ba other Z.lxor (fun i =>
    b1 ← get ba i;
    b2 ← get other i;
    let b := (b1 || b2) && negb (b1 && b2) in
    if b && negb b1 then set ba i
    else if negb b && b1 then unset ba i
    else ret tt).

(** [func (ba *BitArray) AndNot(other *BitArray)]; the condition
    [ba.get(i) && other.get(i)] evaluates [other.get(i)] only when
    [ba.get(i)] holds. *)
Definition AndNot (ba other : ptr) : M unit :=
  bytewise ba other Z.ldiff (fun i =>
    b1 ← get ba i;
    b2 ← (if b1 then get other i else ret false);
    if b1 && b2 then unset ba i else ret tt).

(** [^x] at type [uint8] *)
Definition not8 (x : Z) : Z := Z.lxor x max_uint8.

(** [func (ba *BitArray) Not()] *)
Definition Not (ba : ptr) : M unit :=
  len ← len_data ba;
  for_up 0 (len -i 1) (fun i => x ← data_at ba i; data_set ba i (not8 x));;
  sz ← get_size ba;
  if bool_decide (sz %i bitsN = 0) then
    let i := len -i 1 in
    x ← data_at ba i; data_set ba i (not8 x)
  else
    for_up ((sz /i bitsN) *i bitsN) sz (fun i =>
      b ← get ba i;
      if b then unset ba i else set ba i).

(** [func (ba *BitArray) moveBits(n int) (int, int)] *)
Definition moveBits (ba : ptr) (n : Z) : M (Z * Z) :=
  if bool_decide (n = 0) then ret (0, 0)
  else if bool_decide (n > 0) then
    sz ← get_size ba;
    for_down (sz -i 1) n (fun i =>
      b ← get ba (i -i n);
      if b then set ba i else unset ba i);;
    ret (0, n)
  else
    let n := neg n in
    sz ← get_size ba;
    for_up 0 (sz -i n) (fun i =>
      b ← get ba (i +i n);
      if b then set ba i else unset ba i);;
    ret (sz -i n, sz).

(** [func Slice(ba *BitArray, start, end int) *BitArray] *)
Definition Slice (ba : ptr) (start end_ : Z) : M ptr :=
  checkIdx ba start;;
  checkIdx ba (end_ -i 1);;
  result ← New (end_ -i start) [];
  for_up_acc start end_ (fun i idx =>
    b ← get ba i;
    (if b then set result idx else ret tt);;
    ret (idx +i 1)) 0;;
  ret result.

(** [func (ba *BitArray) Rotate(n int)] *)
Definition Rotate (ba : ptr) (n : Z) : M unit :=
  sz ← get_size ba;
  n ← int_rem n sz;
  aux ← (if bool_decide (n > 0) then Slice ba (sz -i n) sz
         else if bool_decide (n < 0) then Slice ba 0 (neg n)
         else ret nil);
  se ← moveBits ba n;
  let start := fst se in
  let end_ := snd se in
  for_up start end_ (fun i =>
    b ← get aux (i -i start);
    if b then set ba i else unset ba i).

(** [func (ba *BitArray) Shift(n int)] *)
Definition Shift (ba : ptr) (n : Z) : M unit :=
  sz ← get_size ba;
  if bool_decide (n > 0) && bool_decide (n >= sz)
     || bool_decide (n < 0) && bool_decide (neg n >= sz)
  then Clear ba
  else
    se ← moveBits ba n;
    for_up (fst se) (snd se) (fun i => unset ba i).

(** The body of [for i := range ba.data] in [Equal], with its early
    [return false]. *)
Fixpoint Equal_loop (ba other : ptr) (fuel : nat) (i : Z) : M bool :=
  match fuel with
  | O => ret true
  | S fuel' =>
      x ← data_at ba i;
      y ← data_at other i;
      if bool_decide (x ≠ y) then ret false
      else Equal_loop ba other fuel' (i + 1)
  end.

(** [func (ba *BitArray) Equal(other *BitArray) bool] *)
Definition Equal (ba other : ptr) : M bool :=
  sz ← get_size ba;
  osz ← get_size other;
  if bool_decide (sz ≠ osz) then ret false
  else
    v ← load ba;
    Equal_loop ba other (length (data v)) 0.

(** [bits.OnesCount8]: the number of bits set in a byte. *)
Definition OnesCount8 (x : Z) : Z :=
  foldr (fun k acc => Z.b2z (Z.testbit x k) + acc) 0 (seqZ 0 8).

(** [func (ba *BitArray) Count() int] *)
Definition Count (ba : ptr) : M Z :=
  v ← load ba;
  ret (foldl (fun cnt x => cnt +i OnesCount8 x) 0 (data v)).

(** [func (ba *BitArray) Size() int] *)
Definition Size (ba : ptr) : M Z := get_size ba.

(** [bits.LeadingZeros8]: the number of zero bits above the highest set
    bit of a byte, 8 for the zero byte. *)
Fixpoint nlz (n : nat) (x : Z) : Z :=
  match n with
  | O => 0
  | S k => if Z.testbit x (Z.of_nat k) then 0 else 1 + nlz k x
  end.

Definition LeadingZeros8 (x : Z) : Z := nlz 8 x.

(** [bits.TrailingZeros8]: the number of zero bits below the lowest set
    bit of a byte, 8 for the zero byte. *)
Fixpoint ntz (n : nat) (k : Z) (x : Z) : Z :=
  match n with
  | O => 0
  | S n' => if Z.testbit x k then 0 else 1 + ntz n' (k + 1) x
  end.

Definition TrailingZeros8 (x : Z) : Z := ntz 8 0 x.

(** The loop [for i := len(ba.data) - 1; i >= 0; i--] of [LeadingZeros],
    with its [break] at the first byte that is not zero. *)
Fixpoint LeadingZeros_loop (ba : ptr) (fuel : nat) (i cnt : Z) : M Z :=
  match fuel with
  | O => ret cnt
  | S fuel' =>
      if bool_decide (i >= 0) then
        x ← data_at ba i;
        if bool_decide (x = 0) then LeadingZeros_loop ba fuel' (i - 1) (cnt +i bitsN)
        else ret (cnt +i LeadingZeros8 x)
      else ret cnt
  end.

(** [func (ba *BitArray) LeadingZeros() int] *)
Definition LeadingZeros (ba : ptr) : M Z :=
  len ← len_data ba;
  cnt ← LeadingZeros_loop ba (Z.to_nat len) (len -i 1) 0;
  sz ← get_size ba;
  let x := sz %i bitsN in
  ret (if bool_decide (x ≠ 0) then cnt -i (bitsN -i x) else cnt).

(** The loop [for _, x := range ba.data] of [TrailingZeros], with its
    [break] at the first byte that is not zero. *)
Fixpoint TrailingZeros_loop (l : list Z) (cnt : Z) : Z :=
  match l with
  | [] => cnt
  | x :: l' =>
      if bool_decide (x = 0) then TrailingZeros_loop l' (cnt +i bitsN)
      else cnt +i TrailingZeros8 x
  end.

(** [func (ba *BitArray) TrailingZeros() int] *)
Definition TrailingZeros (ba : ptr) : M Z :=
  v ← load ba;
  let cnt := TrailingZeros_loop (data v) 0 in
  sz ← get_size ba;
  ret (if bool_decide (cnt > sz) then sz else cnt).

(** The verb [%b] on an integer: its binary digits, most significant
    first, a single zero digit for zero. *)
Fixpoint binary_pos (p : positive) : string :=
  match p with
  | xH => "1"
  | xO q => binary_pos q +:+ "0"
  | xI q => binary_pos q +:+ "1"
  end.

Definition binary (x : Z) : string :=
  match x with
  | Z0 => "0"
  | Zpos p => binary_pos p
  | Zneg p => "-" +:+ binary_pos p
  end.

Fixpoint zeros (n : nat) : string :=
  match n with
  | O => EmptyString
  | S k => "0" +:+ zeros k
  end.

(** [fmt.Sprintf] with the verb [%0*b], a width and [x]: the digits of
    [x], padded on the left with zeros up to [width] characters, never
    truncated. *)
Definition Sprintf_0b (width : Z) (x : Z) : string :=
  let digits := binary x in
  zeros (Z.to_nat width - String.length digits) +:+ digits.

(** [func (ba *BitArray) String() string] *)
Definition String_ (ba : ptr) : M string :=
  baLen ← len_data ba;
  sz ← get_size ba;
  let n := sz %i bitsN in
  let n := if bool_decide (n = 0) then bitsN else n in
  x ← data_at ba (baLen -i 1);
  let s := Sprintf_0b n x in
  if bool_decide (baLen > 1) then
    for_down_acc (baLen -i 2) 0 (fun i s =>
      x ← data_at ba i;
      ret (s +:+ Sprintf_0b bitsN x)) s
  else ret s.

(** [func Concat(ba1, ba2 *BitArray) *BitArray] *)
Definition Concat (ba1 ba2 : ptr) : M ptr :=
  sz1 ← get_size ba1;
  sz2 ← get_size ba2;
  ba ← New (sz1 +i sz2) [];
  let n := sz2 /i bitsN in
  for_up 0 n (fun i => y ← data_at ba2 i; data_set ba i y);;
  for_up (n *i bitsN) sz2 (fun i =>
    b ← get ba2 i;
    if b then set ba i else ret tt);;
  sz ← get_size ba;
  for_up_acc sz2 sz (fun i i2 =>
    b ← get ba1 i2;
    (if b then set ba i else ret tt);;
    ret (i2 +i 1)) 0;;
  ret ba.

(** *** Binary encoding

    [MarshalBinary] and [UnmarshalBinary] delegate to [encoding/gob], which
    is part of the Go standard library and not of this package.  The two
    calls the package makes on each side are taken as an interface:
    encoding an [int] or a [[]uint8] yields the bytes appended to the buffer
    (or an error); decoding reads one value from the front of the stream and
    yields it with the rest of the stream (or an error). *)
Class Gob : Type := {
  gob_encode_int : Z → result (list Z);
  gob_encode_bytes : list Z → result (list Z);
  gob_decode_int : list Z → result (Z * list Z);
  gob_decode_bytes : list Z → result (list Z * list Z);
}.

(** [func (ba *BitArray) MarshalBinary()], returning the bytes and an
    [error] *)
Definition MarshalBinary `{Gob} (ba : ptr) : M (result (list Z)) :=
  sz ← get_size ba;
  match gob_encode_int sz with
  | Failure err => ret (Failure err)
  | Success b1 =>
      v ← load ba;
      match gob_encode_bytes (data v) with
      | Failure err => ret (Failure err)
      | Success b2 => ret (Success (b1 ++ b2))
      end
  end.

(** [func (ba *BitArray) UnmarshalBinary(data []byte) error]; [None] is
    the [nil] error.  The size is stored before the data is decoded. *)
Definition UnmarshalBinary `{Gob} (ba : ptr) (bytes : list Z) : M (option error) :=
  v ← load ba;
  match gob_decode_int bytes with
  | Failure err => ret (Some err)
  | Success (sz, rest) =>
      store ba (mkBitArray sz (data v));;
      match gob_decode_bytes rest with
      | Failure err => ret (Some err)
      | Success (d, _) =>
          store ba (mkBitArray sz d);;
          ret None
      end
  end.

(** *** Clients

    A client of the package: the constructors and the mutating methods, as
    calls whose results the client may discard. *)
Inductive call : Type :=
  | CallNew (size : Z) (idx : list Z)
  | CallParse (s : string)
  | CallClone (ba : ptr)
  | CallSlice (ba : ptr) (start end_ : Z)
  | CallConcat (ba1 ba2 : ptr)
  | CallSet (ba : ptr) (idx : Z)
  | CallUnset (ba : ptr) (idx : Z)
  | CallClear (ba : ptr)
  | CallSetAll (ba : ptr)
  | CallAnd (ba other : ptr)
  | CallOr (ba other : ptr)
  | CallXor (ba other : ptr)
  | CallAndNot (ba other : ptr)
  | CallNot (ba : ptr)
  | CallRotate (ba : ptr) (n : Z)
  | CallShift (ba : ptr) (n : Z).

Definition discard {A} (m : M A) : M unit := _ ← m; ret tt.

Definition run_call (c : call) : M unit :=
  match c with
  | CallNew size idx => discard (New size idx)
  | CallParse s => discard (Parse s)
  | CallClone ba => discard (Clone ba)
  | CallSlice ba start end_ => discard (Slice ba start end_)
  | CallConcat ba1 ba2 => discard (Concat ba1 ba2)
  | CallSet ba idx => Set_ ba idx
  | CallUnset ba idx => Unset ba idx
  | CallClear ba => Clear ba
  | CallSetAll ba => SetAll ba
  | CallAnd ba other => And ba other
  | CallOr ba other => Or ba other
  | CallXor ba other => Xor ba other
  | CallAndNot ba other => AndNot ba other
  | CallNot ba => Not ba
  | CallRotate ba n => Rotate ba n
  | CallShift ba n => Shift ba n
  end.

(** A sequence of calls; a call that panics is recovered from and the
    client goes on with the heap as the panic left it. *)
Definition run_calls (cs : list call) (h : heap) : heap :=
  foldl (fun h c => heap_of (run_call c h)) h cs.

(** The arguments are values of their Go types: every integer is an
    [int], and a string is no longer than an [int] can count. *)
Definition call_ok (c : call) : Prop :=
  match c with
  | CallNew size idx => is_int size ∧ Forall is_int idx
  | CallParse s => Z.of_nat (String.length s) ≤ max_int
  | CallSlice _ start end_ => is_int start ∧ is_int end_
  | CallSet _ idx | CallUnset _ idx => is_int idx
  | CallRotate _ n | CallShift _ n => is_int n
  | _ => True
  end.

(** * Specification vocabulary *)

(** [uint8] storage. *)
Definition byte_ok (x : Z) : Prop := 0 ≤ x < 256.
Definition bytes_ok (d : list Z) : Prop := Forall byte_ok d.

(** [bit_of d j]: bit [j] of the packed storage [d], least significant bit
    first inside each byte; [false] outside the storage. *)
Definition bit_of (d : list Z) (j : Z) : bool :=
  match index d (j `div` 8) with
  | Some x => Z.testbit x (j `mod` 8)
  | None => false
  end.

(** [bit v j]: the logical bit [j] of a bit array. *)
Definition bit (v : BitArray) (j : Z) : bool := bit_of (data v) j.

(** Writing one bit, as [set] and [unset] do it. *)
Definition write_bit (d : list Z) (idx : Z) (b : bool) : list Z :=
  let n := idx `div` 8 in
  let m := 2 ^ (idx `mod` 8) in
  match index d n with
  | Some x => <[Z.to_nat n := if b then Z.lor x m else Z.ldiff x m]> d
  | None => d
  end.

(** The number of storage bytes of a bit array of [sz] bits. *)
Definition nbytes (sz : Z) : Z := (sz + 7) `div` 8.

(** The data-model invariant, as a test that can be run: a positive size
    that is an [int], [ceil(size / 8)] bytes, each of them a [uint8], and
    no bit set at a position [>= size] of the storage. *)
Definition valid (v : BitArray) : bool :=
  bool_decide (0 < size v ≤ max_int)
  && bool_decide (Z.of_nat (length (data v)) = nbytes (size v))
  && forallb (fun x => bool_decide (byte_ok x)) (data v)
  && forallb (fun j => negb (bit v j))
       (seqZ (size v) (8 * Z.of_nat (length (data v)) - size v)).

Record wf (v : BitArray) : Prop := mk_wf {
  wf_size : 0 < size v ≤ max_int;
  wf_len : Z.of_nat (length (data v)) = nbytes (size v);
  wf_bytes : bytes_ok (data v);
  wf_pad : ∀ j, size v ≤ j → bit v j = false;
}.

(** The all-zero array that [New] allocates. *)
Definition zero_array (sz : Z) : BitArray :=
  mkBitArray sz (replicate (Z.to_nat (nbytes sz)) 0).

(** Every object of the heap is well-formed. *)
Definition heap_wf (h : heap) : Prop := Forall wf h.

(** What the bit loop of a binary operator has to do at one position:
    combine the current bit of the receiver with the bit read from the
    argument. *)
Definition tail_spec (ba other : ptr) (w : BitArray) (sz : Z)
    (F : bool → bool → bool) (tail : Z → M unit) : Prop :=
  ∀ i hh d,
    deref hh ba = Some (mkBitArray sz d) → 0 ≤ i < 8 * Z.of_nat (length d) →
    get other i hh = Ok (bit w i) hh →
    tail i hh = Ok tt (update hh ba (mkBitArray sz (write_bit d i (F (bit_of d i) (bit w i))))).

(** The value of byte [k] of a storage, 0 outside. *)
Definition byte_at (d : list Z) (k : Z) : Z := default 0 (index d k).

(** The byte that [SetAll] stores last in the storage. *)
Definition last_mask (sz : Z) : Z :=
  if bool_decide (sz `mod` 8 = 0) then 255 else 2 ^ (sz `mod` 8) - 1.

(** Where [moveBits n] leaves the interval that its caller still has to
    fill. *)
Definition moved_range (sz n : Z) : Z * Z :=
  if bool_decide (n = 0) then (0, 0)
  else if bool_decide (n > 0) then (0, n)
  else (sz + n, sz).

(** Position [j] receives a bit from position [j - n] of the array. *)
Definition moved (sz n j : Z) : Prop := 0 ≤ j < sz ∧ 0 ≤ j - n < sz.

(** [ones f lo n]: how many of the [n] positions from [lo] on carry a set
    bit of [f]. *)
Definition ones (f : Z → bool) (lo n : Z) : Z :=
  foldr (fun j acc => Z.b2z (f j) + acc) 0 (seqZ lo n).

(** The sum that [Count] accumulates, without wrap-around. *)
Definition sum_ones (d : list Z) : Z :=
  foldr (fun x acc => OnesCount8 x + acc) 0 d.

Definition digit (b : bool) : ascii := if b then "1"%char else "0"%char.

(** The [n] binary digits of the bits [n-1 .. 0] of [f], most significant
    first. *)
Fixpoint bits_string (f : Z → bool) (n : nat) : string :=
  match n with
  | O => EmptyString
  | S k => String (digit (f (Z.of_nat k))) (bits_string f k)
  end.

(** [Sprintf_0b] on every byte and every width from 1 to 8 that covers
    the byte: checked by running it. *)
Definition Sprintf_0b_check : bool :=
  forallb (fun n =>
    forallb (fun x =>
      if x <? 2 ^ n then
        String.eqb (Sprintf_0b n x) (bits_string (Z.testbit x) (Z.to_nat n))
      else true) (seqZ 0 256)) (seqZ 1 8).

Definition is_digit (c : ascii) : Prop := c = "0"%char ∨ c = "1"%char.

(** Bit [j] as the runes spell it: the rune [j] places from the right end
    is the digit 1. *)
Definition rune_bit (rs : list ascii) (j : Z) : bool :=
  bool_decide (rs !! Z.to_nat (Z.of_nat (length rs) - 1 - j) = Some "1"%char).

(** [b'] is [b] cut short. *)
Definition truncation_of (b' b : list Z) : Prop := ∃ t, t ≠ [] ∧ b = b' ++ t.

(** What the round trip needs from gob: encoding an [int] or a byte slice
    succeeds, a decoder positioned at an encoded value reads that value and
    stops behind it, and it reports an error when the value is cut short. *)
Class GobLaws (G : Gob) : Prop := {
  gob_encode_int_total z :
    is_int z → ∃ b, gob_encode_int z = Success b;
  gob_encode_bytes_total d :
    bytes_ok d → Z.of_nat (length d) ≤ max_int → ∃ b, gob_encode_bytes d = Success b;
  gob_decode_encode_int z b rest :
    is_int z → gob_encode_int z = Success b →
    gob_decode_int (b ++ rest) = Success (z, rest);
  gob_decode_encode_bytes d b rest :
    bytes_ok d → Z.of_nat (length d) ≤ max_int → gob_encode_bytes d = Success b →
    gob_decode_bytes (b ++ rest) = Success (d, rest);
  gob_decode_int_truncated z b b' :
    is_int z → gob_encode_int z = Success b → truncation_of b' b →
    ∃ e, gob_decode_int b' = Failure e;
  gob_decode_bytes_truncated d b b' :
    bytes_ok d → Z.of_nat (length d) ≤ max_int → gob_encode_bytes d = Success b →
    truncation_of b' b →
    ∃ e, gob_decode_bytes b' = Failure e;
}.

(** A codec that meets the contract: an [int] as eight little-endian bytes
    in two's complement, a byte slice as its length in the same form
    followed by its bytes. *)
Definition le_encode_int (z : Z) : result (list Z) :=
  Success (Z_to_little_endian 8 8 z).

Definition le_decode_int (bs : list Z) : result (Z * list Z) :=
  if bool_decide (length bs < 8)%nat then Failure (CodecError 1)
  else Success (wrap (little_endian_to_Z 8 (take 8 bs)), drop 8 bs).

Definition le_encode_bytes (d : list Z) : result (list Z) :=
  Success (Z_to_little_endian 8 8 (Z.of_nat (length d)) ++ d).

Definition le_decode_bytes (bs : list Z) : result (list Z * list Z) :=
  if bool_decide (length bs < 8)%nat then Failure (CodecError 1)
  else
    let n := Z.to_nat (little_endian_to_Z 8 (take 8 bs)) in
    let body := drop 8 bs in
    if bool_decide (length body < n)%nat then Failure (CodecError 2)
    else Success (take n body, drop n body).

#[local] Instance le_gob : Gob := {|
  gob_encode_int := le_encode_int;
  gob_encode_bytes := le_encode_bytes;
  gob_decode_int := le_decode_int;
  gob_decode_bytes := le_decode_bytes;
|}.

(** What a binary operator [op] with bit function [F] does to a receiver
    [v] at [ba] and an argument [w] at [other]: it returns normally, only
    the receiver changes, its size stays, and bit [i] becomes
    [F (old bit i) (argument's bit i)]. *)
Definition combines (op : ptr → ptr → M unit) (F : bool → bool → bool)
    (h : heap) (ba other : ptr) (v w : BitArray) : Prop :=
  ∃ v', op ba other h = Ok tt (update h ba v')
        ∧ size v' = size v ∧ wf v'
        ∧ (∀ i, 0 ≤ i < size v → bit v' i = F (bit v i) (bit w i))
        ∧ (ba ≠ other → deref (update h ba v') other = Some w).

(** The panic of [checkSize]. *)
Definition size_mismatch : panic_value := PanicString "bit array sizes must be equal".

(** Sample data: the ten-bit array that the test suite writes
    0100000001, a four-bit one, and a zero value as [new(BitArray)] gives
    it. *)
Definition sample : BitArray := mkBitArray 10 [1; 1].
Definition sample4 : BitArray := mkBitArray 4 [1].
Definition zero_value : BitArray := mkBitArray 0 [].
Definition sample_heap : heap := [sample; mkBitArray 10 [6; 1]; sample4; zero_value].
Definition sample_calls : list call :=
  [CallNew 10 [0; 8]; CallParse "11 0100"; CallConcat 1%nat 2%nat;
   CallSetAll 2%nat; CallRotate 3%nat (-5); CallNot 3%nat; CallShift 3%nat 4;
   CallSet 1%nat 12; CallAnd 1%nat 2%nat].

(** The object a call mutates, if any: the receiver of a method. *)
Definition receiver (c : call) : option ptr :=
  match c with
  | CallSet ba _ | CallUnset ba _ | CallClear ba | CallSetAll ba
  | CallAnd ba _ | CallOr ba _ | CallXor ba _ | CallAndNot ba _
  | CallNot ba | CallRotate ba _ | CallShift ba _ => Some ba
  | _ => None
  end.

(** From [h] to [h'] every object is still there with its size, and
    unchanged unless it is [r]. *)
Definition preserves (r : option ptr) (h h' : heap) : Prop :=
  ∀ q u, deref h q = Some u →
    ∃ u', deref h' q = Some u' ∧ size u' = size u ∧ (r ≠ Some q → u' = u).

(** Sample data: a heap of well-formed arrays, calls on it and a payload
    whose size and storage disagree. *)
Definition sample_wf_heap : heap := [sample; mkBitArray 10 [6; 1]; sample4].
Definition more_calls : list call :=
  [CallShift 1%nat 3; CallNot 3%nat; CallConcat 1%nat 3%nat; CallSet 1%nat 99;
   CallXor 3%nat 3%nat; CallRotate 1%nat (-4)].
Definition odd_payload : BitArray := mkBitArray 5 [255; 255; 255].

(** * Reasoning *)

#[local] Ltac Zify.zify_post_hook ::= Z.to_euclidean_division_equations.

(** ** Integers *)

Lemma wrap_id z : is_int z → wrap z = z.
Proof.
  unfold is_int, wrap, min_int, max_int, int_bits. simpl Z.sub.
  intros H. rewrite Z.mod_small; lia.
Qed.

(** Linear arithmetic with the bounds of [int] spelled out. *)
Ltac int_lia :=
  unfold is_int, min_int, max_int, int_bits in *; simpl Z.sub in *;
  change (2 ^ 63) with 9223372036854775808 in *; lia.

Lemma min_int_val : min_int = -9223372036854775808.
Proof. reflexivity. Qed.

Lemma max_int_val : max_int = 9223372036854775807.
Proof. reflexivity. Qed.

Lemma add_id a b : is_int (a + b) → a +i b = a + b.
Proof. apply wrap_id. Qed.

Lemma sub_id a b : is_int (a - b) → a -i b = a - b.
Proof. apply wrap_id. Qed.

Lemma mul_id a b : is_int (a * b) → a *i b = a * b.
Proof. apply wrap_id. Qed.

Lemma neg_id a : is_int (- a) → neg a = - a.
Proof. apply wrap_id. Qed.

(** Negating the smallest [int] gives it back. *)
Lemma neg_min_int : neg min_int = min_int.
Proof. reflexivity. Qed.

Lemma wrap_is_int z : is_int (wrap z).
Proof.
  unfold is_int, wrap, min_int, max_int, int_bits. simpl Z.sub.
  pose proof (Z.mod_pos_bound (z + 2 ^ 63) (2 ^ 64)). lia.
Qed.

(** ** Bytes and their bits *)

Lemma byte_ok_bits x :
  byte_ok x ↔ 0 ≤ x ∧ ∀ k, 8 ≤ k → Z.testbit x k = false.
Proof.
  unfold byte_ok. split.
  - intros [H0 H1]. split; [done|].
    apply (Z.bounded_iff_bits_nonneg 8 x); lia.
  - intros [H0 H1]. split; [done|].
    change 256 with (2 ^ 8). apply Z.bounded_iff_bits_nonneg; lia || done.
Qed.

Lemma byte_ok_lor x y : byte_ok x → byte_ok y → byte_ok (Z.lor x y).
Proof.
  rewrite !byte_ok_bits. intros [? Hx] [? Hy]. split.
  - by apply Z.lor_nonneg.
  - intros k Hk. by rewrite Z.lor_spec, Hx, Hy.
Qed.

Lemma byte_ok_land x y : byte_ok x → byte_ok y → byte_ok (Z.land x y).
Proof.
  rewrite !byte_ok_bits. intros [? Hx] [? Hy]. split.
  - apply Z.land_nonneg. by left.
  - intros k Hk. by rewrite Z.land_spec, Hx.
Qed.

Lemma byte_ok_lxor x y : byte_ok x → byte_ok y → byte_ok (Z.lxor x y).
Proof.
  rewrite !byte_ok_bits. intros [? Hx] [? Hy]. split.
  - by apply Z.lxor_nonneg.
  - intros k Hk. by rewrite Z.lxor_spec, Hx, Hy.
Qed.

Lemma byte_ok_ldiff x y : byte_ok x → byte_ok (Z.ldiff x y).
Proof.
  rewrite !byte_ok_bits. intros [? Hx]. split.
  - apply Z.ldiff_nonneg. by left.
  - intros k Hk. by rewrite Z.ldiff_spec, Hx.
Qed.

Lemma byte_ok_pow2 i : 0 ≤ i < 8 → byte_ok (2 ^ i).
Proof.
  intros Hi. unfold byte_ok. split; [apply Z.pow_nonneg; lia|].
  change 256 with (2 ^ 8). apply Z.pow_lt_mono_r; lia.
Qed.

Lemma byte_ok_not8 x : byte_ok x → byte_ok (not8 x).
Proof. intros Hx. apply byte_ok_lxor; [done|]. unfold byte_ok, max_uint8. lia. Qed.

Lemma testbit_255 k : Z.testbit 255 k = bool_decide (0 ≤ k < 8).
Proof.
  change 255 with (Z.ones 8).
  destruct (decide (0 ≤ k < 8)) as [Hk|Hk].
  - rewrite bool_decide_eq_true_2 by done. apply Z.ones_spec_low; lia.
  - rewrite bool_decide_eq_false_2 by done.
    destruct (decide (k < 0)).
    + apply Z.testbit_neg_r; lia.
    + apply Z.ones_spec_high; lia.
Qed.

Lemma testbit_not8 x k :
  0 ≤ k < 8 → Z.testbit (not8 x) k = negb (Z.testbit x k).
Proof.
  intros Hk. unfold not8, max_uint8.
  rewrite Z.lxor_spec, testbit_255, bool_decide_eq_true_2 by done.
  by destruct (Z.testbit x k).
Qed.

(** The one-bit mask [1 << i] for a bit position inside a byte. *)
Lemma mask_val i : 0 ≤ i < 8 → wrap8 (Z.shiftl 1 i) = 2 ^ i.
Proof.
  intros Hi. rewrite Z.shiftl_1_l. unfold wrap8.
  pose proof (byte_ok_pow2 i Hi) as [? ?]. apply Z.mod_small; lia.
Qed.

Lemma land_pow2 x i :
  0 ≤ i → Z.land x (2 ^ i) = if Z.testbit x i then 2 ^ i else 0.
Proof.
  intros Hi. apply Z.bits_inj'. intros k Hk.
  rewrite Z.land_spec, Z.pow2_bits_eqb by done.
  destruct (Z.eqb_spec i k) as [->|Hne].
  - destruct (Z.testbit x k); simpl.
    + by rewrite Z.pow2_bits_true.
    + by rewrite Z.bits_0.
  - rewrite andb_false_r. destruct (Z.testbit x i).
    + by rewrite Z.pow2_bits_false.
    + by rewrite Z.bits_0.
Qed.

Lemma land_pow2_test x i :
  0 ≤ i → bool_decide (Z.land x (2 ^ i) ≠ 0) = Z.testbit x i.
Proof.
  intros Hi. rewrite land_pow2 by done.
  destruct (Z.testbit x i).
  - apply bool_decide_eq_true_2. pose proof (Z.pow_pos_nonneg 2 i). lia.
  - by apply bool_decide_eq_false_2; intros [].
Qed.

Lemma index_Some d n x :
  index d n = Some x ↔ 0 ≤ n ∧ d !! Z.to_nat n = Some x.
Proof.
  unfold index. case_bool_decide; split.
  - by intros.
  - by intros [_ ?].
  - done.
  - intros [? _]. lia.
Qed.

Lemma index_lt d n : 0 ≤ n < Z.of_nat (length d) → is_Some (index d n).
Proof.
  intros Hn. unfold index. rewrite bool_decide_eq_true_2 by lia.
  apply lookup_lt_is_Some. lia.
Qed.

Lemma index_None d n : ¬ (0 ≤ n < Z.of_nat (length d)) → index d n = None.
Proof.
  intros Hn. unfold index. case_bool_decide; [|done].
  apply lookup_ge_None. lia.
Qed.

Lemma index_insert d n m x :
  0 ≤ n < Z.of_nat (length d) →
  index (<[Z.to_nat n := x]> d) m = if bool_decide (m = n) then Some x else index d m.
Proof.
  intros Hn. unfold index. destruct (decide (m = n)) as [->|Hm].
  - rewrite !bool_decide_eq_true_2 by (done || lia).
    apply list_lookup_insert_eq. lia.
  - rewrite (bool_decide_eq_false_2 (m = n)) by done.
    case_bool_decide; [|done]. apply list_lookup_insert_ne. lia.
Qed.

Lemma index_bytes_ok d n x : bytes_ok d → index d n = Some x → byte_ok x.
Proof.
  intros Hd [_ Hx]%index_Some.
  eapply Forall_lookup_1; eauto.
Qed.

Lemma bytes_ok_insert d n x : bytes_ok d → byte_ok x → bytes_ok (<[n := x]> d).
Proof. intros. by apply Forall_insert. Qed.

Lemma bytes_ok_replicate n : bytes_ok (replicate n 0).
Proof. apply Forall_replicate. unfold byte_ok. lia. Qed.

Lemma bit_of_outside d j : ¬ (0 ≤ j < 8 * Z.of_nat (length d)) → bit_of d j = false.
Proof.
  intros Hj. unfold bit_of. rewrite index_None; [done|]. lia.
Qed.

Lemma bit_of_replicate n j : bit_of (replicate n 0) j = false.
Proof.
  unfold bit_of. destruct (index _ _) as [x|] eqn:Hx; [|done].
  apply index_Some in Hx as [_ Hx]. apply lookup_replicate in Hx as [-> _].
  apply Z.bits_0.
Qed.

(** Byte [n] holds the bits [8n .. 8n+7]. *)
Lemma bit_of_byte d n x k :
  index d n = Some x → 0 ≤ k < 8 → bit_of d (8 * n + k) = Z.testbit x k.
Proof.
  intros Hx Hk. unfold bit_of.
  replace ((8 * n + k) `div` 8) with n by lia.
  replace ((8 * n + k) `mod` 8) with k by lia.
  by rewrite Hx.
Qed.

Lemma bit_of_insert d n x j :
  0 ≤ n < Z.of_nat (length d) →
  bit_of (<[Z.to_nat n := x]> d) j =
    if bool_decide (j `div` 8 = n) then Z.testbit x (j `mod` 8) else bit_of d j.
Proof.
  intros Hn. unfold bit_of. rewrite index_insert by done.
  by case_bool_decide.
Qed.

Lemma length_write_bit d idx b : length (write_bit d idx b) = length d.
Proof.
  unfold write_bit. destruct (index _ _); [|done]. apply length_insert.
Qed.

Lemma bytes_ok_write_bit d idx b : bytes_ok d → bytes_ok (write_bit d idx b).
Proof.
  intros Hd. unfold write_bit. destruct (index _ _) as [x|] eqn:Hx; [|done].
  apply bytes_ok_insert; [done|].
  pose proof (index_bytes_ok _ _ _ Hd Hx).
  destruct b.
  - apply byte_ok_lor; [done|]. apply byte_ok_pow2. lia.
  - by apply byte_ok_ldiff.
Qed.

Lemma bit_of_write_bit d idx b j :
  0 ≤ idx < 8 * Z.of_nat (length d) →
  bit_of (write_bit d idx b) j = if bool_decide (j = idx) then b else bit_of d j.
Proof.
  intros Hidx. unfold write_bit.
  destruct (index_lt d (idx `div` 8)) as [x Hx]; [lia|]. rewrite Hx.
  rewrite bit_of_insert by lia.
  case_bool_decide as Hdiv.
  - assert (Hm : 0 ≤ idx `mod` 8 < 8) by lia.
    assert (Hjm : 0 ≤ j `mod` 8 < 8) by lia.
    case_bool_decide as Hj.
    + subst j. destruct b.
      * rewrite Z.lor_spec, Z.pow2_bits_true by lia. apply orb_true_r.
      * rewrite Z.ldiff_spec, Z.pow2_bits_true by lia. apply andb_false_r.
    + assert (idx `mod` 8 ≠ j `mod` 8) by lia.
      assert (Hb : bit_of d j = Z.testbit x (j `mod` 8)).
      { unfold bit_of. by rewrite Hdiv, Hx. }
      rewrite Hb. destruct b.
      * rewrite Z.lor_spec, Z.pow2_bits_false by done. apply orb_false_r.
      * rewrite Z.ldiff_spec, Z.pow2_bits_false by done. apply andb_true_r.
  - rewrite bool_decide_eq_false_2; [done|]. intros ->. done.
Qed.

(** Storage is determined by its length and its bits. *)
Lemma bits_ext d d' :
  length d = length d' → bytes_ok d → bytes_ok d' →
  (∀ j, 0 ≤ j < 8 * Z.of_nat (length d) → bit_of d j = bit_of d' j) →
  d = d'.
Proof.
  intros Hlen Hd Hd' Hbits. apply list_eq_same_length with (length d); try done.
  intros i x y Hi Hx Hy.
  assert (Hix : index d (Z.of_nat i) = Some x).
  { apply index_Some. rewrite Nat2Z.id. split; [lia|done]. }
  assert (Hiy : index d' (Z.of_nat i) = Some y).
  { apply index_Some. rewrite Nat2Z.id. split; [lia|done]. }
  pose proof (index_bytes_ok _ _ _ Hd Hix) as [_ Hx8]%byte_ok_bits.
  pose proof (index_bytes_ok _ _ _ Hd' Hiy) as [_ Hy8]%byte_ok_bits.
  apply Z.bits_inj'. intros k Hk.
  destruct (decide (k < 8)) as [Hk8|Hk8].
  - rewrite <- (bit_of_byte d (Z.of_nat i) x k), <- (bit_of_byte d' (Z.of_nat i) y k) by (done || lia).
    apply Hbits. lia.
  - rewrite Hx8, Hy8 by lia. done.
Qed.

(** ** The heap *)

Lemma deref_update_eq h p v v' :
  deref h p = Some v → deref (update h p v') p = Some v'.
Proof.
  destruct p as [|k]; [done|]. simpl. intros Hv.
  apply list_lookup_insert_eq. by eapply lookup_lt_Some.
Qed.

Lemma deref_update_ne h p q v' :
  p ≠ q → deref (update h p v') q = deref h q.
Proof.
  destruct p as [|k], q as [|k']; try done. simpl. intros Hne.
  apply list_lookup_insert_ne. congruence.
Qed.

Lemma update_update h p v v' : update (update h p v) p v' = update h p v'.
Proof. destruct p as [|k]; [done|]. simpl. apply list_insert_insert_eq. Qed.

Lemma update_same h p v : deref h p = Some v → update h p v = h.
Proof. destruct p as [|k]; [done|]. simpl. apply list_insert_id. Qed.

Lemma length_update h p v : length (update h p v) = length h.
Proof. destruct p as [|k]; [done|]. simpl. apply length_insert. Qed.

Lemma deref_lt h p v : deref h p = Some v → (0 < p ≤ length h)%nat.
Proof.
  destruct p as [|k]; [done|]. simpl. intros Hv%lookup_lt_Some. lia.
Qed.

Lemma deref_app_old h v p w : deref h p = Some w → deref (h ++ [v]) p = Some w.
Proof.
  destruct p as [|k]; [done|]. simpl. intros Hw.
  rewrite lookup_app_l; [done|]. by eapply lookup_lt_Some.
Qed.

Lemma deref_app_new h v : deref (h ++ [v]) (S (length h)) = Some v.
Proof. simpl. by rewrite list_lookup_middle. Qed.

Lemma deref_fresh h : deref h (S (length h)) = None.
Proof. simpl. by apply lookup_ge_None. Qed.

Lemma update_app_new h v v' :
  update (h ++ [v]) (S (length h)) v' = h ++ [v'].
Proof.
  simpl. rewrite insert_app_r_alt by lia.
  by rewrite Nat.sub_diag.
Qed.

Lemma update_app_old h p v w w' :
  deref h p = Some w → update (h ++ [v]) p w' = update h p w' ++ [v].
Proof.
  destruct p as [|k]; [done|]. simpl. intros Hw.
  apply insert_app_l. by eapply lookup_lt_Some.
Qed.

(** ** Running the monad *)

Lemma bind_ok {A B} (m : M A) (k : A → M B) h a h' :
  m h = Ok a h' → bind m k h = k a h'.
Proof. unfold bind. by intros ->. Qed.

Lemma bind_panicked {A B} (m : M A) (k : A → M B) h p h' :
  m h = Panicked p h' → bind m k h = Panicked p h'.
Proof. unfold bind. by intros ->. Qed.

Lemma load_ok h p v : deref h p = Some v → load p h = Ok v h.
Proof. unfold load. by intros ->. Qed.

Lemma get_size_ok h p v : deref h p = Some v → get_size p h = Ok (size v) h.
Proof. intros Hv. unfold get_size. by rewrite (bind_ok _ _ _ _ _ (load_ok _ _ _ Hv)). Qed.

Lemma len_data_ok h p v :
  deref h p = Some v → len_data p h = Ok (Z.of_nat (length (data v))) h.
Proof. intros Hv. unfold len_data. by rewrite (bind_ok _ _ _ _ _ (load_ok _ _ _ Hv)). Qed.

Lemma data_at_ok h p v n x :
  deref h p = Some v → index (data v) n = Some x → data_at p n h = Ok x h.
Proof.
  intros Hv Hx. unfold data_at.
  rewrite (bind_ok _ _ _ _ _ (load_ok _ _ _ Hv)). by rewrite Hx.
Qed.

Lemma data_at_panic h p v n :
  deref h p = Some v → index (data v) n = None →
  data_at p n h = Panicked RuntimeError h.
Proof.
  intros Hv Hx. unfold data_at.
  rewrite (bind_ok _ _ _ _ _ (load_ok _ _ _ Hv)). by rewrite Hx.
Qed.

Lemma data_set_ok h p v n x :
  deref h p = Some v → 0 ≤ n < Z.of_nat (length (data v)) →
  data_set p n x h = Ok tt (update h p (mkBitArray (size v) (<[Z.to_nat n := x]> (data v)))).
Proof.
  intros Hv Hn. unfold data_set.
  rewrite (bind_ok _ _ _ _ _ (load_ok _ _ _ Hv)).
  by rewrite bool_decide_eq_true_2.
Qed.

Lemma shl8_ok a i h : 0 ≤ i → shl8 a i h = Ok (wrap8 (Z.shiftl a i)) h.
Proof. intros Hi. unfold shl8. by rewrite bool_decide_eq_false_2 by lia. Qed.

Lemma quot_rem_8 idx : 0 ≤ idx → idx /i bitsN = idx `div` 8 ∧ idx %i bitsN = idx `mod` 8.
Proof. unfold bitsN. lia. Qed.

(** [get], [set] and [unset] on a position that lies inside the storage. *)
Lemma get_ok h p v idx :
  deref h p = Some v → 0 ≤ idx < 8 * Z.of_nat (length (data v)) →
  get p idx h = Ok (bit v idx) h.
Proof.
  intros Hv Hidx. unfold get.
  destruct (quot_rem_8 idx) as [-> ->]; [lia|].
  destruct (index_lt (data v) (idx `div` 8)) as [x Hx]; [lia|].
  rewrite (bind_ok _ _ _ _ _ (data_at_ok _ _ _ _ _ Hv Hx)).
  rewrite (bind_ok _ _ _ _ _ (shl8_ok 1 (idx `mod` 8) h ltac:(lia))).
  rewrite mask_val by lia. unfold ret, bit, bit_of. rewrite Hx.
  by rewrite land_pow2_test by lia.
Qed.

Lemma write_ok (b : bool) h p v idx :
  deref h p = Some v → 0 ≤ idx < 8 * Z.of_nat (length (data v)) →
  (if b then set p idx else unset p idx) h =
    Ok tt (update h p (mkBitArray (size v) (write_bit (data v) idx b))).
Proof.
  intros Hv Hidx.
  destruct (index_lt (data v) (idx `div` 8)) as [x Hx]; [lia|].
  assert (Hn : 0 ≤ idx `div` 8 < Z.of_nat (length (data v))) by lia.
  unfold write_bit. rewrite Hx.
  destruct b; unfold set, unset;
    destruct (quot_rem_8 idx) as [-> ->]; try lia;
    rewrite (bind_ok _ _ _ _ _ (data_at_ok _ _ _ _ _ Hv Hx));
    rewrite (bind_ok _ _ _ _ _ (shl8_ok 1 (idx `mod` 8) h ltac:(lia)));
    rewrite mask_val by lia;
    by rewrite (data_set_ok _ _ _ _ _ Hv Hn).
Qed.

Lemma set_ok h p v idx :
  deref h p = Some v → 0 ≤ idx < 8 * Z.of_nat (length (data v)) →
  set p idx h = Ok tt (update h p (mkBitArray (size v) (write_bit (data v) idx true))).
Proof. apply (write_ok true). Qed.

Lemma unset_ok h p v idx :
  deref h p = Some v → 0 ≤ idx < 8 * Z.of_nat (length (data v)) →
  unset p idx h = Ok tt (update h p (mkBitArray (size v) (write_bit (data v) idx false))).
Proof. apply (write_ok false). Qed.

Lemma checkIdx_ok h p v idx :
  deref h p = Some v → 0 ≤ idx < size v → checkIdx p idx h = Ok tt h.
Proof.
  intros Hv Hidx. unfold checkIdx.
  rewrite (bind_ok _ _ _ _ _ (get_size_ok _ _ _ Hv)).
  by rewrite !bool_decide_eq_false_2 by lia.
Qed.

Lemma checkIdx_panic h p v idx :
  deref h p = Some v → ¬ (0 ≤ idx < size v) →
  checkIdx p idx h = Panicked (PanicString "index out of range") h.
Proof.
  intros Hv Hidx. unfold checkIdx.
  rewrite (bind_ok _ _ _ _ _ (get_size_ok _ _ _ Hv)).
  destruct (decide (idx < 0)).
  - by rewrite bool_decide_eq_true_2 by done.
  - rewrite (bool_decide_eq_true_2 (idx >= size v)) by lia.
    by rewrite orb_true_r.
Qed.

(** ** Loops *)

Lemma for_up_acc_nop {A} a e (body : Z → A → M A) acc h :
  e ≤ a → for_up_acc a e body acc h = Ok acc h.
Proof.
  intros He. unfold for_up_acc. by replace (Z.to_nat (e - a)) with O by lia.
Qed.

Lemma for_up_acc_step {A} a e (body : Z → A → M A) acc :
  a < e →
  for_up_acc a e body acc = bind (body a acc) (for_up_acc (a + 1) e body).
Proof.
  intros He. unfold for_up_acc.
  replace (Z.to_nat (e - a)) with (S (Z.to_nat (e - (a + 1)))) by lia.
  simpl. by rewrite bool_decide_eq_true_2.
Qed.

(** Invariant rule for an ascending loop whose body never panics. *)
Lemma for_up_acc_inv {A} (I : Z → A → heap → Prop) a e (body : Z → A → M A) acc h :
  a ≤ e → I a acc h →
  (∀ i acc h, a ≤ i < e → I i acc h →
     ∃ acc' h', body i acc h = Ok acc' h' ∧ I (i + 1) acc' h') →
  ∃ acc' h', for_up_acc a e body acc h = Ok acc' h' ∧ I e acc' h'.
Proof.
  intros Hae HI Hbody.
  remember (Z.to_nat (e - a)) as k eqn:Hk.
  revert a acc h Hae HI Hbody Hk. induction k as [|k IH]; intros a acc h Hae HI Hbody Hk.
  - assert (a = e) as -> by lia. exists acc, h. split; [|done].
    by apply for_up_acc_nop.
  - rewrite for_up_acc_step by lia.
    destruct (Hbody a acc h) as (acc1 & h1 & Hb & HI1); [lia|done|].
    rewrite (bind_ok _ _ _ _ _ Hb).
    apply IH; [lia|done| |lia].
    intros i acc2 h2 Hi. apply Hbody. lia.
Qed.

Lemma for_up_inv (I : Z → heap → Prop) a e (body : Z → M unit) h :
  a ≤ e → I a h →
  (∀ i h, a ≤ i < e → I i h → ∃ h', body i h = Ok tt h' ∧ I (i + 1) h') →
  ∃ h', for_up a e body h = Ok tt h' ∧ I e h'.
Proof.
  intros Hae HI Hbody. unfold for_up.
  destruct (for_up_acc_inv (fun i _ h => I i h) a e (fun i _ => body i) tt h)
    as ([] & h' & Hrun & HI'); [done|done| |by exists h'].
  intros i _ h1 Hi HI1. destruct (Hbody i h1 Hi HI1) as (h2 & Hb & HI2).
  by exists tt, h2.
Qed.

Lemma for_up_nop a e (body : Z → M unit) h : e ≤ a → for_up a e body h = Ok tt h.
Proof. intros. unfold for_up. by apply for_up_acc_nop. Qed.

Lemma for_down_acc_nop {A} a e (body : Z → A → M A) acc h :
  a < e → for_down_acc a e body acc h = Ok acc h.
Proof.
  intros He. unfold for_down_acc. by replace (Z.to_nat (a - e + 1)) with O by lia.
Qed.

Lemma for_down_acc_step {A} a e (body : Z → A → M A) acc :
  e ≤ a →
  for_down_acc a e body acc = bind (body a acc) (for_down_acc (a - 1) e body).
Proof.
  intros He. unfold for_down_acc.
  replace (Z.to_nat (a - e + 1)) with (S (Z.to_nat (a - 1 - e + 1))) by lia.
  simpl. by rewrite bool_decide_eq_true_2.
Qed.

(** Invariant rule for a descending loop: [I i] holds when the positions
    above [i] have been handled. *)
Lemma for_down_acc_inv {A} (I : Z → A → heap → Prop) a e (body : Z → A → M A) acc h :
  e - 1 ≤ a → I a acc h →
  (∀ i acc h, e ≤ i ≤ a → I i acc h →
     ∃ acc' h', body i acc h = Ok acc' h' ∧ I (i - 1) acc' h') →
  ∃ acc' h', for_down_acc a e body acc h = Ok acc' h' ∧ I (e - 1) acc' h'.
Proof.
  intros Hae HI Hbody.
  remember (Z.to_nat (a - e + 1)) as k eqn:Hk.
  revert a acc h Hae HI Hbody Hk. induction k as [|k IH]; intros a acc h Hae HI Hbody Hk.
  - assert (a = e - 1) as -> by lia. exists acc, h. split; [|done].
    apply for_down_acc_nop. lia.
  - rewrite for_down_acc_step by lia.
    destruct (Hbody a acc h) as (acc1 & h1 & Hb & HI1); [lia|done|].
    rewrite (bind_ok _ _ _ _ _ Hb).
    apply IH; [lia|done| |lia].
    intros i acc2 h2 Hi. apply Hbody. lia.
Qed.

Lemma for_down_nop a e (body : Z → M unit) h : a < e → for_down a e body h = Ok tt h.
Proof. intros. unfold for_down. by apply for_down_acc_nop. Qed.

Lemma for_down_inv (I : Z → heap → Prop) a e (body : Z → M unit) h :
  e - 1 ≤ a → I a h →
  (∀ i h, e ≤ i ≤ a → I i h → ∃ h', body i h = Ok tt h' ∧ I (i - 1) h') →
  ∃ h', for_down a e body h = Ok tt h' ∧ I (e - 1) h'.
Proof.
  intros Hae HI Hbody. unfold for_down.
  destruct (for_down_acc_inv (fun i _ h => I i h) a e (fun i _ => body i) tt h)
    as ([] & h' & Hrun & HI'); [done|done| |by exists h'].
  intros i _ h1 Hi HI1. destruct (Hbody i h1 Hi HI1) as (h2 & Hb & HI2).
  by exists tt, h2.
Qed.

(** ** Well-formed bit arrays *)

Lemma valid_wf v : valid v = true ↔ wf v.
Proof.
  unfold valid. rewrite !andb_true_iff, !bool_decide_eq_true, !forallb_forall.
  split.
  - intros [[[Hs Hl] Hb] Hp]. split; try done.
    + apply Forall_forall. intros x Hx. apply list_elem_of_In in Hx.
      by apply (bool_decide_eq_true_1 (byte_ok x)), Hb.
    + intros j Hj. destruct (decide (j < 8 * Z.of_nat (length (data v)))).
      * apply negb_true_iff, Hp, list_elem_of_In, elem_of_seqZ. lia.
      * apply bit_of_outside. lia.
  - intros [Hs Hl Hb Hp]. split; [split; [split|]|]; try done.
    + intros x Hx. apply bool_decide_eq_true_2.
      eapply Forall_forall in Hb; [done|]. by apply list_elem_of_In.
    + intros j Hj. apply list_elem_of_In, elem_of_seqZ in Hj.
      apply negb_true_iff, Hp. lia.
Qed.

Lemma wf_cover v : wf v → size v ≤ 8 * Z.of_nat (length (data v)) < size v + 8.
Proof. intros [Hs Hl _ _]. rewrite Hl. unfold nbytes. lia. Qed.

Lemma wf_len_pos v : wf v → 0 < Z.of_nat (length (data v)).
Proof. intros [Hs Hl _ _]. rewrite Hl. unfold nbytes. lia. Qed.

(** Two well-formed arrays with the same size and the same bits are the
    same record. *)
Lemma wf_ext v w :
  wf v → wf w → size v = size w →
  (∀ j, 0 ≤ j < size v → bit v j = bit w j) → v = w.
Proof.
  intros Hv Hw Hs Hb. destruct v as [sv dv], w as [sw dw]. simpl in *. subst sw.
  f_equal. pose proof (wf_len _ Hv) as Hlv. pose proof (wf_len _ Hw) as Hlw.
  simpl in *. apply bits_ext.
  - lia.
  - apply (wf_bytes _ Hv).
  - apply (wf_bytes _ Hw).
  - intros j Hj. destruct (decide (j < sv)).
    + apply Hb. lia.
    + pose proof (wf_pad _ Hv j) as H1. pose proof (wf_pad _ Hw j) as H2.
      unfold bit in *. simpl in *. rewrite H1, H2 by lia. done.
Qed.

Lemma bit_zero_array sz j : bit (zero_array sz) j = false.
Proof. apply bit_of_replicate. Qed.

Lemma wf_zero_array sz : 0 < sz ≤ max_int → wf (zero_array sz).
Proof.
  intros Hs. split; simpl.
  - done.
  - rewrite length_replicate. unfold nbytes. lia.
  - apply bytes_ok_replicate.
  - intros j _. apply bit_zero_array.
Qed.

Lemma heap_wf_deref h p v : heap_wf h → deref h p = Some v → wf v.
Proof.
  destruct p as [|k]; [done|]. simpl. intros Hh Hv.
  eapply Forall_lookup_1; eauto.
Qed.

Lemma heap_wf_update h p v : heap_wf h → wf v → heap_wf (update h p v).
Proof.
  destruct p as [|k]; [done|]. simpl. intros Hh Hv. by apply Forall_insert.
Qed.

Lemma heap_wf_alloc h v : heap_wf h → wf v → heap_wf (h ++ [v]).
Proof. intros Hh Hv. apply Forall_app. split; [done|]. by apply Forall_singleton. Qed.

(** ** [New] *)

Lemma New_size_panic sz idx h :
  sz ≤ 0 → New sz idx h = Panicked (PanicString "size must be > 0") h.
Proof. intros Hs. unfold New. by rewrite bool_decide_eq_true_2. Qed.

Lemma New_unfold sz idx h :
  0 < sz ≤ max_int →
  New sz idx h =
    bind (for_range idx (fun i => Set_ (S (length h)) i)) (fun _ => ret (S (length h)))
      (h ++ [zero_array sz]).
Proof.
  intros Hs. unfold New. rewrite bool_decide_eq_false_2 by lia.
  assert (Hn : (if bool_decide (sz %i bitsN > 0) then sz /i bitsN +i 1 else sz /i bitsN)
               = nbytes sz).
  { unfold nbytes, bitsN. rewrite max_int_val in Hs. case_bool_decide.
    - rewrite add_id; [lia|]. unfold is_int. rewrite min_int_val, max_int_val. lia.
    - lia. }
  rewrite Hn. unfold make.
  rewrite bool_decide_eq_false_2 by (unfold nbytes; lia).
  reflexivity.
Qed.

Lemma New_ok sz h :
  0 < sz ≤ max_int →
  New sz [] h = Ok (S (length h)) (h ++ [zero_array sz]).
Proof. intros Hs. by rewrite New_unfold. Qed.

(** ** Writing bits under a condition *)

Lemma write_bit_same d idx b :
  0 ≤ idx < 8 * Z.of_nat (length d) → bit_of d idx = b → write_bit d idx b = d.
Proof.
  intros Hidx Hb. unfold write_bit.
  destruct (index_lt d (idx `div` 8)) as [x Hx]; [lia|]. rewrite Hx.
  apply index_Some in Hx as Hx'. destruct Hx' as [_ Hx'].
  apply list_insert_id. rewrite Hx'. f_equal.
  unfold bit_of in Hb. rewrite Hx in Hb.
  apply Z.bits_inj'. intros k Hk. subst b.
  destruct (Z.testbit x (idx `mod` 8)) eqn:Hbit.
  - rewrite Z.lor_spec, Z.pow2_bits_eqb by lia.
    destruct (Z.eqb_spec (idx `mod` 8) k) as [<-|?].
    + by rewrite Hbit.
    + by rewrite orb_false_r.
  - rewrite Z.ldiff_spec, Z.pow2_bits_eqb by lia.
    destruct (Z.eqb_spec (idx `mod` 8) k) as [<-|?].
    + by rewrite Hbit.
    + by rewrite andb_true_r.
Qed.

Lemma mk_eta v : mkBitArray (size v) (data v) = v.
Proof. by destruct v. Qed.

(** [if b { p.set(idx) }] on a cleared bit writes [b] there. *)
Lemma set_if_ok (b : bool) h p v idx :
  deref h p = Some v → 0 ≤ idx < 8 * Z.of_nat (length (data v)) →
  bit v idx = false →
  (if b then set p idx else ret tt) h =
    Ok tt (update h p (mkBitArray (size v) (write_bit (data v) idx b))).
Proof.
  intros Hv Hidx Hb. destruct b.
  - by apply set_ok.
  - rewrite write_bit_same by done. rewrite mk_eta.
    by rewrite update_same.
Qed.

(** [if !b { p.unset(idx) }] on a bit that is set writes [b] there, and on
    a cleared bit it writes [b && false]. *)
Lemma unset_if_ok (b : bool) h p v idx :
  deref h p = Some v → 0 ≤ idx < 8 * Z.of_nat (length (data v)) →
  (if negb b then unset p idx else ret tt) h =
    Ok tt (update h p (mkBitArray (size v) (write_bit (data v) idx (bit v idx && b)))).
Proof.
  intros Hv Hidx. destruct b; simpl.
  - rewrite andb_true_r. rewrite write_bit_same by done. rewrite mk_eta.
    by rewrite update_same.
  - rewrite andb_false_r. by apply unset_ok.
Qed.

(** ** [Slice] *)

Lemma Slice_start_panic h ba v start end_ :
  deref h ba = Some v → ¬ (0 ≤ start < size v) →
  Slice ba start end_ h = Panicked (PanicString "index out of range") h.
Proof.
  intros Hv Hs. unfold Slice.
  by rewrite (bind_panicked _ _ _ _ _ (checkIdx_panic _ _ _ _ Hv Hs)).
Qed.

Lemma Slice_end_panic h ba v start end_ :
  deref h ba = Some v → size v ≤ max_int → is_int end_ →
  0 ≤ start < size v → ¬ (0 ≤ end_ - 1 < size v) →
  Slice ba start end_ h = Panicked (PanicString "index out of range") h.
Proof.
  intros Hv Hmax He Hs Hend. unfold Slice.
  rewrite (bind_ok _ _ _ _ _ (checkIdx_ok _ _ _ _ Hv Hs)).
  apply bind_panicked. apply (checkIdx_panic _ _ v); [done|].
  destruct (decide (end_ = min_int)) as [->|Hne].
  - change (min_int -i 1) with max_int. lia.
  - rewrite sub_id; [done|]. unfold is_int in *. lia.
Qed.

Lemma Slice_size_panic h ba v start end_ :
  deref h ba = Some v → size v ≤ max_int →
  0 ≤ start < size v → 0 ≤ end_ - 1 < size v → end_ ≤ start →
  Slice ba start end_ h = Panicked (PanicString "size must be > 0") h.
Proof.
  intros Hv Hmax Hs He Hle. unfold Slice.
  rewrite (bind_ok _ _ _ _ _ (checkIdx_ok _ _ _ _ Hv Hs)).
  assert (Hi : ∀ z, -size v ≤ z ≤ size v → is_int z).
  { intros z Hz. int_lia. }
  rewrite (sub_id end_ 1) by (apply Hi; lia).
  rewrite (bind_ok _ _ _ _ _ (checkIdx_ok _ _ _ _ Hv He)).
  apply bind_panicked, New_size_panic.
  rewrite sub_id by (apply Hi; lia). lia.
Qed.

Lemma Slice_ok h ba v start end_ :
  deref h ba = Some v → wf v →
  0 ≤ start < size v → 0 ≤ end_ - 1 < size v → start < end_ →
  ∃ r, Slice ba start end_ h = Ok (S (length h)) (h ++ [r])
       ∧ wf r ∧ size r = end_ - start
       ∧ ∀ k, 0 ≤ k < end_ - start → bit r k = bit v (start + k).
Proof.
  intros Hv Hwf Hs He Hlt. unfold Slice.
  pose proof (wf_size _ Hwf) as Hsz. pose proof (wf_cover _ Hwf) as Hcov.
  assert (Hi : ∀ z, -size v ≤ z ≤ size v → is_int z).
  { intros z Hz. int_lia. }
  rewrite (bind_ok _ _ _ _ _ (checkIdx_ok _ _ _ _ Hv Hs)).
  rewrite (sub_id end_ 1) by (apply Hi; lia).
  rewrite (bind_ok _ _ _ _ _ (checkIdx_ok _ _ _ _ Hv He)).
  rewrite (sub_id end_ start) by (apply Hi; lia).
  set (n := end_ - start).
  rewrite (bind_ok _ _ _ _ _ (New_ok n h ltac:(lia))).
  set (res := S (length h)).
  pose proof (wf_zero_array n ltac:(lia)) as Hz.
  set (I := fun (i idx : Z) (hh : heap) =>
    idx = i - start ∧ ∃ d, hh = h ++ [mkBitArray n d]
      ∧ length d = length (data (zero_array n)) ∧ bytes_ok d
      ∧ ∀ j, bit_of d j = if bool_decide (0 ≤ j < i - start) then bit v (start + j) else false).
  destruct (for_up_acc_inv I start end_
    (fun i idx => b ← get ba i; (if b then set res idx else ret tt);; ret (idx +i 1))
    0 (h ++ [zero_array n])) as (idx' & h' & Hrun & HI).
  - lia.
  - split; [lia|]. exists (data (zero_array n)). repeat split.
    + apply (wf_bytes _ Hz).
    + intros j. rewrite bool_decide_eq_false_2 by lia. apply bit_zero_array.
  - intros i idx hh Hi' (-> & d & -> & Hlen & Hd & Hbits).
    pose proof (wf_cover _ Hz) as Hcz. rewrite <- Hlen in Hcz.
    change (size (zero_array n)) with n in Hcz.
    rewrite (bind_ok _ _ _ _ _ (get_ok _ _ v i (deref_app_old _ _ _ _ Hv) ltac:(lia))).
    assert (Hres : deref (h ++ [mkBitArray n d]) res = Some (mkBitArray n d))
      by apply deref_app_new.
    assert (Hclear : bit (mkBitArray n d) (i - start) = false).
    { unfold bit. simpl. rewrite Hbits. by rewrite bool_decide_eq_false_2 by lia. }
    rewrite (bind_ok _ _ _ _ _
      (set_if_ok (bit v i) _ _ _ (i - start) Hres ltac:(simpl; lia) Hclear)).
    unfold ret. eexists _, _. split; [reflexivity|]. unfold I.
    split; [rewrite add_id; [lia|apply Hi; lia]|].
    exists (write_bit d (i - start) (bit v i)). repeat split.
    + unfold res. by rewrite update_app_new.
    + by rewrite length_write_bit.
    + by apply bytes_ok_write_bit.
    + intros j. rewrite bit_of_write_bit by lia. rewrite Hbits.
      case_bool_decide as Hj.
      * subst j. rewrite bool_decide_eq_true_2 by lia. f_equal. lia.
      * repeat case_bool_decide; try lia; done.
  - destruct HI as (_ & d & -> & Hlen & Hd & Hbits).
    exists (mkBitArray n d). rewrite (bind_ok _ _ _ _ _ Hrun).
    split; [done|]. split; [|split; [done|]].
    + split; simpl.
      * lia.
      * rewrite Hlen. apply (wf_len _ Hz).
      * done.
      * intros j Hj. unfold bit. simpl. rewrite Hbits.
        by rewrite bool_decide_eq_false_2 by lia.
    + intros k Hk. unfold bit at 1. simpl. rewrite Hbits.
      by rewrite bool_decide_eq_true_2 by lia.
Qed.

(** [if b { p.set(idx) }] in general: the bit becomes [old || b]. *)
Lemma set_if_or_ok (b : bool) h p v idx :
  deref h p = Some v → 0 ≤ idx < 8 * Z.of_nat (length (data v)) →
  (if b then set p idx else ret tt) h =
    Ok tt (update h p (mkBitArray (size v) (write_bit (data v) idx (bit v idx || b)))).
Proof.
  intros Hv Hidx. destruct b.
  - rewrite orb_true_r. by apply set_ok.
  - rewrite orb_false_r. rewrite write_bit_same by done. rewrite mk_eta.
    by rewrite update_same.
Qed.

(** ** Loops that write the receiver bit by bit or byte by byte *)

Section receiver_loops.
Variables (h : heap) (p : ptr) (sz : Z) (d0 : list Z).
Hypothesis Hp : deref h p = Some (mkBitArray sz d0).
Hypothesis Hd0 : bytes_ok d0.

(** An ascending loop whose step [i] writes bit [i] with [g i], given
    that the bits in [a, i) have been written and the others still have
    their initial value. *)
Lemma write_loop_up (g : Z → bool) a e (body : Z → M unit) :
  0 ≤ a → e ≤ 8 * Z.of_nat (length d0) →
  (∀ i d, a ≤ i < e → length d = length d0 → bytes_ok d →
     (∀ j, bit_of d j = if bool_decide (a ≤ j < i) then g j else bit_of d0 j) →
     body i (update h p (mkBitArray sz d)) =
       Ok tt (update h p (mkBitArray sz (write_bit d i (g i))))) →
  ∃ d', for_up a e body h = Ok tt (update h p (mkBitArray sz d'))
        ∧ length d' = length d0 ∧ bytes_ok d'
        ∧ ∀ j, bit_of d' j = if bool_decide (a ≤ j < e) then g j else bit_of d0 j.
Proof.
  intros Ha He Hbody. destruct (decide (a ≤ e)) as [Hae|Hae].
  - set (I := fun (i : Z) (hh : heap) => ∃ d,
      hh = update h p (mkBitArray sz d) ∧ length d = length d0 ∧ bytes_ok d
      ∧ ∀ j, bit_of d j = if bool_decide (a ≤ j < i) then g j else bit_of d0 j).
    destruct (for_up_inv I a e body h) as (h' & Hrun & d' & -> & HI); [done| | |by exists d'].
    + exists d0. rewrite update_same by done. repeat split; [done|].
      intros j. by rewrite bool_decide_eq_false_2 by lia.
    + intros i hh Hi (d & -> & Hlen & Hd & Hbits).
      rewrite (Hbody i d Hi Hlen Hd Hbits). eexists. split; [done|].
      exists (write_bit d i (g i)). repeat split.
      * by rewrite length_write_bit.
      * by apply bytes_ok_write_bit.
      * intros j. rewrite bit_of_write_bit by lia. rewrite Hbits.
        repeat case_bool_decide; try lia; by subst.
  - exists d0. rewrite for_up_nop by lia. rewrite update_same by done.
    repeat split; [done|]. intros j. by rewrite bool_decide_eq_false_2 by lia.
Qed.

(** The same for a descending loop from [a] down to [e]: at step [i] the
    bits in [(i, a]] have been written. *)
Lemma write_loop_down (g : Z → bool) a e (body : Z → M unit) :
  0 ≤ e → a < 8 * Z.of_nat (length d0) →
  (∀ i d, e ≤ i ≤ a → length d = length d0 → bytes_ok d →
     (∀ j, bit_of d j = if bool_decide (i < j ≤ a) then g j else bit_of d0 j) →
     body i (update h p (mkBitArray sz d)) =
       Ok tt (update h p (mkBitArray sz (write_bit d i (g i))))) →
  ∃ d', for_down a e body h = Ok tt (update h p (mkBitArray sz d'))
        ∧ length d' = length d0 ∧ bytes_ok d'
        ∧ ∀ j, bit_of d' j = if bool_decide (e ≤ j ≤ a) then g j else bit_of d0 j.
Proof.
  intros He Ha Hbody. destruct (decide (e - 1 ≤ a)) as [Hae|Hae].
  - set (I := fun (i : Z) (hh : heap) => ∃ d,
      hh = update h p (mkBitArray sz d) ∧ length d = length d0 ∧ bytes_ok d
      ∧ ∀ j, bit_of d j = if bool_decide (i < j ≤ a) then g j else bit_of d0 j).
    destruct (for_down_inv I a e body h) as (h' & Hrun & d' & -> & Hl & Hb & HI); [done| | |].
    + exists d0. rewrite update_same by done. repeat split; [done|].
      intros j. by rewrite bool_decide_eq_false_2 by lia.
    + intros i hh Hi (d & -> & Hlen & Hd & Hbits).
      rewrite (Hbody i d Hi Hlen Hd Hbits). eexists. split; [done|].
      exists (write_bit d i (g i)). repeat split.
      * by rewrite length_write_bit.
      * by apply bytes_ok_write_bit.
      * intros j. rewrite bit_of_write_bit by lia. rewrite Hbits.
        repeat case_bool_decide; try lia; by subst.
    + exists d'. repeat split; try done. intros j. rewrite HI.
      repeat case_bool_decide; try lia; done.
  - exists d0. rewrite for_down_nop by lia. rewrite update_same by done.
    repeat split; [done|]. intros j. by rewrite bool_decide_eq_false_2 by lia.
Qed.

(** An ascending loop whose step [i] stores the byte [G i] at index [i]. *)
Lemma byte_loop_up (G : Z → Z) a e (body : Z → M unit) :
  0 ≤ a → e ≤ Z.of_nat (length d0) →
  (∀ k, a ≤ k < e → byte_ok (G k)) →
  (∀ i d, a ≤ i < e → length d = length d0 →
     (∀ k, index d k = if bool_decide (a ≤ k < i) then Some (G k) else index d0 k) →
     body i (update h p (mkBitArray sz d)) =
       Ok tt (update h p (mkBitArray sz (<[Z.to_nat i := G i]> d)))) →
  ∃ d', for_up a e body h = Ok tt (update h p (mkBitArray sz d'))
        ∧ length d' = length d0 ∧ bytes_ok d'
        ∧ ∀ k, index d' k = if bool_decide (a ≤ k < e) then Some (G k) else index d0 k.
Proof.
  intros Ha He HG Hbody.
  assert (Hok : ∀ d' e', e' ≤ e → length d' = length d0 →
    (∀ k, index d' k = if bool_decide (a ≤ k < e') then Some (G k) else index d0 k) →
    bytes_ok d').
  { intros d' e' He' Hlen Hidx. apply Forall_lookup_2. intros n x Hx.
    assert (Hix : index d' (Z.of_nat n) = Some x).
    { apply index_Some. rewrite Nat2Z.id. split; [lia|done]. }
    rewrite Hidx in Hix. case_bool_decide.
    - inversion Hix; subst. apply HG. lia.
    - by eapply index_bytes_ok. }
  destruct (decide (a ≤ e)) as [Hae|Hae].
  - set (I := fun (i : Z) (hh : heap) => ∃ d,
      hh = update h p (mkBitArray sz d) ∧ length d = length d0
      ∧ ∀ k, index d k = if bool_decide (a ≤ k < i) then Some (G k) else index d0 k).
    destruct (for_up_inv I a e body h) as (h' & Hrun & d' & -> & Hl & HI); [done| | |].
    + exists d0. rewrite update_same by done. repeat split.
      intros j. by rewrite bool_decide_eq_false_2 by lia.
    + intros i hh Hi (d & -> & Hlen & Hidx).
      rewrite (Hbody i d Hi Hlen Hidx). eexists. split; [done|].
      exists (<[Z.to_nat i := G i]> d). repeat split.
      * by rewrite length_insert.
      * intros k. rewrite index_insert by lia. rewrite Hidx.
        repeat case_bool_decide; try lia; by subst.
    + exists d'. repeat split; try done. by apply (Hok d' e).
  - exists d0. rewrite for_up_nop by lia. rewrite update_same by done.
    repeat split; [done|]. intros j. by rewrite bool_decide_eq_false_2 by lia.
Qed.

End receiver_loops.

(** ** The binary operators *)

Lemma write_keep h p sz d i :
  deref h p = Some (mkBitArray sz d) → 0 ≤ i < 8 * Z.of_nat (length d) →
  Ok tt h = Ok tt (update h p (mkBitArray sz (write_bit d i (bit_of d i)))).
Proof.
  intros Hp Hi. rewrite write_bit_same by done. by rewrite update_same.
Qed.

Lemma And_tail ba other w sz :
  tail_spec ba other w sz andb
    (fun i => b ← get other i; if negb b then unset ba i else ret tt).
Proof.
  intros i hh d Hba Hi Hget. rewrite (bind_ok _ _ _ _ _ Hget).
  by rewrite (unset_if_ok _ _ _ _ _ Hba Hi).
Qed.

Lemma Or_tail ba other w sz :
  tail_spec ba other w sz orb
    (fun i => b ← get other i; if b then set ba i else ret tt).
Proof.
  intros i hh d Hba Hi Hget. rewrite (bind_ok _ _ _ _ _ Hget).
  by rewrite (set_if_or_ok _ _ _ _ _ Hba Hi).
Qed.

Lemma Xor_tail ba other w sz :
  tail_spec ba other w sz xorb
    (fun i =>
       b1 ← get ba i;
       b2 ← get other i;
       let b := (b1 || b2) && negb (b1 && b2) in
       if b && negb b1 then set ba i
       else if negb b && b1 then unset ba i
       else ret tt).
Proof.
  intros i hh d Hba Hi Hget.
  rewrite (bind_ok _ _ _ _ _ (get_ok _ _ _ _ Hba Hi)).
  rewrite (bind_ok _ _ _ _ _ Hget).
  change (bit {| size := sz; data := d |} i) with (bit_of d i).
  destruct (bit_of d i) eqn:Hb1, (bit w i) eqn:Hb2; simpl.
  - by rewrite (unset_ok _ _ _ _ Hba Hi).
  - unfold ret. rewrite <- Hb1. by apply write_keep.
  - by rewrite (set_ok _ _ _ _ Hba Hi).
  - unfold ret. rewrite <- Hb1. by apply write_keep.
Qed.

Lemma AndNot_tail ba other w sz :
  tail_spec ba other w sz (fun b1 b2 => b1 && negb b2)
    (fun i =>
       b1 ← get ba i;
       b2 ← (if b1 then get other i else ret false);
       if b1 && b2 then unset ba i else ret tt).
Proof.
  intros i hh d Hba Hi Hget.
  rewrite (bind_ok _ _ _ _ _ (get_ok _ _ _ _ Hba Hi)).
  change (bit {| size := sz; data := d |} i) with (bit_of d i).
  destruct (bit_of d i) eqn:Hb1.
  - rewrite (bind_ok _ _ _ _ _ Hget). destruct (bit w i); simpl.
    + by rewrite (unset_ok _ _ _ _ Hba Hi).
    + unfold ret. rewrite <- Hb1. by apply write_keep.
  - unfold ret at 1. unfold bind at 1. simpl.
    unfold ret. rewrite <- Hb1. by apply write_keep.
Qed.

Lemma byte_at_index d k :
  0 ≤ k < Z.of_nat (length d) → index d k = Some (byte_at d k).
Proof.
  intros Hk. unfold byte_at. by destruct (index_lt d k Hk) as [x ->].
Qed.

Lemma bit_of_byte_at d j :
  0 ≤ j < 8 * Z.of_nat (length d) →
  bit_of d j = Z.testbit (byte_at d (j `div` 8)) (j `mod` 8).
Proof.
  intros Hj. unfold bit_of. by rewrite byte_at_index by lia.
Qed.

Lemma checkSize_ok h ba other v w :
  deref h ba = Some v → deref h other = Some w → size v = size w →
  checkSize ba other h = Ok tt h.
Proof.
  intros Hv Hw Hs. unfold checkSize.
  rewrite (bind_ok _ _ _ _ _ (get_size_ok _ _ _ Hv)).
  rewrite (bind_ok _ _ _ _ _ (get_size_ok _ _ _ Hw)).
  by rewrite bool_decide_eq_false_2 by (intros ?; done).
Qed.

Lemma checkSize_panic h ba other v w :
  deref h ba = Some v → deref h other = Some w → size v ≠ size w →
  checkSize ba other h = Panicked (PanicString "bit array sizes must be equal") h.
Proof.
  intros Hv Hw Hs. unfold checkSize.
  rewrite (bind_ok _ _ _ _ _ (get_size_ok _ _ _ Hv)).
  rewrite (bind_ok _ _ _ _ _ (get_size_ok _ _ _ Hw)).
  by rewrite bool_decide_eq_true_2.
Qed.

Lemma bytewise_panic h ba other v w op tail :
  deref h ba = Some v → deref h other = Some w → size v ≠ size w →
  bytewise ba other op tail h = Panicked (PanicString "bit array sizes must be equal") h.
Proof.
  intros Hv Hw Hs. unfold bytewise.
  by rewrite (bind_panicked _ _ _ _ _ (checkSize_panic _ _ _ _ _ Hv Hw Hs)).
Qed.

Section bytewise_ok.
Variables (h : heap) (ba other : ptr) (sz : Z) (d0 : list Z) (w : BitArray).
Hypothesis Hv : deref h ba = Some (mkBitArray sz d0).
Hypothesis Hw : deref h other = Some w.
Hypothesis Hwfv : wf (mkBitArray sz d0).
Hypothesis Hwfw : wf w.
Hypothesis Hsz : sz = size w.

Let L : Z := Z.of_nat (length d0).

Lemma bytewise_len : Z.of_nat (length (data w)) = L ∧ 1 ≤ L ∧ L = nbytes sz.
Proof.
  pose proof (wf_len _ Hwfv) as H1. pose proof (wf_len _ Hwfw) as H2.
  pose proof (wf_len_pos _ Hwfv) as H3. simpl in *. subst L. rewrite <- Hsz in H2. lia.
Qed.

(** Reading the argument while the receiver is being rewritten: also
    when both are the same object, a byte or bit of the receiver that
    still has its initial value is what the argument had there. *)
Lemma read_other_byte d k :
  length d = length d0 → 0 ≤ k < L → index d k = index d0 k →
  data_at other k (update h ba (mkBitArray sz d))
    = Ok (byte_at (data w) k) (update h ba (mkBitArray sz d)).
Proof.
  intros Hlen Hk Hidx. destruct bytewise_len as (Hlw & _ & _).
  destruct (decide (ba = other)) as [<-|Hne].
  - assert (w = mkBitArray sz d0) as -> by congruence.
    eapply data_at_ok; [by eapply deref_update_eq|]. simpl.
    rewrite Hidx. by apply byte_at_index.
  - eapply data_at_ok; [by rewrite deref_update_ne|].
    apply byte_at_index. lia.
Qed.

Lemma read_other_bit d i :
  length d = length d0 → 0 ≤ i < 8 * L → bit_of d i = bit_of d0 i →
  get other i (update h ba (mkBitArray sz d))
    = Ok (bit w i) (update h ba (mkBitArray sz d)).
Proof.
  intros Hlen Hi Hbit. destruct bytewise_len as (Hlw & _ & _).
  destruct (decide (ba = other)) as [<-|Hne].
  - assert (w = mkBitArray sz d0) as -> by congruence.
    rewrite (get_ok _ _ (mkBitArray sz d)); [|by eapply deref_update_eq|simpl; lia].
    unfold bit. simpl. by rewrite Hbit.
  - apply get_ok; [by rewrite deref_update_ne|lia].
Qed.

Variables (op : Z → Z → Z) (F : bool → bool → bool) (tail : Z → M unit).
Hypothesis Hop_ok : ∀ x y, byte_ok x → byte_ok y → byte_ok (op x y).
Hypothesis Hop_bits : ∀ x y k, Z.testbit (op x y) k = F (Z.testbit x k) (Z.testbit y k).
Hypothesis Htail : tail_spec ba other w sz F tail.

Let G (k : Z) : Z := op (byte_at d0 k) (byte_at (data w) k).

Lemma G_ok k : 0 ≤ k < L → byte_ok (G k).
Proof.
  intros Hk. destruct bytewise_len as (Hlw & _ & _). apply Hop_ok.
  - eapply index_bytes_ok; [apply (wf_bytes _ Hwfv)|]. simpl. apply byte_at_index. lia.
  - eapply index_bytes_ok; [apply (wf_bytes _ Hwfw)|]. apply byte_at_index. lia.
Qed.

Lemma G_bits j :
  0 ≤ j < 8 * L →
  Z.testbit (G (j `div` 8)) (j `mod` 8) = F (bit_of d0 j) (bit w j).
Proof.
  intros Hj. destruct bytewise_len as (Hlw & _ & _). unfold G.
  rewrite Hop_bits. unfold bit. by rewrite !bit_of_byte_at by lia.
Qed.

(** One step of the byte loop, also used for the last byte. *)
Lemma bytewise_step d i :
  length d = length d0 → 0 ≤ i < L → index d i = index d0 i →
  (x ← data_at ba i; y ← data_at other i; data_set ba i (op x y))
    (update h ba (mkBitArray sz d))
  = Ok tt (update h ba (mkBitArray sz (<[Z.to_nat i := G i]> d))).
Proof.
  intros Hlen Hi Hidx.
  assert (Hba : deref (update h ba (mkBitArray sz d)) ba = Some (mkBitArray sz d))
    by (by eapply deref_update_eq).
  rewrite (bind_ok _ _ _ (byte_at d0 i) _ (data_at_ok _ _ _ _ _ Hba
    ltac:(simpl; rewrite Hidx; apply byte_at_index; lia))).
  rewrite (bind_ok _ _ _ _ _ (read_other_byte d i Hlen Hi Hidx)).
  rewrite (data_set_ok _ _ _ _ _ Hba ltac:(simpl; rewrite Hlen; exact Hi)).
  by rewrite update_update.
Qed.

Lemma bytewise_ok :
  ∃ d', bytewise ba other op tail h = Ok tt (update h ba (mkBitArray sz d'))
        ∧ wf (mkBitArray sz d')
        ∧ ∀ j, 0 ≤ j < sz → bit_of d' j = F (bit_of d0 j) (bit w j).
Proof.
  destruct bytewise_len as (Hlw & HL1 & HLn).
  pose proof (wf_size _ Hwfv) as Hsize. simpl in Hsize.
  pose proof (wf_bytes _ Hwfv) as Hd0. simpl in Hd0.
  assert (HLmax : L ≤ max_int) by (rewrite HLn; unfold nbytes; int_lia).
  unfold bytewise.
  rewrite (bind_ok _ _ _ _ _ (checkSize_ok _ _ _ _ _ Hv Hw Hsz)).
  rewrite (bind_ok _ _ _ _ _ (len_data_ok _ _ _ Hv)). simpl data. fold L.
  rewrite (sub_id L 1) by int_lia.
  destruct (byte_loop_up h ba sz d0 Hv Hd0 G 0 (L - 1)
    (fun i => x ← data_at ba i; y ← data_at other i; data_set ba i (op x y)))
    as (d1 & Hrun1 & Hlen1 & Hd1 & Hidx1); [lia|fold L; lia| | |].
  { intros k Hk. apply G_ok. lia. }
  { intros i d Hi Hlen Hidx. apply bytewise_step; [done|lia|].
    rewrite Hidx. by rewrite bool_decide_eq_false_2 by lia. }
  rewrite (bind_ok _ _ _ _ _ Hrun1).
  assert (Hba1 : deref (update h ba (mkBitArray sz d1)) ba = Some (mkBitArray sz d1))
    by (by eapply deref_update_eq).
  rewrite (bind_ok _ _ _ _ _ (get_size_ok _ _ _ Hba1)). cbn [size].
  assert (Hlast : index d1 (L - 1) = index d0 (L - 1)).
  { rewrite Hidx1. by rewrite bool_decide_eq_false_2 by lia. }
  assert (Hlow : ∀ j, 0 ≤ j < 8 * (L - 1) → bit_of d1 j = F (bit_of d0 j) (bit w j)).
  { intros j Hj. rewrite <- G_bits by lia. unfold bit_of at 1. rewrite Hidx1.
    by rewrite bool_decide_eq_true_2 by lia. }
  assert (Hhigh : ∀ j, 8 * (L - 1) ≤ j → bit_of d1 j = bit_of d0 j).
  { intros j Hj. unfold bit_of. rewrite Hidx1.
    by rewrite bool_decide_eq_false_2 by lia. }
  case_bool_decide as Hrem.
  - (* the size is a multiple of 8: the last byte is combined as a whole *)
    assert (Hsz8 : sz = 8 * L) by (rewrite HLn; unfold nbytes, bitsN in *; lia).
    rewrite (bytewise_step d1 (L - 1) Hlen1 ltac:(lia) Hlast).
    eexists. split; [done|].
    assert (Hbits : ∀ j, 0 ≤ j < sz →
      bit_of (<[Z.to_nat (L - 1) := G (L - 1)]> d1) j = F (bit_of d0 j) (bit w j)).
    { intros j Hj. rewrite bit_of_insert by lia. case_bool_decide as Hdiv.
      - rewrite <- Hdiv. apply G_bits. lia.
      - apply Hlow. lia. }
    split; [|done]. split; simpl.
    + done.
    + rewrite length_insert. lia.
    + apply bytes_ok_insert; [done|]. apply G_ok. lia.
    + intros j Hj. apply bit_of_outside. simpl. rewrite length_insert. lia.
  - (* a partial last byte: its bits below the size are combined one by one *)
    assert (Hlo : sz /i bitsN *i bitsN = 8 * (L - 1)).
    { unfold bitsN in *. rewrite mul_id by int_lia. rewrite HLn. unfold nbytes. lia. }
    rewrite Hlo.
    assert (Hcov : 8 * (L - 1) < sz < 8 * L).
    { rewrite HLn. unfold nbytes, bitsN in *. lia. }
    destruct (write_loop_up (update h ba (mkBitArray sz d1)) ba sz d1 Hba1 Hd1
      (fun j => F (bit_of d0 j) (bit w j)) (8 * (L - 1)) sz tail)
      as (d2 & Hrun2 & Hlen2 & Hd2 & Hbits2); [lia|lia| |].
    { intros i d Hi Hlen Hd Hbits. rewrite !update_update.
      assert (Hcur : bit_of d i = bit_of d0 i).
      { rewrite Hbits. rewrite bool_decide_eq_false_2 by lia. apply Hhigh. lia. }
      assert (Hbad : deref (update h ba (mkBitArray sz d)) ba = Some (mkBitArray sz d))
        by (by eapply deref_update_eq).
      rewrite (Htail i _ d Hbad ltac:(lia)).
      - by rewrite update_update, Hcur.
      - apply read_other_bit; [lia|lia|done]. }
    rewrite Hrun2, update_update. exists d2. split; [done|].
    assert (Hbits : ∀ j, 0 ≤ j < sz → bit_of d2 j = F (bit_of d0 j) (bit w j)).
    { intros j Hj. rewrite Hbits2. case_bool_decide; [done|]. apply Hlow. lia. }
    split; [|done]. split; simpl.
    + done.
    + lia.
    + done.
    + intros j Hj. unfold bit. simpl.
      rewrite Hbits2. rewrite bool_decide_eq_false_2 by lia.
      rewrite Hhigh by lia. apply (wf_pad _ Hwfv j Hj).
Qed.

End bytewise_ok.

Lemma binop_ok (opname : ptr → ptr → M unit) op F tail h ba other v w :
  opname = (fun ba other => bytewise ba other op (tail ba other)) →
  (∀ x y, byte_ok x → byte_ok y → byte_ok (op x y)) →
  (∀ x y k, Z.testbit (op x y) k = F (Z.testbit x k) (Z.testbit y k)) →
  (∀ sz, tail_spec ba other w sz F (tail ba other)) →
  deref h ba = Some v → deref h other = Some w → wf v → wf w → size v = size w →
  ∃ v', opname ba other h = Ok tt (update h ba v')
        ∧ size v' = size v ∧ wf v'
        ∧ ∀ j, 0 ≤ j < size v → bit v' j = F (bit v j) (bit w j).
Proof.
  intros -> Hok Hbits Htail Hv Hw Hwfv Hwfw Hsz. destruct v as [sz d0]. simpl in Hsz.
  destruct (bytewise_ok h ba other sz d0 w Hv Hw Hwfv Hwfw Hsz op F (tail ba other)
    Hok Hbits (Htail sz)) as (d' & Hrun & Hwf' & Hb).
  exists (mkBitArray sz d'). split; [done|]. split; [done|]. split; [done|]. exact Hb.
Qed.

Lemma And_ok h ba other v w :
  deref h ba = Some v → deref h other = Some w → wf v → wf w → size v = size w →
  ∃ v', And ba other h = Ok tt (update h ba v')
        ∧ size v' = size v ∧ wf v'
        ∧ ∀ j, 0 ≤ j < size v → bit v' j = bit v j && bit w j.
Proof.
  apply (binop_ok And Z.land andb
    (fun ba other i => b ← get other i; if negb b then unset ba i else ret tt)).
  - done.
  - apply byte_ok_land.
  - apply Z.land_spec.
  - intros sz. apply And_tail.
Qed.

Lemma Or_ok h ba other v w :
  deref h ba = Some v → deref h other = Some w → wf v → wf w → size v = size w →
  ∃ v', Or ba other h = Ok tt (update h ba v')
        ∧ size v' = size v ∧ wf v'
        ∧ ∀ j, 0 ≤ j < size v → bit v' j = bit v j || bit w j.
Proof.
  apply (binop_ok Or Z.lor orb
    (fun ba other i => b ← get other i; if b then set ba i else ret tt)).
  - done.
  - apply byte_ok_lor.
  - apply Z.lor_spec.
  - intros sz. apply Or_tail.
Qed.

Lemma Xor_ok h ba other v w :
  deref h ba = Some v → deref h other = Some w → wf v → wf w → size v = size w →
  ∃ v', Xor ba other h = Ok tt (update h ba v')
        ∧ size v' = size v ∧ wf v'
        ∧ ∀ j, 0 ≤ j < size v → bit v' j = xorb (bit v j) (bit w j).
Proof.
  apply (binop_ok Xor Z.lxor xorb
    (fun ba other i =>
       b1 ← get ba i;
       b2 ← get other i;
       let b := (b1 || b2) && negb (b1 && b2) in
       if b && negb b1 then set ba i
       else if negb b && b1 then unset ba i
       else ret tt)).
  - done.
  - apply byte_ok_lxor.
  - apply Z.lxor_spec.
  - intros sz. apply Xor_tail.
Qed.

Lemma AndNot_ok h ba other v w :
  deref h ba = Some v → deref h other = Some w → wf v → wf w → size v = size w →
  ∃ v', AndNot ba other h = Ok tt (update h ba v')
        ∧ size v' = size v ∧ wf v'
        ∧ ∀ j, 0 ≤ j < size v → bit v' j = bit v j && negb (bit w j).
Proof.
  apply (binop_ok AndNot Z.ldiff (fun b1 b2 => b1 && negb b2)
    (fun ba other i =>
       b1 ← get ba i;
       b2 ← (if b1 then get other i else ret false);
       if b1 && b2 then unset ba i else ret tt)).
  - done.
  - intros x y Hx _. by apply byte_ok_ldiff.
  - apply Z.ldiff_spec.
  - intros sz. apply AndNot_tail.
Qed.

(** ** [Not], [Clear], [SetAll] *)

Lemma flip_ok h p sz d i :
  deref h p = Some (mkBitArray sz d) → 0 ≤ i < 8 * Z.of_nat (length d) →
  (b ← get p i; if b then unset p i else set p i) h
  = Ok tt (update h p (mkBitArray sz (write_bit d i (negb (bit_of d i))))).
Proof.
  intros Hp Hi. rewrite (bind_ok _ _ _ _ _ (get_ok _ _ _ _ Hp Hi)).
  change (bit {| size := sz; data := d |} i) with (bit_of d i).
  destruct (bit_of d i); simpl.
  - by rewrite (unset_ok _ _ _ _ Hp Hi).
  - by rewrite (set_ok _ _ _ _ Hp Hi).
Qed.

Lemma Not_ok h ba v :
  deref h ba = Some v → wf v →
  ∃ v', Not ba h = Ok tt (update h ba v')
        ∧ size v' = size v ∧ wf v'
        ∧ ∀ j, 0 ≤ j < size v → bit v' j = negb (bit v j).
Proof.
  intros Hv Hwf. destruct v as [sz d0].
  pose proof (wf_size _ Hwf) as Hsize. pose proof (wf_bytes _ Hwf) as Hd0.
  pose proof (wf_len _ Hwf) as HLn. pose proof (wf_len_pos _ Hwf) as HL1.
  simpl in Hsize, Hd0, HLn, HL1. remember (Z.of_nat (length d0)) as L eqn:HLdef.
  unfold Not.
  rewrite (bind_ok _ _ _ _ _ (len_data_ok _ _ _ Hv)). simpl data. rewrite <- HLdef.
  rewrite (sub_id L 1) by (unfold nbytes in HLn; int_lia).
  set (G := fun k => not8 (byte_at d0 k)).
  assert (HG : ∀ k, 0 ≤ k < L → byte_ok (G k)).
  { intros k Hk. apply byte_ok_not8. eapply index_bytes_ok; [done|].
    apply byte_at_index. lia. }
  assert (HGbits : ∀ j, 0 ≤ j < 8 * L →
    Z.testbit (G (j `div` 8)) (j `mod` 8) = negb (bit_of d0 j)).
  { intros j Hj. unfold G. rewrite testbit_not8 by lia.
    by rewrite bit_of_byte_at by lia. }
  assert (Hstep : ∀ d i, length d = length d0 → 0 ≤ i < L → index d i = index d0 i →
    (x ← data_at ba i; data_set ba i (not8 x)) (update h ba (mkBitArray sz d))
    = Ok tt (update h ba (mkBitArray sz (<[Z.to_nat i := G i]> d)))).
  { intros d i Hlen Hi Hidx.
    assert (Hba : deref (update h ba (mkBitArray sz d)) ba = Some (mkBitArray sz d))
      by (by eapply deref_update_eq).
    rewrite (bind_ok _ _ _ (byte_at d0 i) _ (data_at_ok _ _ _ _ _ Hba
      ltac:(simpl; rewrite Hidx; apply byte_at_index; lia))).
    rewrite (data_set_ok _ _ _ i _ Hba ltac:(simpl; lia)).
    by rewrite update_update. }
  destruct (byte_loop_up h ba sz d0 Hv Hd0 G 0 (L - 1)
    (fun i => x ← data_at ba i; data_set ba i (not8 x)))
    as (d1 & Hrun1 & Hlen1 & Hd1 & Hidx1); [lia|lia| | |].
  { intros k Hk. apply HG. lia. }
  { intros i d Hi Hlen Hidx. apply Hstep; [done|lia|].
    rewrite Hidx. by rewrite bool_decide_eq_false_2 by lia. }
  rewrite (bind_ok _ _ _ _ _ Hrun1).
  assert (Hba1 : deref (update h ba (mkBitArray sz d1)) ba = Some (mkBitArray sz d1))
    by (by eapply deref_update_eq).
  rewrite (bind_ok _ _ _ _ _ (get_size_ok _ _ _ Hba1)). cbn [size].
  assert (Hlast : index d1 (L - 1) = index d0 (L - 1)).
  { rewrite Hidx1. by rewrite bool_decide_eq_false_2 by lia. }
  assert (Hlow : ∀ j, 0 ≤ j < 8 * (L - 1) → bit_of d1 j = negb (bit_of d0 j)).
  { intros j Hj. rewrite <- HGbits by lia. unfold bit_of at 1. rewrite Hidx1.
    by rewrite bool_decide_eq_true_2 by lia. }
  assert (Hhigh : ∀ j, 8 * (L - 1) ≤ j → bit_of d1 j = bit_of d0 j).
  { intros j Hj. unfold bit_of. rewrite Hidx1.
    by rewrite bool_decide_eq_false_2 by lia. }
  case_bool_decide as Hrem.
  - assert (Hsz8 : sz = 8 * L) by (rewrite HLn; unfold nbytes, bitsN in *; lia).
    rewrite (Hstep d1 (L - 1) Hlen1 ltac:(lia) Hlast).
    eexists. split; [done|]. split; [done|].
    assert (Hbits : ∀ j, 0 ≤ j < sz →
      bit_of (<[Z.to_nat (L - 1) := G (L - 1)]> d1) j = negb (bit_of d0 j)).
    { intros j Hj. rewrite bit_of_insert by lia. case_bool_decide as Hdiv.
      - rewrite <- Hdiv. apply HGbits. lia.
      - apply Hlow. lia. }
    split; [|done]. split; simpl.
    + done.
    + rewrite length_insert. lia.
    + apply bytes_ok_insert; [done|]. apply HG. lia.
    + intros j Hj. apply bit_of_outside. simpl. rewrite length_insert. lia.
  - assert (Hlo : sz /i bitsN *i bitsN = 8 * (L - 1)).
    { unfold bitsN in *. rewrite mul_id by int_lia. rewrite HLn. unfold nbytes. lia. }
    rewrite Hlo.
    assert (Hcov : 8 * (L - 1) < sz < 8 * L).
    { rewrite HLn. unfold nbytes, bitsN in *. lia. }
    destruct (write_loop_up (update h ba (mkBitArray sz d1)) ba sz d1 Hba1 Hd1
      (fun j => negb (bit_of d0 j)) (8 * (L - 1)) sz
      (fun i => b ← get ba i; if b then unset ba i else set ba i))
      as (d2 & Hrun2 & Hlen2 & Hd2 & Hbits2); [lia|lia| |].
    { intros i d Hi Hlen Hd Hbits. rewrite !update_update.
      assert (Hcur : bit_of d i = bit_of d0 i).
      { rewrite Hbits. rewrite bool_decide_eq_false_2 by lia. apply Hhigh. lia. }
      assert (Hbad : deref (update h ba (mkBitArray sz d)) ba = Some (mkBitArray sz d))
        by (by eapply deref_update_eq).
      rewrite (flip_ok _ _ _ _ i Hbad ltac:(lia)).
      by rewrite update_update, Hcur. }
    rewrite Hrun2, update_update. exists (mkBitArray sz d2).
    split; [done|]. split; [done|].
    assert (Hbits : ∀ j, 0 ≤ j < sz → bit_of d2 j = negb (bit_of d0 j)).
    { intros j Hj. rewrite Hbits2. case_bool_decide; [done|]. apply Hlow. lia. }
    split; [|done]. split; simpl.
    + done.
    + lia.
    + done.
    + intros j Hj. unfold bit. simpl.
      rewrite Hbits2. rewrite bool_decide_eq_false_2 by lia.
      rewrite Hhigh by lia. apply (wf_pad _ Hwf j Hj).
Qed.

Lemma Clear_ok h ba v :
  deref h ba = Some v → wf v →
  Clear ba h = Ok tt (update h ba (zero_array (size v))).
Proof.
  intros Hv Hwf. destruct v as [sz d0].
  pose proof (wf_size _ Hwf) as Hsize. pose proof (wf_bytes _ Hwf) as Hd0.
  pose proof (wf_len _ Hwf) as HLn. simpl in Hsize, Hd0, HLn.
  unfold Clear.
  rewrite (bind_ok _ _ _ _ _ (len_data_ok _ _ _ Hv)). simpl data.
  destruct (byte_loop_up h ba sz d0 Hv Hd0 (fun _ => 0) 0 (Z.of_nat (length d0))
    (fun i => data_set ba i 0)) as (d1 & Hrun1 & Hlen1 & Hd1 & Hidx1); [lia|lia| | |].
  { intros k Hk. unfold byte_ok. lia. }
  { intros i d Hi Hlen Hidx.
    assert (Hba : deref (update h ba (mkBitArray sz d)) ba = Some (mkBitArray sz d))
      by (by eapply deref_update_eq).
    rewrite (data_set_ok _ _ _ i _ Hba ltac:(simpl; lia)).
    by rewrite update_update. }
  rewrite Hrun1. do 2 f_equal. simpl.
  apply wf_ext.
  - split; simpl; [done|lia|done|].
    intros j Hj. unfold bit, bit_of. simpl. rewrite Hidx1.
    case_bool_decide; [apply Z.bits_0|]. rewrite index_None; [done|lia].
  - by apply wf_zero_array.
  - done.
  - intros j Hj. simpl in Hj.
    rewrite bit_zero_array. unfold bit, bit_of. simpl. rewrite Hidx1.
    rewrite bool_decide_eq_true_2; [apply Z.bits_0|]. unfold nbytes in HLn. lia.
Qed.

Lemma testbit_last_mask sz k :
  0 ≤ k < 8 →
  Z.testbit (last_mask sz) k = bool_decide (sz `mod` 8 = 0 ∨ k < sz `mod` 8).
Proof.
  intros Hk. unfold last_mask. case_bool_decide as Hrem.
  - rewrite testbit_255. rewrite !bool_decide_eq_true_2; [done|by left|done].
  - replace (2 ^ (sz `mod` 8) - 1) with (Z.ones (sz `mod` 8))
      by (rewrite Z.ones_equiv; lia).
    destruct (decide (k < sz `mod` 8)).
    + rewrite bool_decide_eq_true_2 by (by right). apply Z.ones_spec_low. lia.
    + rewrite bool_decide_eq_false_2 by lia. apply Z.ones_spec_high. lia.
Qed.

Lemma byte_ok_last_mask sz : byte_ok (last_mask sz).
Proof.
  unfold last_mask, byte_ok. case_bool_decide; [lia|].
  assert (2 ^ (sz `mod` 8) ≤ 2 ^ 7) by (apply Z.pow_le_mono_r; lia).
  assert (0 < 2 ^ (sz `mod` 8)) by (apply Z.pow_pos_nonneg; lia).
  change (2 ^ 7) with 128 in *. lia.
Qed.

Lemma SetAll_ok h ba v :
  deref h ba = Some v → wf v →
  ∃ v', SetAll ba h = Ok tt (update h ba v')
        ∧ size v' = size v ∧ wf v'
        ∧ (∀ j, 0 ≤ j < size v → bit v' j = true)
        ∧ last (data v') = Some (last_mask (size v)).
Proof.
  intros Hv Hwf. destruct v as [sz d0].
  pose proof (wf_size _ Hwf) as Hsize. pose proof (wf_bytes _ Hwf) as Hd0.
  pose proof (wf_len _ Hwf) as HLn. pose proof (wf_len_pos _ Hwf) as HL1.
  simpl in Hsize, Hd0, HLn, HL1. remember (Z.of_nat (length d0)) as L eqn:HLdef.
  unfold SetAll.
  rewrite (bind_ok _ _ _ _ _ (get_size_ok _ _ _ Hv)).
  rewrite (bind_ok _ _ _ _ _ (len_data_ok _ _ _ Hv)). simpl data. rewrite <- HLdef.
  cbn [size]. rewrite (sub_id L 1) by (unfold nbytes in HLn; int_lia).
  assert (Hfirst :
    (if bool_decide (sz %i bitsN = 0) then data_set ba (L - 1) max_uint8
     else m ← shl8 2 (sz %i bitsN -i 1); data_set ba (L - 1) (wrap8 (m - 1))) h
    = Ok tt (update h ba (mkBitArray sz (<[Z.to_nat (L - 1) := last_mask sz]> d0)))).
  { destruct (quot_rem_8 sz) as [_ ->]; [lia|]. unfold last_mask.
    case_bool_decide as Hrem.
    - by rewrite (data_set_ok _ _ _ (L - 1) _ Hv ltac:(simpl; lia)).
    - rewrite sub_id by int_lia.
      rewrite (bind_ok _ _ _ _ _ (shl8_ok 2 (sz `mod` 8 - 1) h ltac:(lia))).
      rewrite (data_set_ok _ _ _ (L - 1) _ Hv ltac:(simpl; lia)). simpl.
      do 4 f_equal. rewrite Z.shiftl_mul_pow2 by lia.
      replace (2 * 2 ^ (sz `mod` 8 - 1)) with (2 ^ (sz `mod` 8)).
      2:{ replace (sz `mod` 8) with (Z.succ (sz `mod` 8 - 1)) at 1 by lia.
          rewrite Z.pow_succ_r; lia. }
      pose proof (byte_ok_last_mask sz) as Hm. unfold last_mask, byte_ok in Hm.
      rewrite bool_decide_eq_false_2 in Hm by done.
      pose proof (byte_ok_pow2 (sz `mod` 8) ltac:(lia)) as [? ?].
      unfold wrap8. rewrite (Z.mod_small (2 ^ (sz `mod` 8))) by lia.
      apply Z.mod_small. lia. }
  rewrite (bind_ok _ _ _ _ _ Hfirst).
  set (d1 := <[Z.to_nat (L - 1) := last_mask sz]> d0).
  assert (Hba1 : deref (update h ba (mkBitArray sz d1)) ba = Some (mkBitArray sz d1))
    by (by eapply deref_update_eq).
  assert (Hd1 : bytes_ok d1) by (apply bytes_ok_insert; [done|apply byte_ok_last_mask]).
  assert (Hlen1 : length d1 = length d0) by apply length_insert.
  destruct (byte_loop_up (update h ba (mkBitArray sz d1)) ba sz d1 Hba1 Hd1
    (fun _ => max_uint8) 0 (L - 1) (fun i => data_set ba i max_uint8))
    as (d2 & Hrun2 & Hlen2 & Hd2 & Hidx2); [lia|lia| | |].
  { intros k Hk. unfold byte_ok, max_uint8. lia. }
  { intros i d Hi Hlen Hidx. rewrite !update_update.
    assert (Hba : deref (update h ba (mkBitArray sz d)) ba = Some (mkBitArray sz d))
      by (by eapply deref_update_eq).
    rewrite (data_set_ok _ _ _ i _ Hba ltac:(simpl; lia)).
    by rewrite update_update. }
  rewrite Hrun2, update_update. exists (mkBitArray sz d2).
  split; [done|]. split; [done|].
  assert (Hlastidx : index d2 (L - 1) = Some (last_mask sz)).
  { rewrite Hidx2. rewrite bool_decide_eq_false_2 by lia.
    unfold d1. rewrite index_insert by lia. by rewrite bool_decide_eq_true_2. }
  assert (Hbits : ∀ j, 0 ≤ j < 8 * L →
    bit_of d2 j = bool_decide (j < sz)).
  { intros j Hj. unfold bit_of. destruct (decide (j `div` 8 = L - 1)) as [Hdiv|Hdiv].
    - rewrite Hdiv, Hlastidx. rewrite testbit_last_mask by lia.
      apply bool_decide_ext. unfold nbytes in HLn. lia.
    - rewrite Hidx2. rewrite bool_decide_eq_true_2 by lia.
      unfold max_uint8. rewrite testbit_255.
      rewrite !bool_decide_eq_true_2; [done| |lia]. unfold nbytes in HLn. lia. }
  split; [|split].
  - split; simpl; [done|lia|done|].
    intros j Hj. unfold bit. simpl. destruct (decide (j < 8 * L)).
    + rewrite Hbits by lia. by rewrite bool_decide_eq_false_2 by lia.
    + apply bit_of_outside. lia.
  - intros j Hj. unfold bit. simpl in *. rewrite Hbits.
    + by rewrite bool_decide_eq_true_2 by lia.
    + unfold nbytes in HLn. lia.
  - simpl. rewrite last_lookup. apply index_Some in Hlastidx as [_ Hl].
    rewrite <- Hl. f_equal. lia.
Qed.

(** ** [moveBits], [Shift], [Rotate] *)

(** [if q.get(src) { p.set(dst) } else { p.unset(dst) }] *)
Lemma copy_bit_ok h p q a sz d src dst :
  deref h q = Some a → deref h p = Some (mkBitArray sz d) →
  0 ≤ src < 8 * Z.of_nat (length (data a)) → 0 ≤ dst < 8 * Z.of_nat (length d) →
  (b ← get q src; if b then set p dst else unset p dst) h
  = Ok tt (update h p (mkBitArray sz (write_bit d dst (bit a src)))).
Proof.
  intros Hq Hp Hsrc Hdst.
  rewrite (bind_ok _ _ _ _ _ (get_ok _ _ _ _ Hq Hsrc)).
  by rewrite (write_ok (bit a src) _ _ _ dst Hp ltac:(simpl; lia)).
Qed.

Lemma moveBits_ok h ba sz d0 n :
  deref h ba = Some (mkBitArray sz d0) → wf (mkBitArray sz d0) →
  - sz < n < sz →
  ∃ d', moveBits ba n h = Ok (moved_range sz n) (update h ba (mkBitArray sz d'))
        ∧ length d' = length d0 ∧ bytes_ok d'
        ∧ ∀ j, bit_of d' j = if bool_decide (moved sz n j) then bit_of d0 (j - n)
                             else bit_of d0 j.
Proof.
  intros Hv Hwf Hn.
  pose proof (wf_size _ Hwf) as Hsize. pose proof (wf_bytes _ Hwf) as Hd0.
  pose proof (wf_cover _ Hwf) as Hcov. simpl in Hsize, Hd0, Hcov.
  unfold moveBits, moved_range. case_bool_decide as H0; [|case_bool_decide as Hpos].
  - subst n. exists d0. rewrite (update_same _ _ _ Hv). repeat split; try done.
    intros j. destruct (bool_decide _); [f_equal; lia|done].
  - rewrite (bind_ok _ _ _ _ _ (get_size_ok _ _ _ Hv)). cbn [size].
    rewrite (sub_id sz 1) by int_lia.
    destruct (write_loop_down h ba sz d0 Hv Hd0 (fun j => bit_of d0 (j - n)) (sz - 1) n
      (fun i => b ← get ba (i -i n); if b then set ba i else unset ba i))
      as (d' & Hrun & Hlen & Hd' & Hbits); [lia|lia| |].
    { intros i d Hi Hlen Hd Hbits. rewrite sub_id by int_lia.
      assert (Hba : deref (update h ba (mkBitArray sz d)) ba = Some (mkBitArray sz d))
        by (by eapply deref_update_eq).
      rewrite (copy_bit_ok _ ba ba _ sz d (i - n) i Hba Hba
        ltac:(simpl; lia) ltac:(lia)).
      rewrite update_update. unfold bit. simpl. rewrite Hbits.
      by rewrite bool_decide_eq_false_2 by lia. }
    rewrite (bind_ok _ _ _ _ _ Hrun). exists d'. repeat split; try done.
    intros j. rewrite Hbits. unfold moved.
    repeat case_bool_decide; try lia; done.
  - assert (Hneg : neg n = - n) by (apply neg_id; int_lia). rewrite Hneg.
    rewrite (bind_ok _ _ _ _ _ (get_size_ok _ _ _ Hv)). cbn [size].
    rewrite (sub_id sz (- n)) by int_lia.
    replace (sz - - n) with (sz + n) by lia.
    destruct (write_loop_up h ba sz d0 Hv Hd0 (fun j => bit_of d0 (j - n)) 0 (sz + n)
      (fun i => b ← get ba (i +i - n); if b then set ba i else unset ba i))
      as (d' & Hrun & Hlen & Hd' & Hbits); [lia|lia| |].
    { intros i d Hi Hlen Hd Hbits. rewrite add_id by int_lia.
      assert (Hba : deref (update h ba (mkBitArray sz d)) ba = Some (mkBitArray sz d))
        by (by eapply deref_update_eq).
      rewrite (copy_bit_ok _ ba ba _ sz d (i + - n) i Hba Hba
        ltac:(simpl; lia) ltac:(lia)).
      rewrite update_update. unfold bit. simpl. rewrite Hbits.
      rewrite bool_decide_eq_false_2 by lia.
      by replace (i + - n) with (i - n) by lia. }
    rewrite (bind_ok _ _ _ _ _ Hrun). exists d'. repeat split; try done.
    intros j. rewrite Hbits. unfold moved.
    repeat case_bool_decide; try lia; done.
Qed.

Lemma Shift_ok h ba v n :
  deref h ba = Some v → wf v → min_int < n ≤ max_int →
  ∃ v', Shift ba n h = Ok tt (update h ba v')
        ∧ size v' = size v ∧ wf v'
        ∧ ∀ j, bit v' j = bool_decide (moved (size v) n j) && bit v (j - n).
Proof.
  intros Hv Hwf Hn. destruct v as [sz d0].
  pose proof (wf_size _ Hwf) as Hsize. pose proof (wf_bytes _ Hwf) as Hd0.
  pose proof (wf_cover _ Hwf) as Hcov. pose proof (wf_len _ Hwf) as HLn.
  simpl in Hsize, Hd0, Hcov, HLn.
  unfold Shift. rewrite (bind_ok _ _ _ _ _ (get_size_ok _ _ _ Hv)). cbn [size].
  assert (Hneg : neg n = - n) by (apply neg_id; int_lia). rewrite Hneg.
  destruct (decide (- sz < n < sz)) as [Hin|Hout].
  - rewrite (bool_decide_eq_false_2 (n >= sz)) by lia.
    rewrite (bool_decide_eq_false_2 (- n >= sz)) by lia.
    rewrite !andb_false_r. simpl.
    destruct (moveBits_ok h ba sz d0 n Hv Hwf Hin) as (d1 & Hrun1 & Hlen1 & Hd1 & Hbits1).
    rewrite (bind_ok _ _ _ _ _ Hrun1).
    assert (Hba1 : deref (update h ba (mkBitArray sz d1)) ba = Some (mkBitArray sz d1))
      by (by eapply deref_update_eq).
    assert (Hrange : 0 ≤ fst (moved_range sz n) ∧ snd (moved_range sz n) ≤ sz).
    { unfold moved_range. repeat case_bool_decide; simpl; lia. }
    destruct (write_loop_up (update h ba (mkBitArray sz d1)) ba sz d1 Hba1 Hd1
      (fun _ => false) (fst (moved_range sz n)) (snd (moved_range sz n))
      (fun i => unset ba i)) as (d2 & Hrun2 & Hlen2 & Hd2 & Hbits2); [lia|lia| |].
    { intros i d Hi Hlen Hd Hbits. rewrite !update_update.
      assert (Hba : deref (update h ba (mkBitArray sz d)) ba = Some (mkBitArray sz d))
        by (by eapply deref_update_eq).
      rewrite (unset_ok _ _ _ i Hba ltac:(simpl; lia)).
      by rewrite update_update. }
    rewrite Hrun2, update_update. exists (mkBitArray sz d2).
    split; [done|]. split; [done|].
    assert (Hbits : ∀ j, bit_of d2 j = bool_decide (moved sz n j) && bit_of d0 (j - n)).
    { intros j. rewrite Hbits2, Hbits1. unfold moved, moved_range.
      destruct (decide (0 ≤ j < sz)) as [Hj|Hj].
      - repeat case_bool_decide; simpl in *; try lia; done.
      - assert (bit_of d0 j = false) as ->.
        { destruct (decide (j < 0)); [apply bit_of_outside; lia|].
          apply (wf_pad _ Hwf). simpl. lia. }
        repeat case_bool_decide; simpl in *; try lia; done. }
    split; [|exact Hbits]. split; simpl; [done|lia|done|].
    intros j Hj. unfold bit. simpl. rewrite Hbits. unfold moved.
    by rewrite bool_decide_eq_false_2 by lia.
  - assert (Hcond : bool_decide (n > 0) && bool_decide (n >= sz)
                    || bool_decide (n < 0) && bool_decide (- n >= sz) = true).
    { destruct (decide (n > 0)).
      - rewrite !bool_decide_eq_true_2 by lia. done.
      - rewrite (bool_decide_eq_false_2 (n > 0)) by done.
        rewrite (bool_decide_eq_true_2 (n < 0)) by lia.
        rewrite (bool_decide_eq_true_2 (- n >= sz)) by lia. done. }
    rewrite Hcond. rewrite (Clear_ok _ _ _ Hv Hwf). simpl.
    exists (zero_array sz). split; [done|]. split; [done|].
    split; [by apply wf_zero_array|].
    intros j. rewrite bit_zero_array. unfold moved.
    by rewrite bool_decide_eq_false_2 by lia.
Qed.

Lemma unset_negative h p v idx :
  deref h p = Some v → idx < 0 → unset p idx h = Panicked RuntimeError h.
Proof.
  intros Hv Hidx. unfold unset.
  destruct (index (data v) (idx /i bitsN)) as [x|] eqn:Hx.
  - rewrite (bind_ok _ _ _ _ _ (data_at_ok _ _ _ _ _ Hv Hx)).
    apply bind_panicked. unfold shl8. rewrite bool_decide_eq_true_2; [done|].
    apply index_Some in Hx as [Hq _]. unfold bitsN in *. lia.
  - by rewrite (bind_panicked _ _ _ _ _ (data_at_panic _ _ _ _ Hv Hx)).
Qed.

(** [Shift] by the smallest [int]: [-n] overflows back to [n], the guard
    for a shift by the whole width does not fire, and the bit loop starts
    at a negative index. *)
Lemma Shift_min_int h ba v :
  deref h ba = Some v → wf v → Shift ba min_int h = Panicked RuntimeError h.
Proof.
  intros Hv Hwf. pose proof (wf_size _ Hwf) as Hsize.
  unfold Shift. rewrite (bind_ok _ _ _ _ _ (get_size_ok _ _ _ Hv)).
  rewrite neg_min_int.
  rewrite (bool_decide_eq_false_2 (min_int > 0)) by int_lia.
  rewrite (bool_decide_eq_false_2 (min_int >= size v)) by int_lia.
  rewrite !andb_false_r. cbn [andb orb].
  assert (Hstart : size v -i min_int = size v + min_int).
  { unfold sub, wrap. unfold min_int, max_int, int_bits in *. simpl Z.sub in *.
    change (2 ^ 63) with 9223372036854775808 in *.
    change (2 ^ 64) with 18446744073709551616. lia. }
  assert (Hmove : moveBits ba min_int h = Ok (size v + min_int, size v) h).
  { unfold moveBits.
    rewrite (bool_decide_eq_false_2 (min_int = 0)) by int_lia.
    rewrite (bool_decide_eq_false_2 (min_int > 0)) by int_lia.
    rewrite neg_min_int.
    rewrite (bind_ok _ _ _ _ _ (get_size_ok _ _ _ Hv)). rewrite Hstart.
    rewrite (bind_ok _ _ _ _ _ (for_up_nop 0 (size v + min_int) _ h ltac:(int_lia))).
    done. }
  rewrite (bind_ok _ _ _ _ _ Hmove). simpl fst. simpl snd.
  unfold for_up. rewrite for_up_acc_step by int_lia.
  apply bind_panicked. apply (unset_negative _ _ v); [done|int_lia].
Qed.

Lemma mod_cycle i r sz :
  0 ≤ i < sz → - sz < r < sz →
  (i + r) `mod` sz =
    if bool_decide (i + r < 0) then i + r + sz
    else if bool_decide (i + r < sz) then i + r else i + r - sz.
Proof.
  intros Hi Hr. repeat case_bool_decide.
  - rewrite <- (Z_mod_plus_full (i + r) 1 sz). rewrite Z.mod_small; lia.
  - apply Z.mod_small. lia.
  - rewrite <- (Z_mod_plus_full (i + r) (-1) sz). rewrite Z.mod_small; lia.
Qed.

(** [Rotate] leaves the receiver at its address and, when the reduced
    count is not zero, the auxiliary slice as a new (unreachable) object at
    the end of the heap. *)
Lemma Rotate_ok h ba v n :
  deref h ba = Some v → wf v →
  ∃ v' garbage, Rotate ba n h = Ok tt (update h ba v' ++ garbage)
     ∧ Forall wf garbage ∧ size v' = size v ∧ wf v'
     ∧ ∀ i, 0 ≤ i < size v → bit v' ((i + n %i size v) `mod` size v) = bit v i.
Proof.
  intros Hv Hwf. destruct v as [sz d0].
  pose proof (wf_size _ Hwf) as Hsize. pose proof (wf_bytes _ Hwf) as Hd0.
  pose proof (wf_cover _ Hwf) as Hcov. pose proof (wf_len _ Hwf) as HLn.
  simpl in Hsize, Hd0, Hcov, HLn. cbn [size].
  unfold Rotate. rewrite (bind_ok _ _ _ _ _ (get_size_ok _ _ _ Hv)). cbn [size].
  unfold int_rem at 1. rewrite bool_decide_eq_false_2 by lia.
  unfold ret at 1. unfold bind at 1.
  remember (n %i sz) as r eqn:Hr.
  assert (Hrr : - sz < r < sz) by lia. clear Hr.
  assert (Hpad0 : ∀ j, ¬ (0 ≤ j < sz) → bit_of d0 j = false).
  { intros j Hj. destruct (decide (j < 0)); [apply bit_of_outside; lia|].
    apply (wf_pad _ Hwf). simpl. lia. }
  (* what remains to be shown once the new storage [d2] is known *)
  assert (Hfinish : ∀ d2 (a : BitArray) (lo : Z) (src : Z → Z),
    length d2 = length d0 → bytes_ok d2 →
    (∀ j, bit_of d2 j = if bool_decide (lo ≤ j < lo + Z.abs r) then bit_of d0 (src j)
                        else if bool_decide (moved sz r j) then bit_of d0 (j - r)
                        else bit_of d0 j) →
    (lo = if bool_decide (r > 0) then 0 else sz + r) →
    (∀ j, lo ≤ j < lo + Z.abs r → src j = if bool_decide (r > 0) then j - r + sz else j - r - sz) →
    size (mkBitArray sz d2) = sz ∧ wf (mkBitArray sz d2)
    ∧ ∀ i, 0 ≤ i < sz → bit (mkBitArray sz d2) ((i + r) `mod` sz) = bit (mkBitArray sz d0) i).
  { intros d2 a lo src Hlen2 Hd2 Hbits2 Hlo Hsrc. split; [done|]. split.
    - split; simpl; [done|lia|done|].
      intros j Hj. unfold bit. simpl. rewrite Hbits2. unfold moved.
      repeat case_bool_decide; try lia; apply Hpad0; lia.
    - intros i Hi. unfold bit. simpl. rewrite Hbits2, mod_cycle by lia.
      unfold moved.
      repeat case_bool_decide; try lia; try (rewrite Hsrc by lia);
        repeat case_bool_decide; try lia; f_equal; lia. }
  destruct (decide (r = 0)) as [->|Hr0].
  - rewrite (bool_decide_eq_false_2 (0 > 0)) by lia.
    rewrite (bool_decide_eq_false_2 (0 < 0)) by lia.
    unfold ret at 1. unfold bind at 1.
    destruct (moveBits_ok h ba sz d0 0 Hv Hwf ltac:(lia)) as (d1 & Hrun1 & Hlen1 & Hd1 & Hbits1).
    rewrite (bind_ok _ _ _ _ _ Hrun1). unfold moved_range. simpl.
    rewrite for_up_nop by lia.
    exists (mkBitArray sz d1), []. rewrite app_nil_r. split; [done|].
    split; [done|].
    apply (Hfinish d1 (mkBitArray sz d0) sz (fun j => j)); try done.
    + intros j. rewrite Hbits1. repeat case_bool_decide; try lia; done.
    + rewrite bool_decide_eq_false_2; lia.
    + intros j Hj. lia.
  - set (start := if bool_decide (r > 0) then sz - r else 0).
    set (end_ := if bool_decide (r > 0) then sz else - r).
    assert (Hslice :
      (if bool_decide (r > 0) then Slice ba (sz -i r) sz
       else if bool_decide (r < 0) then Slice ba 0 (neg r) else ret nil)
      = Slice ba start end_).
    { unfold start, end_. case_bool_decide.
      - by rewrite sub_id by int_lia.
      - rewrite bool_decide_eq_true_2 by lia. by rewrite neg_id by int_lia. }
    rewrite Hslice.
    destruct (Slice_ok h ba _ start end_ Hv Hwf) as (a & Hrun0 & Hwfa & Hsa & Hbitsa).
    { unfold start. simpl. case_bool_decide; lia. }
    { unfold end_. simpl. case_bool_decide; lia. }
    { unfold start, end_. case_bool_decide; lia. }
    rewrite (bind_ok _ _ _ _ _ Hrun0).
    set (aux := S (length h)). set (h1 := h ++ [a]).
    assert (Hne : ba ≠ aux) by (apply deref_lt in Hv; unfold aux; lia).
    assert (Hv1 : deref h1 ba = Some (mkBitArray sz d0)) by (by apply deref_app_old).
    assert (Ha1 : deref h1 aux = Some a) by apply deref_app_new.
    destruct (moveBits_ok h1 ba sz d0 r Hv1 Hwf Hrr) as (d1 & Hrun1 & Hlen1 & Hd1 & Hbits1).
    rewrite (bind_ok _ _ _ _ _ Hrun1).
    set (lo := if bool_decide (r > 0) then 0 else sz + r).
    assert (Hmr : moved_range sz r = (lo, lo + Z.abs r)).
    { unfold moved_range, lo. rewrite (bool_decide_eq_false_2 (r = 0)) by done.
      case_bool_decide; f_equal; lia. }
    rewrite Hmr. simpl fst. simpl snd.
    assert (Hba1 : deref (update h1 ba (mkBitArray sz d1)) ba = Some (mkBitArray sz d1))
      by (by eapply deref_update_eq).
    assert (Hlo : 0 ≤ lo ∧ lo + Z.abs r ≤ sz) by (unfold lo; case_bool_decide; lia).
    assert (Hsa' : size a = Z.abs r) by (rewrite Hsa; unfold start, end_; case_bool_decide; lia).
    pose proof (wf_cover _ Hwfa) as Hcova.
    destruct (write_loop_up (update h1 ba (mkBitArray sz d1)) ba sz d1 Hba1 Hd1
      (fun j => bit a (j - lo)) lo (lo + Z.abs r)
      (fun i => b ← get aux (i -i lo); if b then set ba i else unset ba i))
      as (d2 & Hrun2 & Hlen2 & Hd2 & Hbits2); [lia|lia| |].
    { intros i d Hi Hlen Hd Hbits. rewrite !update_update.
      rewrite sub_id by int_lia.
      assert (Hba : deref (update h1 ba (mkBitArray sz d)) ba = Some (mkBitArray sz d))
        by (by eapply deref_update_eq).
      assert (Haux : deref (update h1 ba (mkBitArray sz d)) aux = Some a)
        by (by rewrite deref_update_ne).
      rewrite (copy_bit_ok _ ba aux a sz d (i - lo) i Haux Hba ltac:(lia) ltac:(lia)).
      by rewrite update_update. }
    rewrite Hrun2, update_update. unfold h1.
    rewrite (update_app_old _ _ _ _ _ Hv).
    exists (mkBitArray sz d2), [a]. split; [done|].
    split; [by apply Forall_singleton|].
    apply (Hfinish d2 a lo (fun j => start + (j - lo))); try done.
    + lia.
    + intros j. rewrite Hbits2, Hbits1.
      destruct (bool_decide (lo ≤ j < lo + Z.abs r)) eqn:Hj; [|done].
      apply bool_decide_eq_true_1 in Hj.
      rewrite Hbitsa; [done|]. unfold start, end_, lo in *.
      repeat case_bool_decide; lia.
    + intros j Hj. unfold start, lo in *. repeat case_bool_decide; lia.
Qed.

(** ** Counting *)

Lemma ones_foldr_acc (f : Z → bool) l c :
  foldr (fun j acc => Z.b2z (f j) + acc) c l
  = foldr (fun j acc => Z.b2z (f j) + acc) 0 l + c.
Proof. induction l as [|j l IH]; simpl; [done|]. rewrite IH. lia. Qed.

Lemma ones_split f lo n1 n2 :
  0 ≤ n1 → 0 ≤ n2 → ones f lo (n1 + n2) = ones f lo n1 + ones f (lo + n1) n2.
Proof.
  intros H1 H2. unfold ones. rewrite seqZ_app, foldr_app by done.
  rewrite ones_foldr_acc. lia.
Qed.

Lemma ones_ext f g lo n :
  (∀ j, lo ≤ j < lo + n → f j = g j) → ones f lo n = ones g lo n.
Proof.
  intros Hfg. unfold ones.
  assert (Hall : Forall (fun j => f j = g j) (seqZ lo n)) by (by apply Forall_seqZ).
  induction Hall as [|j l Hj _ IH]; simpl; [done|]. by rewrite Hj, IH.
Qed.

Lemma ones_shift f k lo n : ones f (k + lo) n = ones (fun j => f (k + j)) lo n.
Proof. unfold ones. by rewrite <- fmap_add_seqZ, foldr_fmap. Qed.

Lemma ones_bounds f lo n : 0 ≤ n → 0 ≤ ones f lo n ≤ n.
Proof.
  intros Hn. unfold ones. rewrite <- (Z2Nat.id n) at 3 by done.
  rewrite <- (length_seqZ lo n).
  induction (seqZ lo n) as [|j l IH]; simpl; [lia|].
  destruct (f j); simpl; lia.
Qed.

Lemma ones_false f lo n : (∀ j, lo ≤ j < lo + n → f j = false) → ones f lo n = 0.
Proof.
  intros Hf. rewrite (ones_ext f (fun _ => false)) by done.
  unfold ones. induction (seqZ lo n) as [|j l IH]; simpl; done.
Qed.

(** A cyclic rotation by [k] keeps the number of set bits. *)
Lemma ones_rotate f g sz k :
  0 ≤ k < sz →
  (∀ j, 0 ≤ j < k → g j = f (j + sz - k)) →
  (∀ j, k ≤ j < sz → g j = f (j - k)) →
  ones g 0 sz = ones f 0 sz.
Proof.
  intros Hk Hlow Hhigh.
  assert (HA : ones g 0 k = ones f ((sz - k) + 0) k).
  { rewrite ones_shift. apply ones_ext. intros j Hj.
    rewrite Hlow by lia. f_equal. lia. }
  assert (HB : ones g (k + 0) (sz - k) = ones f 0 (sz - k)).
  { rewrite ones_shift. apply ones_ext. intros j Hj.
    rewrite Hhigh by lia. f_equal. lia. }
  transitivity (ones g 0 k + ones g (0 + k) (sz - k)).
  { rewrite <- ones_split by lia. f_equal. lia. }
  transitivity (ones f 0 (sz - k) + ones f (0 + (sz - k)) k).
  2:{ rewrite <- ones_split by lia. f_equal. lia. }
  replace (0 + k) with (k + 0) by lia.
  replace (0 + (sz - k)) with (sz - k + 0) by lia.
  rewrite HA, HB. lia.
Qed.

Lemma OnesCount8_ones x : OnesCount8 x = ones (Z.testbit x) 0 8.
Proof. reflexivity. Qed.

Lemma bit_of_cons_low x d j : 0 ≤ j < 8 → bit_of (x :: d) j = Z.testbit x j.
Proof.
  intros Hj. replace j with (8 * 0 + j) at 1 by lia.
  by apply bit_of_byte.
Qed.

Lemma bit_of_cons_high x d j : 0 ≤ j → bit_of (x :: d) (8 + j) = bit_of d j.
Proof.
  intros Hj. unfold bit_of, index.
  replace ((8 + j) `div` 8) with (Z.succ (j `div` 8)) by lia.
  replace ((8 + j) `mod` 8) with (j `mod` 8) by lia.
  rewrite !bool_decide_eq_true_2 by lia.
  by rewrite Z2Nat.inj_succ by lia.
Qed.

Lemma sum_ones_bits d : sum_ones d = ones (bit_of d) 0 (8 * Z.of_nat (length d)).
Proof.
  induction d as [|x d IH].
  - done.
  - change (sum_ones (x :: d)) with (OnesCount8 x + sum_ones d).
    replace (8 * Z.of_nat (length (x :: d))) with (8 + 8 * Z.of_nat (length d))
      by (simpl length; lia).
    rewrite ones_split by lia.
    assert (H1 : OnesCount8 x = ones (bit_of (x :: d)) 0 8).
    { rewrite OnesCount8_ones. apply ones_ext. intros j Hj.
      by rewrite bit_of_cons_low by lia. }
    assert (H2 : sum_ones d = ones (bit_of (x :: d)) (8 + 0) (8 * Z.of_nat (length d))).
    { rewrite IH, ones_shift.
      apply ones_ext. intros j Hj. by rewrite bit_of_cons_high by lia. }
    rewrite H1, H2. done.
Qed.

Lemma wrap_add_l a b : wrap (wrap a + b) = wrap (a + b).
Proof.
  unfold wrap. f_equal.
  replace (((a + 2 ^ (int_bits - 1)) `mod` 2 ^ int_bits - 2 ^ (int_bits - 1) + b
            + 2 ^ (int_bits - 1)))
    with ((a + 2 ^ (int_bits - 1)) `mod` 2 ^ int_bits + b) by lia.
  rewrite Zplus_mod_idemp_l. f_equal. lia.
Qed.

Lemma Count_fold d c :
  foldl (fun cnt x => cnt +i OnesCount8 x) (wrap c) d = wrap (c + sum_ones d).
Proof.
  revert c. induction d as [|x d IH]; intros c; simpl.
  - f_equal. unfold sum_ones. simpl. lia.
  - unfold add at 2. rewrite wrap_add_l, IH. f_equal.
    change (sum_ones (x :: d)) with (OnesCount8 x + sum_ones d). lia.
Qed.

(** On a well-formed array [Count] is the number of set bits below the
    size. *)
Lemma Count_ok h p v :
  deref h p = Some v → wf v → Count p h = Ok (ones (bit v) 0 (size v)) h.
Proof.
  intros Hv Hwf. unfold Count. rewrite (bind_ok _ _ _ _ _ (load_ok _ _ _ Hv)).
  unfold ret. f_equal.
  change 0 with (wrap 0) at 1. rewrite Count_fold, sum_ones_bits.
  pose proof (wf_cover _ Hwf) as Hcov. pose proof (wf_size _ Hwf) as Hsize.
  replace (8 * Z.of_nat (length (data v)))
    with (size v + (8 * Z.of_nat (length (data v)) - size v)) by lia.
  rewrite ones_split by lia.
  rewrite (ones_false _ (0 + size v)).
  2:{ intros j Hj. apply (wf_pad _ Hwf). lia. }
  pose proof (ones_bounds (bit_of (data v)) 0 (size v) ltac:(lia)).
  rewrite wrap_id by int_lia. by rewrite Z.add_0_l, Z.add_0_r.
Qed.

(** ** [Concat] *)

Lemma bind_assoc {A B C} (m : M A) (f : A → M B) (g : B → M C) h :
  bind (bind m f) g h = bind m (fun x => bind (f x) g) h.
Proof. unfold bind. by destruct (m h). Qed.

(** A loop that carries a counter [c i] next to its index is the loop
    without the counter. *)
Lemma for_up_acc_counter (c : Z → Z) a e (body : Z → Z → M Z) (body1 : Z → M unit) acc h :
  a ≤ e →
  (∀ i hh, a ≤ i < e → body i (c i) hh = bind (body1 i) (fun _ => ret (c (i + 1))) hh) →
  acc = c a →
  for_up_acc a e body acc h = bind (for_up a e body1) (fun _ => ret (c e)) h.
Proof.
  intros Hae Hbody ->. remember (Z.to_nat (e - a)) as k eqn:Hk.
  revert a h Hae Hbody Hk. induction k as [|k IH]; intros a h Hae Hbody Hk.
  - assert (a = e) as -> by lia. rewrite for_up_acc_nop by lia.
    by rewrite (bind_ok _ _ _ _ _ (for_up_nop e e body1 h ltac:(lia))).
  - unfold for_up. rewrite !for_up_acc_step by lia.
    rewrite bind_assoc. unfold bind at 1. rewrite Hbody by lia.
    unfold bind. destruct (body1 a h) as [[] h1|p h1]; [|done].
    unfold ret at 1. rewrite IH; [done|lia| |lia].
    intros i hh Hi. apply Hbody. lia.
Qed.

Lemma deref_beside_new h z x q w :
  deref h q = Some w → deref (update (h ++ [z]) (S (length h)) x) q = Some w.
Proof. intros Hq. rewrite update_app_new. by apply deref_app_old. Qed.

Lemma Concat_ok h ba1 ba2 v1 v2 :
  deref h ba1 = Some v1 → deref h ba2 = Some v2 → wf v1 → wf v2 →
  size v1 + size v2 ≤ max_int →
  ∃ r, Concat ba1 ba2 h = Ok (S (length h)) (h ++ [r])
       ∧ wf r ∧ size r = size v1 + size v2
       ∧ ∀ k, bit r k = if bool_decide (0 ≤ k < size v2) then bit v2 k
                        else if bool_decide (size v2 ≤ k < size v1 + size v2)
                             then bit v1 (k - size v2)
                             else false.
Proof.
  intros H1 H2 Hwf1 Hwf2 Hsum.
  pose proof (wf_size _ Hwf1) as Hs1. pose proof (wf_size _ Hwf2) as Hs2.
  pose proof (wf_cover _ Hwf1) as Hc1. pose proof (wf_cover _ Hwf2) as Hc2.
  unfold Concat.
  rewrite (bind_ok _ _ _ _ _ (get_size_ok _ _ _ H1)).
  rewrite (bind_ok _ _ _ _ _ (get_size_ok _ _ _ H2)).
  rewrite add_id by int_lia.
  set (sz := size v1 + size v2).
  rewrite (bind_ok _ _ _ _ _ (New_ok sz h ltac:(unfold sz; lia))).
  set (p := S (length h)). set (h1 := h ++ [zero_array sz]).
  pose proof (wf_zero_array sz ltac:(unfold sz; lia)) as Hwfz.
  pose proof (wf_cover _ Hwfz) as Hcz. pose proof (wf_bytes _ Hwfz) as Hbz.
  pose proof (wf_len _ Hwfz) as Hlz.
  remember (data (zero_array sz)) as d0 eqn:Hd0def.
  change (size (zero_array sz)) with sz in Hcz, Hlz.
  assert (Hp : deref h1 p = Some (mkBitArray sz d0)).
  { rewrite Hd0def. apply deref_app_new. }
  assert (Hzero : ∀ j, bit_of d0 j = false).
  { intros j. rewrite Hd0def. apply bit_zero_array. }
  assert (Hother : ∀ q w x, deref h q = Some w → deref (update h1 p x) q = Some w).
  { intros q w x Hq. by apply deref_beside_new. }
  assert (Hself : ∀ x, deref (update h1 p x) p = Some x).
  { intros x. by eapply deref_update_eq. }
  destruct (quot_rem_8 (size v2)) as [Hq _]; [lia|]. rewrite Hq.
  set (n := size v2 `div` 8).
  (* the whole bytes of the second array *)
  destruct (byte_loop_up h1 p sz d0 Hp Hbz (fun k => byte_at (data v2) k) 0 n
    (fun i => y ← data_at ba2 i; data_set p i y))
    as (d1 & Hrun1 & Hlen1 & Hd1 & Hidx1); [lia|unfold n; lia| | |].
  { intros k Hk. eapply index_bytes_ok; [apply (wf_bytes _ Hwf2)|].
    apply byte_at_index. unfold n in *. lia. }
  { intros i d Hi Hlen Hidx.
    rewrite (bind_ok _ _ _ _ _ (data_at_ok _ _ _ i _ (Hother _ _ _ H2)
      (byte_at_index (data v2) i ltac:(unfold n in *; lia)))).
    rewrite (data_set_ok _ _ _ i _ (Hself (mkBitArray sz d))
      ltac:(simpl; unfold n in *; lia)).
    by rewrite update_update. }
  rewrite (bind_ok _ _ _ _ _ Hrun1).
  assert (Hbits1 : ∀ j, bit_of d1 j = bool_decide (0 ≤ j < 8 * n) && bit v2 j).
  { intros j. unfold bit_of at 1. rewrite Hidx1. case_bool_decide as Hj.
    - rewrite bool_decide_eq_true_2 by lia. simpl.
      unfold bit. rewrite bit_of_byte_at; [done|]. unfold n in *. lia.
    - rewrite bool_decide_eq_false_2 by lia. apply (Hzero j). }
  (* the remaining bits of the second array *)
  rewrite mul_id by (unfold n, bitsN; int_lia). unfold bitsN.
  replace (n * 8) with (8 * n) by lia.
  destruct (write_loop_up (update h1 p (mkBitArray sz d1)) p sz d1 (Hself _) Hd1
    (fun j => bit v2 j) (8 * n) (size v2)
    (fun i => b ← get ba2 i; if b then set p i else ret tt))
    as (d2 & Hrun2 & Hlen2 & Hd2 & Hbits2); [unfold n; lia|lia| |].
  { intros i d Hi Hlen Hd Hbits. rewrite !update_update.
    rewrite (bind_ok _ _ _ _ _ (get_ok _ _ _ i (Hother _ _ _ H2) ltac:(lia))).
    rewrite (set_if_ok _ _ _ _ i (Hself (mkBitArray sz d)) ltac:(simpl; lia)).
    - by rewrite update_update.
    - unfold bit. simpl. rewrite Hbits, Hbits1.
      by rewrite !bool_decide_eq_false_2 by lia. }
  rewrite (bind_ok _ _ _ _ _ Hrun2). rewrite update_update.
  rewrite (bind_ok _ _ _ _ _ (get_size_ok _ _ _ (Hself _))). cbn [size].
  (* the bits of the first array *)
  unfold bind at 1.
  rewrite (for_up_acc_counter (fun i => i - size v2) (size v2) sz _
    (fun i => b ← get ba1 (i - size v2); if b then set p i else ret tt));
    [|unfold sz; lia| |lia].
  2:{ intros i hh Hi. cbv beta. rewrite bind_assoc. unfold bind.
      destruct (get ba1 (i - size v2) hh) as [b hh'|]; [|done].
      destruct ((if b then set p i else ret ()) hh') as [[] hh''|]; [|done].
      unfold ret. f_equal. rewrite add_id by (unfold sz in *; int_lia). lia. }
  destruct (write_loop_up (update h1 p (mkBitArray sz d2)) p sz d2 (Hself _) Hd2
    (fun j => bit v1 (j - size v2)) (size v2) sz
    (fun i => b ← get ba1 (i - size v2); if b then set p i else ret tt))
    as (d3 & Hrun3 & Hlen3 & Hd3 & Hbits3); [lia|lia| |].
  { intros i d Hi Hlen Hd Hbits. rewrite !update_update.
    rewrite (bind_ok _ _ _ _ _ (get_ok _ _ _ (i - size v2) (Hother _ _ _ H1)
      ltac:(unfold sz in *; lia))).
    rewrite (set_if_ok _ _ _ _ i (Hself (mkBitArray sz d)) ltac:(simpl; lia)).
    - by rewrite update_update.
    - unfold bit at 1. simpl. rewrite Hbits, Hbits2, Hbits1.
      rewrite !bool_decide_eq_false_2 by (unfold n in *; lia). done. }
  rewrite (bind_ok _ _ _ _ _ Hrun3).
  rewrite update_update. unfold ret, h1, p. rewrite update_app_new.
  exists (mkBitArray sz d3). split; [done|].
  assert (Hbits : ∀ k, bit_of d3 k =
    if bool_decide (0 ≤ k < size v2) then bit v2 k
    else if bool_decide (size v2 ≤ k < size v1 + size v2) then bit v1 (k - size v2)
         else false).
  { intros k. rewrite Hbits3, Hbits2, Hbits1. unfold sz, n in *.
    repeat case_bool_decide; try lia; done. }
  split; [|split; [done|exact Hbits]].
  split; simpl; [unfold sz; lia|lia|done|].
  intros j Hj. unfold bit. simpl. rewrite Hbits. unfold sz in *.
  by rewrite !bool_decide_eq_false_2 by lia.
Qed.

(** ** [String] *)

Lemma bits_string_ext f g n :
  (∀ j, 0 ≤ j < Z.of_nat n → f j = g j) → bits_string f n = bits_string g n.
Proof.
  induction n as [|n IH]; intros Hfg; simpl; [done|].
  rewrite Hfg by lia. f_equal. apply IH. intros j Hj. apply Hfg. lia.
Qed.

Lemma bits_string_app f a b :
  bits_string f (a + b)
  = bits_string (fun j => f (j + Z.of_nat b)) a +:+ bits_string f b.
Proof.
  induction a as [|a IH]; simpl; [done|].
  rewrite IH. by replace (Z.of_nat (a + b)) with (Z.of_nat a + Z.of_nat b) by lia.
Qed.


Lemma Sprintf_0b_checked : Sprintf_0b_check = true.
Proof. vm_compute. reflexivity. Qed.

Lemma Sprintf_0b_bits n x :
  1 ≤ n ≤ 8 → 0 ≤ x < 2 ^ n →
  Sprintf_0b n x = bits_string (Z.testbit x) (Z.to_nat n).
Proof.
  intros Hn Hx. pose proof Sprintf_0b_checked as Hc. unfold Sprintf_0b_check in Hc.
  rewrite forallb_forall in Hc. specialize (Hc n).
  rewrite forallb_forall in Hc.
  assert (Hin : In n (seqZ 1 8)) by (apply list_elem_of_In, elem_of_seqZ; lia).
  specialize (Hc Hin x). destruct Hx as [Hx0 Hx1].
  apply Z.ltb_lt in Hx1 as Hx'. rewrite Hx' in Hc.
  apply String.eqb_eq, Hc, list_elem_of_In, elem_of_seqZ.
  assert (2 ^ n ≤ 2 ^ 8) by (apply Z.pow_le_mono_r; lia).
  change (2 ^ 8) with 256 in *. lia.
Qed.

Lemma String_ok h ba v :
  deref h ba = Some v → wf v →
  String_ ba h = Ok (bits_string (bit v) (Z.to_nat (size v))) h.
Proof.
  intros Hv Hwf.
  pose proof (wf_size _ Hwf) as Hsize. pose proof (wf_bytes _ Hwf) as Hd.
  pose proof (wf_len _ Hwf) as HLn. pose proof (wf_len_pos _ Hwf) as HL1.
  remember (Z.of_nat (length (data v))) as L eqn:HLdef.
  unfold nbytes in HLn.
  unfold String_.
  rewrite (bind_ok _ _ _ _ _ (len_data_ok _ _ _ Hv)). rewrite <- HLdef.
  rewrite (bind_ok _ _ _ _ _ (get_size_ok _ _ _ Hv)).
  destruct (quot_rem_8 (size v)) as [_ ->]; [lia|].
  rewrite (sub_id L 1) by int_lia.
  set (n := if bool_decide (size v `mod` 8 = 0) then bitsN else size v `mod` 8).
  assert (Hn : 1 ≤ n ≤ 8 ∧ 8 * (L - 1) + n = size v).
  { unfold n, bitsN. case_bool_decide; lia. }
  rewrite (bind_ok _ _ _ _ _ (data_at_ok _ _ _ (L - 1) _ Hv
    (byte_at_index (data v) (L - 1) ltac:(lia)))).
  (* every byte prints as the eight bits it holds, the last one as [n] *)
  assert (Hbyte : ∀ i w, 0 ≤ i < L → 1 ≤ w ≤ 8 →
    (∀ k, w ≤ k < 8 → bit v (8 * i + k) = false) →
    Sprintf_0b w (byte_at (data v) i)
    = bits_string (fun j => bit v (j + 8 * i)) (Z.to_nat w)).
  { intros i w Hi Hw Hhigh.
    pose proof (byte_at_index (data v) i ltac:(lia)) as Hidx.
    pose proof (index_bytes_ok _ _ _ Hd Hidx) as Hok.
    apply byte_ok_bits in Hok as [Hx0 Hx8].
    rewrite Sprintf_0b_bits; [|done|].
    - apply bits_string_ext. intros j Hj. unfold bit.
      replace (j + 8 * i) with (8 * i + j) by lia.
      by rewrite (bit_of_byte _ _ _ _ Hidx) by lia.
    - split; [done|]. apply Z.bounded_iff_bits_nonneg; [lia|done|].
      intros k Hk. destruct (decide (k < 8)).
      + rewrite <- (bit_of_byte _ _ _ _ Hidx) by lia. apply Hhigh. lia.
      + apply Hx8. lia. }
  assert (Hs0 : Sprintf_0b n (byte_at (data v) (L - 1))
    = bits_string (fun j => bit v (j + 8 * (L - 1))) (Z.to_nat n)).
  { apply Hbyte; [lia|lia|]. intros k Hk. apply (wf_pad _ Hwf). lia. }
  rewrite Hs0.
  assert (Hend : ∀ s, s = bits_string (fun j => bit v (j + 8 * (-1 + 1))) (Z.to_nat (size v - 8 * (-1 + 1))) →
    s = bits_string (bit v) (Z.to_nat (size v))).
  { intros s ->. replace (size v - 8 * (-1 + 1)) with (size v) by lia.
    apply bits_string_ext. intros j Hj. f_equal. lia. }
  case_bool_decide as Hlen.
  - rewrite (sub_id L 2) by int_lia.
    destruct (for_down_acc_inv
      (fun i acc hh => hh = h ∧
         acc = bits_string (fun j => bit v (j + 8 * (i + 1))) (Z.to_nat (size v - 8 * (i + 1))))
      (L - 2) 0
      (fun i s => x ← data_at ba i; ret (s +:+ Sprintf_0b bitsN x))
      (bits_string (fun j => bit v (j + 8 * (L - 1))) (Z.to_nat n)) h)
      as (s & h' & Hrun & -> & Hs); [lia| | |].
    + split; [done|]. replace (L - 2 + 1) with (L - 1) by lia.
      do 2 f_equal. lia.
    + intros i acc hh Hi [-> ->].
      rewrite (bind_ok _ _ _ _ _ (data_at_ok _ _ _ i _ Hv
        (byte_at_index (data v) i ltac:(lia)))).
      unfold ret. eexists _, _. split; [done|]. split; [done|].
      unfold bitsN. rewrite (Hbyte i 8) by lia.
      replace (Z.to_nat (size v - 8 * (i - 1 + 1)))
        with (Z.to_nat (size v - 8 * (i + 1)) + Z.to_nat 8)%nat by lia.
      rewrite bits_string_app. f_equal.
      * apply bits_string_ext. intros j Hj. f_equal. lia.
      * apply bits_string_ext. intros j Hj. f_equal. lia.
    + rewrite Hrun. f_equal. apply Hend. by rewrite Hs.
  - unfold ret. f_equal. apply Hend. assert (L = 1) as -> by lia.
    do 2 f_equal; lia.
Qed.

(** ** [Parse] *)

Lemma Parse_spaces_panic s h :
  runes_without_spaces s = [] →
  Parse s h = Panicked (PanicString "size must be > 0") h.
Proof.
  intros Hrs. unfold Parse. rewrite Hrs. simpl length.
  by rewrite (bind_panicked _ _ _ _ _ (New_size_panic 0 [] h ltac:(lia))).
Qed.

Lemma Parse_loop_ok rs h0 :
  let n := Z.of_nat (length rs) in
  let p := S (length h0) in
  n ≤ max_int →
  ∀ rest pre d,
    pre ++ rest = rs → Forall is_digit rest →
    n ≤ 8 * Z.of_nat (length d) → bytes_ok d →
    (∀ j, bit_of d j = bool_decide (n - Z.of_nat (length pre) ≤ j < n) && rune_bit rs j) →
    ∃ d', Parse_loop p n (Z.of_nat (length pre)) rest (h0 ++ [mkBitArray n d])
            = Ok (Success p) (h0 ++ [mkBitArray n d'])
          ∧ length d' = length d ∧ bytes_ok d'
          ∧ ∀ j, bit_of d' j = bool_decide (0 ≤ j < n) && rune_bit rs j.
Proof.
  intros n p Hmax rest.
  induction rest as [|c rest IH]; intros pre d Hrs Hdig Hlen Hd Hbits.
  - exists d. simpl. repeat split; try done.
    intros j. rewrite Hbits. rewrite app_nil_r in Hrs. subst pre.
    f_equal. apply bool_decide_ext. unfold n. lia.
  - assert (Hi : Z.of_nat (length pre) < n).
    { unfold n. rewrite <- Hrs, length_app. simpl. lia. }
    assert (Hc : rs !! length pre = Some c).
    { rewrite <- Hrs. by rewrite list_lookup_middle. }
    assert (Hpre : (pre ++ [c]) ++ rest = rs) by (by rewrite <- app_assoc).
    assert (Hlenpre : Z.of_nat (length (pre ++ [c])) = Z.of_nat (length pre) + 1).
    { rewrite length_app. simpl. lia. }
    apply Forall_cons in Hdig as [Hc01 Hdig].
    set (k := n - 1 - Z.of_nat (length pre)).
    assert (Hrb : rune_bit rs k = bool_decide (c = "1"%char)).
    { unfold rune_bit. fold n.
      replace (Z.to_nat (n - 1 - k)) with (length pre) by (unfold k; lia).
      rewrite Hc. apply bool_decide_ext. split; congruence. }
    assert (Hnext : ∀ d1, length d1 = length d → bytes_ok d1 →
      (∀ j, bit_of d1 j = if bool_decide (j = k) then bool_decide (c = "1"%char)
                          else bit_of d j) →
      ∃ d', Parse_loop p n (Z.of_nat (length pre) + 1) rest (h0 ++ [mkBitArray n d1])
              = Ok (Success p) (h0 ++ [mkBitArray n d'])
            ∧ length d' = length d ∧ bytes_ok d'
            ∧ ∀ j, bit_of d' j = bool_decide (0 ≤ j < n) && rune_bit rs j).
    { intros d1 Hlen1 Hd1 Hbits1. rewrite <- Hlenpre.
      destruct (IH (pre ++ [c]) d1 Hpre Hdig ltac:(lia) Hd1) as (d' & Hrun & Hlen' & Hd' & Hb').
      - intros j. rewrite Hbits1, Hbits, Hlenpre.
        destruct (decide (j = k)) as [Hj|Hj].
        + rewrite (bool_decide_eq_true_2 (j = k)) by done. rewrite Hj, Hrb.
          by rewrite (bool_decide_eq_true_2 (_ ≤ k < n)) by (unfold k; lia).
        + rewrite (bool_decide_eq_false_2 (j = k)) by done.
          f_equal. apply bool_decide_ext. unfold k in *. lia.
      - exists d'. split; [exact Hrun|]. split; [congruence|]. by split. }
    simpl. case_bool_decide as Hc1.
    + rewrite (sub_id n 1) by int_lia. rewrite sub_id by int_lia. fold k.
      assert (Hp : deref (h0 ++ [mkBitArray n d]) p = Some (mkBitArray n d))
        by apply deref_app_new.
      rewrite (bind_ok _ _ _ _ _ (set_ok _ _ _ k Hp ltac:(simpl; unfold k; lia))).
      unfold p. rewrite update_app_new. simpl.
      apply Hnext.
      * by rewrite length_write_bit.
      * by apply bytes_ok_write_bit.
      * intros j. by rewrite bit_of_write_bit by (unfold k; lia).
    + rewrite bool_decide_eq_false_2.
      2:{ intros Hne. destruct Hc01; congruence. }
      apply Hnext; try done.
      intros j. destruct (decide (j = k)) as [Hj|Hj].
      * rewrite (bool_decide_eq_true_2 (j = k)) by done. rewrite Hj, Hbits.
        rewrite bool_decide_eq_false_2; [done|unfold k; lia].
      * by rewrite (bool_decide_eq_false_2 (j = k)).
Qed.

Lemma Parse_ok s h :
  let rs := runes_without_spaces s in
  0 < Z.of_nat (length rs) ≤ max_int → Forall is_digit rs →
  ∃ v, Parse s h = Ok (Success (S (length h))) (h ++ [v])
       ∧ wf v ∧ size v = Z.of_nat (length rs)
       ∧ ∀ j, 0 ≤ j < size v → bit v j = rune_bit rs j.
Proof.
  intros rs Hn Hdig. unfold Parse. fold rs.
  rewrite (bind_ok _ _ _ _ _ (New_ok _ h Hn)).
  set (n := Z.of_nat (length rs)) in *.
  pose proof (wf_zero_array n Hn) as Hz.
  destruct (Parse_loop_ok rs h ltac:(fold n; lia) rs [] (data (zero_array n)))
    as (d' & Hrun & Hlen & Hd' & Hbits).
  - done.
  - done.
  - pose proof (wf_cover _ Hz) as Hc. simpl in Hc. fold n. simpl. lia.
  - apply (wf_bytes _ Hz).
  - intros j. fold (bit (zero_array n) j). rewrite bit_zero_array. simpl.
    fold n. by rewrite bool_decide_eq_false_2 by lia.
  - exists (mkBitArray n d'). split; [exact Hrun|].
    split; [|split; [done|]].
    + split; simpl.
      * done.
      * rewrite Hlen. apply (wf_len _ Hz).
      * done.
      * intros j Hj. unfold bit. simpl. rewrite Hbits. fold n.
        by rewrite bool_decide_eq_false_2 by lia.
    + intros j Hj. unfold bit. simpl in *. rewrite Hbits. fold n.
      by rewrite bool_decide_eq_true_2 by lia.
Qed.

(** ** [Parse] after [String] *)




Lemma length_runes_bits_string f n :
  length (list_ascii_of_string (bits_string f n)) = n.
Proof. induction n as [|n IH]; simpl; [done|]. by rewrite IH. Qed.


Lemma lookup_bits_string f n k :
  (k < n)%nat →
  list_ascii_of_string (bits_string f n) !! k = Some (digit (f (Z.of_nat (n - 1 - k)))).
Proof.
  revert k. induction n as [|n IH]; intros k Hk; [lia|]. simpl.
  destruct k as [|k]; simpl.
  - do 3 f_equal. lia.
  - rewrite IH by lia. do 4 f_equal. lia.
Qed.



(** ** [Equal] *)

Lemma Equal_loop_same h p q v : 
  deref h p = Some v → deref h q = Some v →
  ∀ fuel i, 0 ≤ i → i + Z.of_nat fuel ≤ Z.of_nat (length (data v)) →
  Equal_loop p q fuel i h = Ok true h.
Proof.
  intros Hp Hq fuel. induction fuel as [|fuel IH]; intros i Hi Hle; simpl; [done|].
  pose proof (byte_at_index (data v) i ltac:(lia)) as Hidx.
  rewrite (bind_ok _ _ _ _ _ (data_at_ok _ _ _ _ _ Hp Hidx)).
  rewrite (bind_ok _ _ _ _ _ (data_at_ok _ _ _ _ _ Hq Hidx)).
  rewrite bool_decide_eq_false_2 by (intros Hne; by apply Hne).
  apply IH; lia.
Qed.

(** Two pointers to equal records compare equal. *)
Lemma Equal_same h p q v :
  deref h p = Some v → deref h q = Some v → Equal p q h = Ok true h.
Proof.
  intros Hp Hq. unfold Equal.
  rewrite (bind_ok _ _ _ _ _ (get_size_ok _ _ _ Hp)).
  rewrite (bind_ok _ _ _ _ _ (get_size_ok _ _ _ Hq)).
  rewrite bool_decide_eq_false_2 by (intros Hne; by apply Hne).
  rewrite (bind_ok _ _ _ _ _ (load_ok _ _ _ Hp)).
  apply (Equal_loop_same h p q v Hp Hq); lia.
Qed.

(** ** [MarshalBinary] and [UnmarshalBinary] *)

Section marshal.
Context {G : Gob} {HG : GobLaws G}.

Lemma MarshalBinary_ok h ba v :
  deref h ba = Some v → wf v →
  ∃ b1 b2, gob_encode_int (size v) = Success b1
           ∧ gob_encode_bytes (data v) = Success b2
           ∧ MarshalBinary ba h = Ok (Success (b1 ++ b2)) h.
Proof.
  intros Hv Hwf. pose proof (wf_size _ Hwf) as Hsize.
  pose proof (wf_len _ Hwf) as Hlen. unfold nbytes in Hlen.
  destruct (gob_encode_int_total (size v) ltac:(int_lia)) as [b1 Hb1].
  destruct (gob_encode_bytes_total (data v) (wf_bytes _ Hwf) ltac:(int_lia)) as [b2 Hb2].
  exists b1, b2. split; [done|]. split; [done|].
  unfold MarshalBinary. rewrite (bind_ok _ _ _ _ _ (get_size_ok _ _ _ Hv)).
  rewrite Hb1. rewrite (bind_ok _ _ _ _ _ (load_ok _ _ _ Hv)). by rewrite Hb2.
Qed.

(** [UnmarshalBinary] succeeds exactly when both fields decode, and then
    stores whatever was decoded. *)
Lemma UnmarshalBinary_decoded h q w bytes sz rest d rest' :
  deref h q = Some w →
  gob_decode_int bytes = Success (sz, rest) →
  gob_decode_bytes rest = Success (d, rest') →
  UnmarshalBinary q bytes h = Ok None (update h q (mkBitArray sz d)).
Proof.
  intros Hq H1 H2. unfold UnmarshalBinary.
  rewrite (bind_ok _ _ _ _ _ (load_ok _ _ _ Hq)). rewrite H1.
  unfold store at 1. unfold bind at 1. rewrite H2.
  unfold store, bind, ret. by rewrite update_update.
Qed.

Lemma UnmarshalBinary_size_error h q w bytes e :
  deref h q = Some w → gob_decode_int bytes = Failure e →
  UnmarshalBinary q bytes h = Ok (Some e) h.
Proof.
  intros Hq H1. unfold UnmarshalBinary.
  rewrite (bind_ok _ _ _ _ _ (load_ok _ _ _ Hq)). by rewrite H1.
Qed.

Lemma UnmarshalBinary_data_error h q w bytes sz rest e :
  deref h q = Some w →
  gob_decode_int bytes = Success (sz, rest) → gob_decode_bytes rest = Failure e →
  UnmarshalBinary q bytes h = Ok (Some e) (update h q (mkBitArray sz (data w))).
Proof.
  intros Hq H1 H2. unfold UnmarshalBinary.
  rewrite (bind_ok _ _ _ _ _ (load_ok _ _ _ Hq)). rewrite H1.
  unfold store at 1. unfold bind at 1. by rewrite H2.
Qed.

Lemma Unmarshal_Marshal h ba v q w b :
  deref h ba = Some v → wf v → deref h q = Some w →
  MarshalBinary ba h = Ok (Success b) h →
  UnmarshalBinary q b h = Ok None (update h q v).
Proof.
  intros Hv Hwf Hq Hm. pose proof (wf_size _ Hwf) as Hsize.
  pose proof (wf_len _ Hwf) as Hlen. unfold nbytes in Hlen.
  destruct (MarshalBinary_ok h ba v Hv Hwf) as (b1 & b2 & Hb1 & Hb2 & Hm').
  assert (b = b1 ++ b2) as -> by congruence.
  replace (update h q v) with (update h q (mkBitArray (size v) (data v)))
    by (by rewrite mk_eta).
  apply (UnmarshalBinary_decoded h q w _ _ b2 _ []); [done| |].
  - apply gob_decode_encode_int; [int_lia|done].
  - rewrite <- (app_nil_r b2) at 1.
    apply gob_decode_encode_bytes; [apply (wf_bytes _ Hwf)|int_lia|done].
Qed.

Lemma Unmarshal_truncated h ba v q w b b' :
  deref h ba = Some v → wf v → deref h q = Some w →
  MarshalBinary ba h = Ok (Success b) h → truncation_of b' b →
  ∃ e h', UnmarshalBinary q b' h = Ok (Some e) h'.
Proof.
  intros Hv Hwf Hq Hm (t & Ht & Hb). pose proof (wf_size _ Hwf) as Hsize.
  pose proof (wf_len _ Hwf) as Hlen. unfold nbytes in Hlen.
  destruct (MarshalBinary_ok h ba v Hv Hwf) as (b1 & b2 & Hb1 & Hb2 & Hm').
  assert (b = b1 ++ b2) as -> by congruence.
  apply app_eq_inv in Hb as [(k & Hk1 & Hk2)|(k & Hk1 & Hk2)].
  - destruct k as [|x k].
    + (* the cut is right behind the encoded size *)
      rewrite app_nil_r in Hk1. subst b'. simpl in Hk2. subst t.
      assert (Hsz : gob_decode_int (b1 ++ []) = Success (size v, []))
        by (apply gob_decode_encode_int; [int_lia|done]).
      rewrite app_nil_r in Hsz.
      destruct (gob_decode_bytes_truncated (data v) b2 [] (wf_bytes _ Hwf)
        ltac:(int_lia) Hb2) as [e He].
      { exists b2. by split. }
      eexists e, _. by eapply UnmarshalBinary_data_error.
    + (* the cut is inside the encoded size *)
      destruct (gob_decode_int_truncated (size v) b1 b' ltac:(int_lia) Hb1) as [e He].
      { exists (x :: k). by split. }
      exists e, h. by eapply UnmarshalBinary_size_error.
  - (* the cut is inside the encoded data *)
    subst b'.
    assert (Hsz : gob_decode_int (b1 ++ k) = Success (size v, k))
      by (apply gob_decode_encode_int; [int_lia|done]).
    destruct (gob_decode_bytes_truncated (data v) b2 k (wf_bytes _ Hwf)
      ltac:(int_lia) Hb2) as [e He].
    { exists t. by split. }
    eexists e, _. by eapply UnmarshalBinary_data_error.
Qed.

End marshal.

(** The little-endian codec meets the contract. *)
Lemma wrap_mod z : is_int z → wrap (z `mod` 2 ^ 64) = z.
Proof.
  intros Hz. unfold wrap, int_bits. simpl Z.sub.
  rewrite Zplus_mod_idemp_l. rewrite Z.mod_small; int_lia.
Qed.

Lemma le_decode_encode_int z rest :
  is_int z → le_decode_int (Z_to_little_endian 8 8 z ++ rest) = Success (z, rest).
Proof.
  intros Hz. unfold le_decode_int.
  pose proof (length_Z_to_little_endian 8 8 z ltac:(lia)) as Hlen.
  rewrite bool_decide_eq_false_2 by (rewrite length_app; lia).
  rewrite take_app_length', drop_app_length' by lia.
  rewrite little_endian_to_Z_to_little_endian by lia.
  change (8 * 8) with 64. by rewrite wrap_mod.
Qed.

Lemma le_decode_encode_bytes d rest :
  Z.of_nat (length d) ≤ max_int →
  le_decode_bytes (Z_to_little_endian 8 8 (Z.of_nat (length d)) ++ d ++ rest)
  = Success (d, rest).
Proof.
  intros Hd. unfold le_decode_bytes.
  pose proof (length_Z_to_little_endian 8 8 (Z.of_nat (length d)) ltac:(lia)) as Hlen.
  rewrite bool_decide_eq_false_2 by (rewrite length_app; lia).
  rewrite take_app_length', drop_app_length' by lia.
  rewrite little_endian_to_Z_to_little_endian by lia.
  change (8 * 8) with 64. rewrite Z.mod_small by int_lia. rewrite Nat2Z.id.
  rewrite bool_decide_eq_false_2 by (rewrite length_app; lia).
  by rewrite take_app_length, drop_app_length.
Qed.

#[local] Instance le_gob_laws : GobLaws le_gob.
Proof.
  split;
    cbv beta iota delta [gob_encode_int gob_encode_bytes gob_decode_int
                         gob_decode_bytes le_gob le_encode_int le_encode_bytes].
  - intros z _. by eexists.
  - intros d _ _. by eexists.
  - intros z b rest Hz Hb.
    assert (b = Z_to_little_endian 8 8 z) as -> by congruence.
    by apply le_decode_encode_int.
  - intros d b rest _ Hd Hb.
    assert (b = Z_to_little_endian 8 8 (Z.of_nat (length d)) ++ d) as -> by congruence.
    rewrite <- app_assoc. by apply le_decode_encode_bytes.
  - intros z b b' Hz Hb (t & Ht & Hbt).
    assert (b = Z_to_little_endian 8 8 z) as -> by congruence.
    pose proof (length_Z_to_little_endian 8 8 z ltac:(lia)) as Hlen.
    rewrite Hbt, length_app in Hlen. destruct t; [done|]. simpl in Hlen.
    unfold le_decode_int. rewrite bool_decide_eq_true_2 by lia. by eexists.
  - intros d b b' _ Hd Hb (t & Ht & Hbt).
    assert (b = Z_to_little_endian 8 8 (Z.of_nat (length d)) ++ d) as -> by congruence.
    unfold le_decode_bytes. case_bool_decide as H8; [by eexists|].
    pose proof (length_Z_to_little_endian 8 8 (Z.of_nat (length d)) ltac:(lia)) as Hlen.
    assert (Hsplit : b' = take 8 b' ++ drop 8 b') by (by rewrite take_drop).
    rewrite Hsplit, <- app_assoc in Hbt.
    apply app_inj_1 in Hbt as [Hb1 Hb2].
    2:{ rewrite length_take. lia. }
    rewrite <- Hb1. rewrite little_endian_to_Z_to_little_endian by lia.
    change (8 * 8) with 64. rewrite Z.mod_small by int_lia. rewrite Nat2Z.id.
    rewrite Hb2, length_app. destruct t; [done|]. simpl.
    rewrite bool_decide_eq_true_2 by lia. by eexists.
Qed.

(** ** Every call keeps the heap well-formed *)

Lemma load_nil h p : deref h p = None → load p h = Panicked RuntimeError h.
Proof. unfold load. by intros ->. Qed.

Lemma get_size_nil h p : deref h p = None → get_size p h = Panicked RuntimeError h.
Proof. intros Hp. unfold get_size. by rewrite (bind_panicked _ _ _ _ _ (load_nil _ _ Hp)). Qed.

Lemma len_data_nil h p : deref h p = None → len_data p h = Panicked RuntimeError h.
Proof. intros Hp. unfold len_data. by rewrite (bind_panicked _ _ _ _ _ (load_nil _ _ Hp)). Qed.

Lemma heap_of_discard {A} (m : M A) h : heap_of (discard m h) = heap_of (m h).
Proof. unfold discard, bind. by destruct (m h). Qed.

Lemma wf_write_bit sz d idx b :
  wf (mkBitArray sz d) → 0 ≤ idx < sz → wf (mkBitArray sz (write_bit d idx b)).
Proof.
  intros Hwf Hidx. pose proof (wf_cover _ Hwf) as Hcov. simpl in Hcov.
  split; simpl.
  - apply (wf_size _ Hwf).
  - rewrite length_write_bit. apply (wf_len _ Hwf).
  - apply bytes_ok_write_bit, (wf_bytes _ Hwf).
  - intros j Hj. unfold bit. simpl. rewrite bit_of_write_bit by lia.
    rewrite bool_decide_eq_false_2 by lia. by apply (wf_pad _ Hwf).
Qed.

Lemma checked_write_safe (b : bool) h p idx :
  heap_wf h →
  heap_wf (heap_of ((checkIdx p idx;; if b then set p idx else unset p idx) h)).
Proof.
  intros Hh. destruct (deref h p) as [v|] eqn:Hv.
  - pose proof (heap_wf_deref _ _ _ Hh Hv) as Hwf.
    pose proof (wf_cover _ Hwf) as Hcov.
    destruct (decide (0 ≤ idx < size v)) as [Hidx|Hidx].
    + rewrite (bind_ok _ _ _ _ _ (checkIdx_ok _ _ _ _ Hv Hidx)).
      rewrite (write_ok b _ _ _ idx Hv ltac:(lia)). simpl.
      apply heap_wf_update; [done|]. apply wf_write_bit; [|done]. by rewrite mk_eta.
    + by rewrite (bind_panicked _ _ _ _ _ (checkIdx_panic _ _ _ _ Hv Hidx)).
  - unfold checkIdx. rewrite bind_assoc.
    by rewrite (bind_panicked _ _ _ _ _ (get_size_nil _ _ Hv)).
Qed.

Lemma Set_safe h p idx : heap_wf h → heap_wf (heap_of (Set_ p idx h)).
Proof. apply (checked_write_safe true). Qed.

Lemma Unset_safe h p idx : heap_wf h → heap_wf (heap_of (Unset p idx h)).
Proof. apply (checked_write_safe false). Qed.

Lemma Clear_safe h p : heap_wf h → heap_wf (heap_of (Clear p h)).
Proof.
  intros Hh. destruct (deref h p) as [v|] eqn:Hv.
  - pose proof (heap_wf_deref _ _ _ Hh Hv) as Hwf.
    rewrite (Clear_ok _ _ _ Hv Hwf). simpl.
    apply heap_wf_update; [done|]. apply wf_zero_array, (wf_size _ Hwf).
  - unfold Clear. by rewrite (bind_panicked _ _ _ _ _ (len_data_nil _ _ Hv)).
Qed.

Lemma SetAll_safe h p : heap_wf h → heap_wf (heap_of (SetAll p h)).
Proof.
  intros Hh. destruct (deref h p) as [v|] eqn:Hv.
  - pose proof (heap_wf_deref _ _ _ Hh Hv) as Hwf.
    destruct (SetAll_ok _ _ _ Hv Hwf) as (v' & -> & _ & Hwf' & _). simpl.
    by apply heap_wf_update.
  - unfold SetAll. by rewrite (bind_panicked _ _ _ _ _ (get_size_nil _ _ Hv)).
Qed.

Lemma Not_safe h p : heap_wf h → heap_wf (heap_of (Not p h)).
Proof.
  intros Hh. destruct (deref h p) as [v|] eqn:Hv.
  - pose proof (heap_wf_deref _ _ _ Hh Hv) as Hwf.
    destruct (Not_ok _ _ _ Hv Hwf) as (v' & -> & _ & Hwf' & _). simpl.
    by apply heap_wf_update.
  - unfold Not. by rewrite (bind_panicked _ _ _ _ _ (len_data_nil _ _ Hv)).
Qed.

Lemma checkSize_nil h ba other :
  deref h ba = None ∨ deref h other = None →
  checkSize ba other h = Panicked RuntimeError h.
Proof.
  intros Hnil. unfold checkSize. destruct (deref h ba) as [v|] eqn:Hv.
  - destruct Hnil as [?|Hw]; [done|].
    rewrite (bind_ok _ _ _ _ _ (get_size_ok _ _ _ Hv)).
    by rewrite (bind_panicked _ _ _ _ _ (get_size_nil _ _ Hw)).
  - by rewrite (bind_panicked _ _ _ _ _ (get_size_nil _ _ Hv)).
Qed.

(** The four binary operators share their panics; what differs is the
    result on operands of equal size. *)
Lemma binop_safe (opname : ptr → ptr → M unit) op tail h ba other :
  opname = (fun ba other => bytewise ba other op (tail ba other)) →
  (∀ v w, deref h ba = Some v → deref h other = Some w → wf v → wf w →
          size v = size w →
          ∃ v', opname ba other h = Ok tt (update h ba v') ∧ wf v') →
  heap_wf h → heap_wf (heap_of (opname ba other h)).
Proof.
  intros Hname Hok Hh.
  destruct (deref h ba) as [v|] eqn:Hv; [destruct (deref h other) as [w|] eqn:Hw|].
  - pose proof (heap_wf_deref _ _ _ Hh Hv) as Hwfv.
    pose proof (heap_wf_deref _ _ _ Hh Hw) as Hwfw.
    destruct (decide (size v = size w)) as [Hs|Hs].
    + destruct (Hok v w eq_refl eq_refl Hwfv Hwfw Hs) as (v' & -> & Hwf'). simpl.
      by apply heap_wf_update.
    + rewrite Hname. by rewrite (bytewise_panic _ _ _ _ _ _ _ Hv Hw Hs).
  - rewrite Hname. unfold bytewise.
    by rewrite (bind_panicked _ _ _ _ _ (checkSize_nil _ _ _ (or_intror Hw))).
  - rewrite Hname. unfold bytewise.
    by rewrite (bind_panicked _ _ _ _ _ (checkSize_nil _ _ _ (or_introl Hv))).
Qed.

Lemma And_safe h ba other : heap_wf h → heap_wf (heap_of (And ba other h)).
Proof.
  eapply (binop_safe And); [reflexivity|].
  intros v w Hv Hw Hwfv Hwfw Hs.
  destruct (And_ok _ _ _ _ _ Hv Hw Hwfv Hwfw Hs) as (v' & ? & _ & ? & _). by exists v'.
Qed.

Lemma Or_safe h ba other : heap_wf h → heap_wf (heap_of (Or ba other h)).
Proof.
  eapply (binop_safe Or); [reflexivity|].
  intros v w Hv Hw Hwfv Hwfw Hs.
  destruct (Or_ok _ _ _ _ _ Hv Hw Hwfv Hwfw Hs) as (v' & ? & _ & ? & _). by exists v'.
Qed.

Lemma Xor_safe h ba other : heap_wf h → heap_wf (heap_of (Xor ba other h)).
Proof.
  eapply (binop_safe Xor); [reflexivity|].
  intros v w Hv Hw Hwfv Hwfw Hs.
  destruct (Xor_ok _ _ _ _ _ Hv Hw Hwfv Hwfw Hs) as (v' & ? & _ & ? & _). by exists v'.
Qed.

Lemma AndNot_safe h ba other : heap_wf h → heap_wf (heap_of (AndNot ba other h)).
Proof.
  eapply (binop_safe AndNot); [reflexivity|].
  intros v w Hv Hw Hwfv Hwfw Hs.
  destruct (AndNot_ok _ _ _ _ _ Hv Hw Hwfv Hwfw Hs) as (v' & ? & _ & ? & _). by exists v'.
Qed.

Lemma Rotate_safe h p n : heap_wf h → heap_wf (heap_of (Rotate p n h)).
Proof.
  intros Hh. destruct (deref h p) as [v|] eqn:Hv.
  - pose proof (heap_wf_deref _ _ _ Hh Hv) as Hwf.
    destruct (Rotate_ok _ _ _ n Hv Hwf) as (v' & g & -> & Hg & _ & Hwf' & _). simpl.
    apply Forall_app. split; [by apply heap_wf_update|done].
  - unfold Rotate. by rewrite (bind_panicked _ _ _ _ _ (get_size_nil _ _ Hv)).
Qed.

Lemma Shift_safe h p n : is_int n → heap_wf h → heap_wf (heap_of (Shift p n h)).
Proof.
  intros Hn Hh. destruct (deref h p) as [v|] eqn:Hv.
  - pose proof (heap_wf_deref _ _ _ Hh Hv) as Hwf.
    destruct (decide (n = min_int)) as [->|Hne].
    + by rewrite (Shift_min_int _ _ _ Hv Hwf).
    + destruct (Shift_ok _ _ _ n Hv Hwf ltac:(unfold is_int in Hn; lia))
        as (v' & -> & _ & Hwf' & _). simpl.
      by apply heap_wf_update.
  - unfold Shift. by rewrite (bind_panicked _ _ _ _ _ (get_size_nil _ _ Hv)).
Qed.

Lemma Clone_safe h p : heap_wf h → heap_wf (heap_of (Clone p h)).
Proof.
  intros Hh. unfold Clone. destruct (deref h p) as [v|] eqn:Hv.
  - rewrite (bind_ok _ _ _ _ _ (load_ok _ _ _ Hv)). simpl.
    apply heap_wf_alloc; [done|]. rewrite mk_eta. by eapply heap_wf_deref.
  - by rewrite (bind_panicked _ _ _ _ _ (load_nil _ _ Hv)).
Qed.

Lemma Slice_safe h p start end_ :
  is_int start → is_int end_ → heap_wf h → heap_wf (heap_of (Slice p start end_ h)).
Proof.
  intros Hs He Hh. destruct (deref h p) as [v|] eqn:Hv.
  - pose proof (heap_wf_deref _ _ _ Hh Hv) as Hwf.
    pose proof (wf_size _ Hwf) as Hsize.
    destruct (decide (0 ≤ start < size v)) as [Hstart|Hstart];
      [|by rewrite (Slice_start_panic _ _ _ _ _ Hv Hstart)].
    destruct (decide (0 ≤ end_ - 1 < size v)) as [Hend|Hend];
      [|by rewrite (Slice_end_panic _ _ _ _ _ Hv ltac:(lia) He Hstart Hend)].
    destruct (decide (start < end_)) as [Hlt|Hlt].
    + destruct (Slice_ok _ _ _ _ _ Hv Hwf Hstart Hend Hlt) as (r & -> & Hwfr & _). simpl.
      by apply heap_wf_alloc.
    + by rewrite (Slice_size_panic _ _ _ _ _ Hv ltac:(lia) Hstart Hend ltac:(lia)).
  - unfold Slice, checkIdx. rewrite !bind_assoc.
    by rewrite (bind_panicked _ _ _ _ _ (get_size_nil _ _ Hv)).
Qed.

Lemma Concat_safe h p q : heap_wf h → heap_wf (heap_of (Concat p q h)).
Proof.
  intros Hh.
  destruct (deref h p) as [v|] eqn:Hv; [destruct (deref h q) as [w|] eqn:Hw|].
  - pose proof (heap_wf_deref _ _ _ Hh Hv) as Hwfv.
    pose proof (heap_wf_deref _ _ _ Hh Hw) as Hwfw.
    pose proof (wf_size _ Hwfv) as Hsv. pose proof (wf_size _ Hwfw) as Hsw.
    destruct (decide (size v + size w ≤ max_int)) as [Hsum|Hsum].
    + destruct (Concat_ok _ _ _ _ _ Hv Hw Hwfv Hwfw Hsum) as (r & -> & Hwfr & _). simpl.
      by apply heap_wf_alloc.
    + (* the sum of the sizes wraps around to a negative [int] *)
      unfold Concat.
      rewrite (bind_ok _ _ _ _ _ (get_size_ok _ _ _ Hv)).
      rewrite (bind_ok _ _ _ _ _ (get_size_ok _ _ _ Hw)).
      rewrite (bind_panicked _ _ h (PanicString "size must be > 0") h); [done|].
      apply New_size_panic. unfold add, wrap, int_bits. simpl Z.sub.
      change (2 ^ 64) with 18446744073709551616.
      change (2 ^ 63) with 9223372036854775808. int_lia.
  - unfold Concat. rewrite (bind_ok _ _ _ _ _ (get_size_ok _ _ _ Hv)).
    by rewrite (bind_panicked _ _ _ _ _ (get_size_nil _ _ Hw)).
  - unfold Concat. by rewrite (bind_panicked _ _ _ _ _ (get_size_nil _ _ Hv)).
Qed.

Lemma for_range_safe {A} (l : list A) (body : A → M unit) h :
  (∀ x h, heap_wf h → heap_wf (heap_of (body x h))) →
  heap_wf h → heap_wf (heap_of (for_range l body h)).
Proof.
  intros Hbody. revert h. induction l as [|x l IH]; intros h Hh; simpl; [done|].
  specialize (Hbody x h Hh) as Hx. unfold bind.
  destruct (body x h) as [[] h'|e h']; simpl in *; [by apply IH|done].
Qed.

Lemma New_safe h sz idx : is_int sz → heap_wf h → heap_wf (heap_of (New sz idx h)).
Proof.
  intros Hsz Hh. destruct (decide (sz ≤ 0)) as [Hneg|Hpos].
  - by rewrite (New_size_panic _ _ _ Hneg).
  - assert (Hs : 0 < sz ≤ max_int) by (unfold is_int in Hsz; lia).
    rewrite (New_unfold sz idx h Hs).
    pose proof (for_range_safe idx (fun i => Set_ (S (length h)) i)
      (h ++ [zero_array sz])) as Hloop.
    unfold bind.
    destruct (for_range idx _ (h ++ [zero_array sz])) as [[] h2|e h2]; simpl in *;
      apply Hloop; try (intros; by apply Set_safe);
      by apply heap_wf_alloc, wf_zero_array.
Qed.

Lemma Parse_loop_safe rs h0 :
  let n := Z.of_nat (length rs) in
  let p := S (length h0) in
  n ≤ max_int → heap_wf h0 →
  ∀ rest pre d,
    pre ++ rest = rs → wf (mkBitArray n d) →
    heap_wf (heap_of (Parse_loop p n (Z.of_nat (length pre)) rest
                        (h0 ++ [mkBitArray n d]))).
Proof.
  intros n p Hmax Hh rest.
  induction rest as [|c rest IH]; intros pre d Hrs Hwf; simpl.
  - by apply heap_wf_alloc.
  - assert (Hi : Z.of_nat (length pre) < n).
    { unfold n. rewrite <- Hrs, length_app. simpl. lia. }
    assert (Hpre : (pre ++ [c]) ++ rest = rs) by (by rewrite <- app_assoc).
    assert (Hlenpre : Z.of_nat (length (pre ++ [c])) = Z.of_nat (length pre) + 1).
    { rewrite length_app. simpl. lia. }
    pose proof (wf_cover _ Hwf) as Hcov. simpl in Hcov.
    case_bool_decide as Hc1; [|case_bool_decide as Hc0].
    + rewrite (sub_id n 1) by int_lia. rewrite sub_id by int_lia.
      assert (Hp : deref (h0 ++ [mkBitArray n d]) p = Some (mkBitArray n d))
        by apply deref_app_new.
      rewrite (bind_ok _ _ _ _ _ (set_ok _ _ _ (n - 1 - Z.of_nat (length pre)) Hp
        ltac:(simpl; lia))).
      unfold p. rewrite update_app_new. simpl. rewrite <- Hlenpre.
      apply IH; [done|]. apply wf_write_bit; [done|lia].
    + by apply heap_wf_alloc.
    + rewrite <- Hlenpre. by apply IH.
Qed.

Lemma length_runes_le s :
  (length (runes_without_spaces s) ≤ String.length s)%nat.
Proof.
  unfold runes_without_spaces.
  etransitivity; [apply length_filter|].
  induction s as [|c s IH]; simpl; lia.
Qed.

Lemma Parse_safe h s :
  Z.of_nat (String.length s) ≤ max_int → heap_wf h → heap_wf (heap_of (Parse s h)).
Proof.
  intros Hlen Hh. unfold Parse. pose proof (length_runes_le s) as Hle.
  set (rs := runes_without_spaces s) in *.
  destruct (decide (length rs = 0)%nat) as [H0|H0].
  - rewrite H0. by rewrite (bind_panicked _ _ _ _ _ (New_size_panic 0 [] h ltac:(lia))).
  - rewrite (bind_ok _ _ _ _ _ (New_ok (Z.of_nat (length rs)) h ltac:(lia))).
    apply (Parse_loop_safe rs h ltac:(lia) Hh rs []); [done|].
    apply wf_zero_array. lia.
Qed.

Lemma run_call_safe c h :
  call_ok c → heap_wf h → heap_wf (heap_of (run_call c h)).
Proof.
  destruct c; simpl; intros Hok Hh; rewrite ?heap_of_discard.
  - destruct Hok. by apply New_safe.
  - by apply Parse_safe.
  - by apply Clone_safe.
  - destruct Hok. by apply Slice_safe.
  - by apply Concat_safe.
  - by apply Set_safe.
  - by apply Unset_safe.
  - by apply Clear_safe.
  - by apply SetAll_safe.
  - by apply And_safe.
  - by apply Or_safe.
  - by apply Xor_safe.
  - by apply AndNot_safe.
  - by apply Not_safe.
  - by apply Rotate_safe.
  - by apply Shift_safe.
Qed.

Lemma run_calls_safe cs h :
  Forall call_ok cs → heap_wf h → heap_wf (run_calls cs h).
Proof.
  intros Hcs. revert h. induction Hcs as [|c cs Hc _ IH]; intros h Hh; simpl; [done|].
  apply IH. by apply run_call_safe.
Qed.

(** ** Observing bits and counts through the API *)

(** [Get] on a valid index reads the logical bit. *)
Lemma Get_ok h p v i :
  deref h p = Some v → wf v → 0 ≤ i < size v → Get p i h = Ok (bit v i) h.
Proof.
  intros Hv Hwf Hi. unfold Get. pose proof (wf_cover _ Hwf).
  rewrite (bind_ok _ _ _ _ _ (checkIdx_ok _ _ _ _ Hv Hi)).
  apply get_ok; [done|lia].
Qed.

Lemma Get_panic h p v i :
  deref h p = Some v → ¬ (0 ≤ i < size v) →
  Get p i h = Panicked (PanicString "index out of range") h.
Proof.
  intros Hv Hi. unfold Get.
  by rewrite (bind_panicked _ _ _ _ _ (checkIdx_panic _ _ _ _ Hv Hi)).
Qed.

(** A cyclic rotation keeps the count, whatever its direction. *)
Lemma ones_cyclic f g sz r :
  0 < sz → - sz < r < sz →
  (∀ i, 0 ≤ i < sz → g ((i + r) `mod` sz) = f i) →
  ones g 0 sz = ones f 0 sz.
Proof.
  intros Hsz Hr Hrot.
  set (k := if bool_decide (r < 0) then r + sz else r).
  apply (ones_rotate f g sz k).
  - unfold k. case_bool_decide; lia.
  - intros j Hj. rewrite <- (Hrot (j + sz - k)) by (unfold k in *; case_bool_decide; lia).
    f_equal. rewrite mod_cycle by (unfold k in *; case_bool_decide; lia).
    unfold k in *. repeat case_bool_decide; lia.
  - intros j Hj. rewrite <- (Hrot (j - k)) by (unfold k in *; case_bool_decide; lia).
    f_equal. rewrite mod_cycle by (unfold k in *; case_bool_decide; lia).
    unfold k in *. repeat case_bool_decide; lia.
Qed.

(** A shift loses bits or keeps them, it never adds any. *)
Lemma ones_shifted f g sz n :
  0 < sz →
  (∀ j, g j = bool_decide (moved sz n j) && f (j - n)) →
  ones g 0 sz ≤ ones f 0 sz.
Proof.
  intros Hsz Hg. unfold moved in Hg.
  destruct (decide (- sz < n < sz)) as [Hn|Hn].
  - destruct (decide (0 ≤ n)) as [Hpos|Hneg].
    + assert (HL : ones g 0 sz = ones g 0 n + ones g (n + 0) (sz - n)).
      { replace (n + 0) with (0 + n) by lia.
        rewrite <- ones_split by lia. f_equal. lia. }
      assert (HR : ones f 0 sz = ones f 0 (sz - n) + ones f (0 + (sz - n)) n).
      { rewrite <- ones_split by lia. f_equal. lia. }
      rewrite HL, HR. rewrite (ones_false g 0 n).
      2:{ intros j Hj. rewrite Hg. by rewrite bool_decide_eq_false_2 by lia. }
      rewrite (ones_shift g n 0).
      rewrite (ones_ext (fun j => g (n + j)) f 0 (sz - n)).
      2:{ intros j Hj. rewrite Hg. rewrite bool_decide_eq_true_2 by lia.
          simpl. f_equal. lia. }
      pose proof (ones_bounds f (0 + (sz - n)) n ltac:(lia)). lia.
    + assert (HL : ones g 0 sz = ones g 0 (sz + n) + ones g (0 + (sz + n)) (- n)).
      { rewrite <- ones_split by lia. f_equal. lia. }
      assert (HR : ones f 0 sz = ones f 0 (- n) + ones f (- n + 0) (sz + n)).
      { replace (- n + 0) with (0 + - n) by lia.
        rewrite <- ones_split by lia. f_equal. lia. }
      rewrite HL, HR. rewrite (ones_false g (0 + (sz + n)) (- n)).
      2:{ intros j Hj. rewrite Hg. by rewrite bool_decide_eq_false_2 by lia. }
      rewrite (ones_shift f (- n) 0).
      rewrite (ones_ext g (fun j => f (- n + j)) 0 (sz + n)).
      2:{ intros j Hj. rewrite Hg. rewrite bool_decide_eq_true_2 by lia.
          simpl. f_equal. lia. }
      pose proof (ones_bounds f 0 (- n) ltac:(lia)). lia.
  - rewrite (ones_false g 0 sz).
    + apply ones_bounds. lia.
    + intros j Hj. rewrite Hg. by rewrite bool_decide_eq_false_2 by lia.
Qed.

(** * Properties of the package *)

Lemma wf_sample : wf sample.
Proof. apply valid_wf. vm_compute. reflexivity. Qed.

Lemma wf_sample4 : wf sample4.
Proof. apply valid_wf. vm_compute. reflexivity. Qed.

Lemma wf_sample_second : wf (mkBitArray 10 [6; 1]).
Proof. apply valid_wf. vm_compute. reflexivity. Qed.

Lemma sample_calls_ok : Forall call_ok sample_calls.
Proof. unfold sample_calls. repeat constructor; simpl; int_lia. Qed.

(** C1. Padding invariant: whatever sequence of constructor calls and
    mutating calls a client makes, starting from nothing and also when it
    recovers from panics in between, every bit array [v] in the heap is
    well-formed; in particular all its storage bits at positions [>= size]
    are 0.  On such an array [SetAll] returns and leaves a well-formed
    array whose last byte is the mask [2^(size mod 8) - 1] when the size is
    not a multiple of 8, and [Not] returns, complements every bit below the
    size and leaves the bits from the size on at 0. *)
Theorem C1_padding_invariant cs p v :
  Forall call_ok cs → deref (run_calls cs []) p = Some v →
  wf v
  ∧ (∀ j, size v ≤ j → bit v j = false)
  ∧ (∃ v', SetAll p (run_calls cs []) = Ok tt (update (run_calls cs []) p v')
           ∧ (∀ j, size v ≤ j → bit v' j = false)
           ∧ (size v `mod` 8 ≠ 0 → last (data v') = Some (2 ^ (size v `mod` 8) - 1)))
  ∧ (∃ v', Not p (run_calls cs []) = Ok tt (update (run_calls cs []) p v')
           ∧ (∀ j, 0 ≤ j < size v → bit v' j = negb (bit v j))
           ∧ (∀ j, size v ≤ j → bit v' j = false)).
Proof.
  intros Hcs Hv.
  assert (Hh : heap_wf (run_calls cs [])) by (apply run_calls_safe; [done|constructor]).
  pose proof (heap_wf_deref _ _ _ Hh Hv) as Hwf.
  split; [done|]. split; [apply (wf_pad _ Hwf)|]. split.
  - destruct (SetAll_ok _ _ _ Hv Hwf) as (v' & Hrun & Hs & Hwf' & _ & Hlast).
    exists v'. split; [done|]. split.
    + intros j Hj. apply (wf_pad _ Hwf'). lia.
    + intros Hrem. rewrite Hlast. unfold last_mask.
      by rewrite bool_decide_eq_false_2.
  - destruct (Not_ok _ _ _ Hv Hwf) as (v' & Hrun & Hs & Hwf' & Hbits).
    exists v'. split; [done|]. split; [done|].
    intros j Hj. apply (wf_pad _ Hwf'). lia.
Qed.


Lemma C1_padding_invariant_witness :
  Forall call_ok sample_calls
  ∧ deref (run_calls sample_calls []) 2%nat = Some (mkBitArray 6 [63])
  ∧ wf (mkBitArray 6 [63]).
Proof.
  assert (Hv : deref (run_calls sample_calls []) 2%nat = Some (mkBitArray 6 [63]))
    by (vm_compute; reflexivity).
  split; [exact sample_calls_ok|]. split; [exact Hv|].
  exact (proj1 (C1_padding_invariant sample_calls 2%nat _ sample_calls_ok Hv)).
Defined.

(** C2. Bitwise algebra: for a receiver [v] and an argument [w] of the
    same size, each of [And], [Or], [Xor], [AndNot] returns normally and
    leaves at the receiver's address an array of the same size whose bit
    [i], for every [i] in [0, size), is the AND, OR, XOR, AND-NOT of the
    receiver's old bit [i] and the argument's bit [i]; the argument (when it
    is another object than the receiver) is unchanged.  When the sizes
    differ each of them panics with the size-mismatch message and the heap
    is as before the call.  [Not] complements exactly the bits below the
    size. *)
Theorem C2_bitwise_algebra h ba other v w :
  deref h ba = Some v → deref h other = Some w → wf v → wf w →
  (size v = size w →
     combines And andb h ba other v w
     ∧ combines Or orb h ba other v w
     ∧ combines Xor xorb h ba other v w
     ∧ combines AndNot (fun b1 b2 => b1 && negb b2) h ba other v w)
  ∧ (size v ≠ size w →
     And ba other h = Panicked size_mismatch h
     ∧ Or ba other h = Panicked size_mismatch h
     ∧ Xor ba other h = Panicked size_mismatch h
     ∧ AndNot ba other h = Panicked size_mismatch h)
  ∧ (∃ v', Not ba h = Ok tt (update h ba v')
           ∧ size v' = size v
           ∧ (∀ i, 0 ≤ i < size v → bit v' i = negb (bit v i))
           ∧ (∀ i, size v ≤ i → bit v' i = bit v i)).
Proof.
  intros Hv Hw Hwfv Hwfw. split; [|split].
  - intros Hs.
    assert (Hframe : ∀ v', ba ≠ other → deref (update h ba v') other = Some w).
    { intros v' Hne. by rewrite deref_update_ne. }
    destruct (And_ok _ _ _ _ _ Hv Hw Hwfv Hwfw Hs) as (v1 & ? & ? & ? & ?).
    destruct (Or_ok _ _ _ _ _ Hv Hw Hwfv Hwfw Hs) as (v2 & ? & ? & ? & ?).
    destruct (Xor_ok _ _ _ _ _ Hv Hw Hwfv Hwfw Hs) as (v3 & ? & ? & ? & ?).
    destruct (AndNot_ok _ _ _ _ _ Hv Hw Hwfv Hwfw Hs) as (v4 & ? & ? & ? & ?).
    split; [|split; [|split]].
    + exists v1. repeat (split; [done|]). apply Hframe.
    + exists v2. repeat (split; [done|]). apply Hframe.
    + exists v3. repeat (split; [done|]). apply Hframe.
    + exists v4. repeat (split; [done|]). apply Hframe.
  - intros Hs. unfold size_mismatch, And, Or, Xor, AndNot.
    by rewrite !(bytewise_panic _ _ _ _ _ _ _ Hv Hw Hs).
  - destruct (Not_ok _ _ _ Hv Hwfv) as (v' & Hrun & Hs & Hwf' & Hbits).
    exists v'. split; [done|]. split; [done|]. split; [done|].
    intros i Hi. rewrite (wf_pad _ Hwfv) by done. apply (wf_pad _ Hwf'). lia.
Qed.

Lemma C2_bitwise_algebra_witness :
  deref sample_heap 1%nat = Some sample
  ∧ deref sample_heap 2%nat = Some (mkBitArray 10 [6; 1])
  ∧ combines Xor xorb sample_heap 1%nat 2%nat sample (mkBitArray 10 [6; 1]).
Proof.
  split; [reflexivity|]. split; [reflexivity|].
  apply (C2_bitwise_algebra sample_heap 1%nat 2%nat sample (mkBitArray 10 [6; 1])
           eq_refl eq_refl wf_sample wf_sample_second).
  reflexivity.
Defined.

(** C3. Rotate: with [r = n % size] (Go's remainder, which has the sign of
    [n]), [Rotate n] returns normally and leaves at the receiver's address
    an array of the same size in which the bit at index [(i + r) mod size]
    is the old bit [i], for every [i] in [0, size): a left rotation for
    [r > 0], a right rotation by [|r|] for [r < 0], the identity for
    [r = 0].  [Count] gives the same number before and after. *)
Theorem C3_rotate h ba v n :
  deref h ba = Some v → wf v →
  ∃ v' h' c,
    Rotate ba n h = Ok tt h'
    ∧ deref h' ba = Some v'
    ∧ size v' = size v ∧ wf v'
    ∧ (∀ i, 0 ≤ i < size v → bit v' ((i + n %i size v) `mod` size v) = bit v i)
    ∧ (n %i size v = 0 → v' = v)
    ∧ Count ba h = Ok c h ∧ Count ba h' = Ok c h'.
Proof.
  intros Hv Hwf. pose proof (wf_size _ Hwf) as Hsize.
  destruct (Rotate_ok _ _ _ n Hv Hwf) as (v' & g & Hrun & Hg & Hs & Hwf' & Hbits).
  assert (Hv' : deref (update h ba v' ++ g) ba = Some v').
  { destruct g as [|a g].
    - rewrite app_nil_r. by eapply deref_update_eq.
    - destruct ba as [|k]; [done|]. simpl in *.
      rewrite lookup_app_l.
      + apply list_lookup_insert_eq. by eapply lookup_lt_Some.
      + rewrite length_insert. by eapply lookup_lt_Some. }
  exists v', (update h ba v' ++ g), (ones (bit v) 0 (size v)).
  split; [done|]. split; [done|]. split; [done|]. split; [done|].
  split; [done|]. split.
  - intros Hr. apply wf_ext; try done. intros j Hj. rewrite Hs in Hj.
    rewrite <- (Hbits j Hj). rewrite Hr. f_equal.
    rewrite Z.add_0_r. symmetry. apply Z.mod_small. lia.
  - split; [by apply Count_ok|].
    rewrite (Count_ok _ _ _ Hv' Hwf'). f_equal. rewrite Hs.
    apply (ones_cyclic (bit v) (bit v') (size v) (n %i size v)); [lia|lia|done].
Qed.

Lemma C3_rotate_witness :
  deref sample_heap 1%nat = Some sample
  ∧ ∃ v' h' c,
      Rotate 1%nat (-12) sample_heap = Ok tt h' ∧ deref h' 1%nat = Some v'
      ∧ Count 1%nat sample_heap = Ok c sample_heap ∧ Count 1%nat h' = Ok c h'.
Proof.
  split; [reflexivity|].
  destruct (C3_rotate sample_heap 1%nat sample (-12) eq_refl wf_sample)
    as (v' & h' & c & H1 & H2 & _ & _ & _ & _ & H3 & H4).
  by exists v', h', c.
Defined.

(** X18. [Shift] by any count but the smallest [int]: shifted out or cleared
    when [|n| >= size], bit [i - n] moved to [i] otherwise, zeros filled
    in, the array unchanged for [n = 0], and a count that does not grow. *)
Lemma Shift_spec h ba v n :
  deref h ba = Some v → wf v → min_int < n ≤ max_int →
  ∃ v' c c',
    Shift ba n h = Ok tt (update h ba v')
    ∧ size v' = size v ∧ wf v'
    ∧ (size v ≤ Z.abs n → ∀ i, bit v' i = false)
    ∧ (0 < n < size v → ∀ i, 0 ≤ i < size v →
         bit v' i = if bool_decide (n ≤ i) then bit v (i - n) else false)
    ∧ (- size v < n < 0 → ∀ i, 0 ≤ i < size v →
         bit v' i = if bool_decide (i + Z.abs n < size v) then bit v (i + Z.abs n)
                    else false)
    ∧ (n = 0 → v' = v)
    ∧ Count ba h = Ok c h ∧ Count ba (update h ba v') = Ok c' (update h ba v')
    ∧ c' ≤ c.
Proof.
  intros Hv Hwf Hn. pose proof (wf_size _ Hwf) as Hsize.
  destruct (Shift_ok _ _ _ n Hv Hwf Hn) as (v' & Hrun & Hs & Hwf' & Hbits).
  exists v', (ones (bit v) 0 (size v)), (ones (bit v') 0 (size v')).
  split; [done|]. split; [done|]. split; [done|]. unfold moved in Hbits.
  split; [|split; [|split; [|split; [|split; [|split]]]]].
  - intros Habs i. rewrite Hbits. by rewrite bool_decide_eq_false_2 by lia.
  - intros Hpos i Hi. rewrite Hbits. repeat case_bool_decide; try lia; done.
  - intros Hneg i Hi. rewrite Hbits. replace (i - n) with (i + Z.abs n) by lia.
    destruct (decide (i + Z.abs n < size v)).
    + by rewrite !bool_decide_eq_true_2 by lia.
    + by rewrite !bool_decide_eq_false_2 by lia.
  - intros ->. apply wf_ext; try done. intros j Hj. rewrite Hbits.
    rewrite bool_decide_eq_true_2 by lia. simpl. f_equal. lia.
  - by apply Count_ok.
  - apply Count_ok; [|done]. by eapply deref_update_eq.
  - rewrite Hs. apply (ones_shifted (bit v) (bit v') (size v) n); [lia|done].
Qed.

(** C4. Shift by the smallest [int]: the negation in the guard
    [-n >= ba.size] overflows and gives the smallest [int] back, so the
    array is not cleared although [|n| >= size]; [moveBits] returns a
    negative start and the call panics with a run-time error on a negative
    index, here for the four-bit array 0001.  For every other count the
    array is shifted or cleared ([Shift_spec]). *)
Theorem C4_shift_min_int_panics :
  deref sample_heap 3%nat = Some sample4
  ∧ Shift 3%nat (-9223372036854775808) sample_heap = Panicked RuntimeError sample_heap.
Proof.
  split; [reflexivity|].
  apply (Shift_min_int sample_heap 3%nat sample4); [reflexivity|exact wf_sample4].
Qed.



(** Whatever [int] and byte slice were encoded, [UnmarshalBinary] stores
    them as they are and ignores the bytes that follow. *)
Lemma Unmarshal_encoded {G : Gob} {HG : GobLaws G} h q w sz d rest :
  deref h q = Some w → is_int sz → bytes_ok d → Z.of_nat (length d) ≤ max_int →
  ∃ b1 b2, gob_encode_int sz = Success b1 ∧ gob_encode_bytes d = Success b2
           ∧ UnmarshalBinary q (b1 ++ b2 ++ rest) h
             = Ok None (update h q (mkBitArray sz d)).
Proof.
  intros Hq Hsz Hd Hlen.
  destruct (gob_encode_int_total sz Hsz) as [b1 Hb1].
  destruct (gob_encode_bytes_total d Hd Hlen) as [b2 Hb2].
  exists b1, b2. split; [done|]. split; [done|].
  apply (UnmarshalBinary_decoded h q w _ _ (b2 ++ rest) _ rest); [done| |].
  - by apply gob_decode_encode_int.
  - by apply gob_decode_encode_bytes.
Qed.

(** C6. Binary round trip, for any gob that meets [GobLaws]: for a
    well-formed array [v], [MarshalBinary] returns bytes and no error;
    [UnmarshalBinary] of these bytes into any bit array returns no error and
    leaves the record [v] there; on these bytes cut short anywhere it
    returns a (non-nil) error.  It validates nothing of what it decodes:
    the encoding of any [int] followed by the encoding of any byte slice,
    and by any further bytes, is accepted without error and stored as it
    is, whether or not the size is positive and fits the storage. *)
Theorem C6_binary_round_trip {G : Gob} {HG : GobLaws G} h ba v q w :
  deref h ba = Some v → wf v → deref h q = Some w →
  ∃ b, MarshalBinary ba h = Ok (Success b) h
       ∧ UnmarshalBinary q b h = Ok None (update h q v)
       ∧ deref (update h q v) q = Some v
       ∧ (∀ b', truncation_of b' b →
            ∃ e h', UnmarshalBinary q b' h = Ok (Some e) h')
       ∧ (∀ sz d rest, is_int sz → bytes_ok d → Z.of_nat (length d) ≤ max_int →
            ∃ b1 b2, gob_encode_int sz = Success b1 ∧ gob_encode_bytes d = Success b2
                     ∧ UnmarshalBinary q (b1 ++ b2 ++ rest) h
                       = Ok None (update h q (mkBitArray sz d))).
Proof.
  intros Hv Hwf Hq.
  destruct (MarshalBinary_ok h ba v Hv Hwf) as (b1 & b2 & Hb1 & Hb2 & Hm).
  exists (b1 ++ b2). split; [done|]. split; [|split; [|split]].
  - by apply (Unmarshal_Marshal h ba v q w).
  - by eapply deref_update_eq.
  - intros b' Hb'. by apply (Unmarshal_truncated h ba v q w (b1 ++ b2)).
  - intros sz d rest Hsz Hd Hlen. by apply (Unmarshal_encoded h q w).
Qed.

Lemma C6_binary_round_trip_witness :
  deref sample_heap 1%nat = Some sample
  ∧ deref sample_heap 4%nat = Some zero_value
  ∧ ∃ b, @MarshalBinary le_gob 1%nat sample_heap = Ok (Success b) sample_heap
         ∧ @UnmarshalBinary le_gob 4%nat b sample_heap
           = Ok None (update sample_heap 4%nat sample).
Proof.
  split; [reflexivity|]. split; [reflexivity|].
  destruct (@C6_binary_round_trip le_gob le_gob_laws sample_heap 1%nat sample 4%nat
              zero_value eq_refl wf_sample eq_refl) as (b & H1 & H2 & _).
  by exists b.
Defined.

(** C6, malformed input that is accepted.  With the little-endian codec,
    the bytes that spell the size 5 followed by the three bytes 255, and
    those that spell the size -1 followed by no byte, are unmarshalled
    into a zero value without error, and leave there an array that is not
    well-formed (three bytes of storage, bits set above the size; a
    negative size).  With any gob that meets [GobLaws] there are bytes
    that leave the first of them. *)
Lemma C6_malformed_input_accepted :
  deref sample_heap 4%nat = Some zero_value
  ∧ valid odd_payload = false
  ∧ @UnmarshalBinary le_gob 4%nat
      [5; 0; 0; 0; 0; 0; 0; 0; 3; 0; 0; 0; 0; 0; 0; 0; 255; 255; 255] sample_heap
    = Ok None (update sample_heap 4%nat odd_payload)
  ∧ @UnmarshalBinary le_gob 4%nat
      [255; 255; 255; 255; 255; 255; 255; 255; 0; 0; 0; 0; 0; 0; 0; 0] sample_heap
    = Ok None (update sample_heap 4%nat (mkBitArray (-1) []))
  ∧ (∀ (G : Gob), GobLaws G →
       ∃ bytes, @UnmarshalBinary G 4%nat bytes sample_heap
                = Ok None (update sample_heap 4%nat odd_payload)).
Proof.
  split; [reflexivity|]. split; [vm_compute; reflexivity|].
  split; [vm_compute; reflexivity|]. split; [vm_compute; reflexivity|].
  intros G HG.
  destruct (@Unmarshal_encoded G HG sample_heap 4%nat zero_value 5 [255; 255; 255] [])
    as (b1 & b2 & _ & _ & Hrun).
  - reflexivity.
  - int_lia.
  - repeat constructor; unfold byte_ok; lia.
  - simpl. int_lia.
  - by exists (b1 ++ b2 ++ []).
Qed.

(** C7. Slice: when [start] or [end - 1] is not an index of [v], [Slice]
    panics with the index message and the heap is as before.  When both
    are and [start < end], it returns the address of a new object (one
    that did not exist before), of size [end - start], whose bit [k] is bit
    [start + k] of [v] for every [k] in [0, end - start); every object that
    existed before, [v] among them, is unchanged. *)
Theorem C7_slice h ba v start end_ :
  deref h ba = Some v → wf v → is_int start → is_int end_ →
  (¬ (0 ≤ start < size v ∧ 0 ≤ end_ - 1 < size v) →
     Slice ba start end_ h = Panicked (PanicString "index out of range") h)
  ∧ (0 ≤ start < size v → 0 ≤ end_ - 1 < size v → start < end_ →
     ∃ p r, Slice ba start end_ h = Ok p (h ++ [r])
            ∧ deref h p = None ∧ deref (h ++ [r]) p = Some r
            ∧ wf r ∧ size r = end_ - start
            ∧ (∀ k, 0 ≤ k < end_ - start → bit r k = bit v (start + k))
            ∧ (∀ q u, deref h q = Some u → deref (h ++ [r]) q = Some u)).
Proof.
  intros Hv Hwf Hs He. pose proof (wf_size _ Hwf) as Hsize. split.
  - intros Hbad. destruct (decide (0 ≤ start < size v)) as [Hstart|Hstart].
    + apply (Slice_end_panic _ _ v); try done; lia.
    + by apply (Slice_start_panic _ _ v).
  - intros Hstart Hend Hlt.
    destruct (Slice_ok _ _ _ _ _ Hv Hwf Hstart Hend Hlt) as (r & Hrun & Hwfr & Hsr & Hbits).
    exists (S (length h)), r. split; [done|]. split; [apply deref_fresh|].
    split; [apply deref_app_new|]. split; [done|]. split; [done|]. split; [done|].
    intros q u Hq. by apply deref_app_old.
Qed.

Lemma C7_slice_witness :
  deref sample_heap 1%nat = Some sample
  ∧ ∃ p r, Slice 1%nat 6 10 sample_heap = Ok p (sample_heap ++ [r])
           ∧ size r = 4
           ∧ (∀ k, 0 ≤ k < 10 - 6 → bit r k = bit sample (6 + k)).
Proof.
  split; [reflexivity|].
  destruct (C7_slice sample_heap 1%nat sample 6 10 eq_refl wf_sample
              ltac:(int_lia) ltac:(int_lia)) as [_ Hok].
  destruct Hok as (p & r & H1 & _ & _ & _ & H2 & H3 & _);
    [simpl; lia|simpl; lia|lia|].
  by exists p, r.
Defined.

(** C8. Concat: for well-formed [a] and [b] whose sizes add up to an
    [int], [Concat a b] returns the address of a new object of size
    [a.size + b.size] whose bit [k] is [b]'s bit [k] for [k] in [0, b.size)
    and [a]'s bit [k - b.size] for [k] in [b.size, a.size + b.size); its
    string is [a]'s string followed by [b]'s; every object that existed
    before, [a] and [b] among them, is unchanged. *)
Theorem C8_concat h ba1 ba2 a b :
  deref h ba1 = Some a → deref h ba2 = Some b → wf a → wf b →
  size a + size b ≤ max_int →
  ∃ p r sa sb,
    Concat ba1 ba2 h = Ok p (h ++ [r])
    ∧ deref h p = None ∧ deref (h ++ [r]) p = Some r
    ∧ wf r ∧ size r = size a + size b
    ∧ (∀ k, 0 ≤ k < size b → bit r k = bit b k)
    ∧ (∀ k, size b ≤ k < size a + size b → bit r k = bit a (k - size b))
    ∧ String_ ba1 h = Ok sa h ∧ String_ ba2 h = Ok sb h
    ∧ String_ p (h ++ [r]) = Ok (sa +:+ sb) (h ++ [r])
    ∧ (∀ q u, deref h q = Some u → deref (h ++ [r]) q = Some u).
Proof.
  intros Ha Hb Hwfa Hwfb Hsum.
  pose proof (wf_size _ Hwfa) as Hsa. pose proof (wf_size _ Hwfb) as Hsb.
  destruct (Concat_ok _ _ _ _ _ Ha Hb Hwfa Hwfb Hsum) as (r & Hrun & Hwfr & Hsr & Hbits).
  exists (S (length h)), r, (bits_string (bit a) (Z.to_nat (size a))),
    (bits_string (bit b) (Z.to_nat (size b))).
  split; [done|]. split; [apply deref_fresh|]. split; [apply deref_app_new|].
  split; [done|]. split; [done|].
  split; [|split; [|split; [|split; [|split]]]].
  - intros k Hk. rewrite Hbits. by rewrite bool_decide_eq_true_2 by lia.
  - intros k Hk. rewrite Hbits. rewrite bool_decide_eq_false_2 by lia.
    by rewrite bool_decide_eq_true_2 by lia.
  - by apply String_ok.
  - by apply String_ok.
  - rewrite (String_ok _ _ r (deref_app_new _ _) Hwfr). f_equal.
    rewrite Hsr. replace (Z.to_nat (size a + size b))
      with (Z.to_nat (size a) + Z.to_nat (size b))%nat by lia.
    rewrite bits_string_app. f_equal.
    + apply bits_string_ext. intros j Hj. rewrite Hbits.
      rewrite bool_decide_eq_false_2 by lia.
      rewrite bool_decide_eq_true_2 by lia. f_equal. lia.
    + apply bits_string_ext. intros j Hj. rewrite Hbits.
      by rewrite bool_decide_eq_true_2 by lia.
  - intros q u Hq. by apply deref_app_old.
Qed.

Lemma C8_concat_witness :
  deref sample_heap 1%nat = Some sample
  ∧ deref sample_heap 3%nat = Some sample4
  ∧ size sample + size sample4 ≤ max_int
  ∧ ∃ p r, Concat 1%nat 3%nat sample_heap = Ok p (sample_heap ++ [r])
           ∧ size r = 14
           ∧ String_ p (sample_heap ++ [r])
             = Ok ("0100000001" +:+ "0001") (sample_heap ++ [r]).
Proof.
  split; [reflexivity|]. split; [reflexivity|].
  assert (Hsum : size sample + size sample4 ≤ max_int) by (simpl; int_lia).
  split; [exact Hsum|].
  destruct (C8_concat sample_heap 1%nat 3%nat sample sample4 eq_refl eq_refl
              wf_sample wf_sample4 Hsum)
    as (p & r & sa & sb & H1 & _ & _ & _ & H2 & _ & _ & H3 & H4 & H5 & _).
  assert (Hsa : String_ 1%nat sample_heap = Ok "0100000001" sample_heap)
    by (vm_compute; reflexivity).
  assert (Hsb : String_ 3%nat sample_heap = Ok "0001" sample_heap)
    by (vm_compute; reflexivity).
  assert (sa = "0100000001") as -> by congruence.
  assert (sb = "0001") as -> by congruence.
  by exists p, r.
Defined.

(** C9. A string that consists of spaces only (the empty string
    included) makes [Parse] panic with the message of [New], not return an
    error: the array is allocated from the count of the runes that are not
    spaces, here 0, before any rune is looked at.  [MustParse] panics the
    same way. *)
Theorem C9_parse_spaces_only s h :
  Forall (fun c => c = " "%char) (list_ascii_of_string s) →
  Parse s h = Panicked (PanicString "size must be > 0") h
  ∧ MustParse s h = Panicked (PanicString "size must be > 0") h.
Proof.
  intros Hsp.
  assert (Hrs : runes_without_spaces s = []).
  { unfold runes_without_spaces.
    induction Hsp as [|c l Hc _ IH]; [done|].
    by rewrite filter_cons_False by (intros Hne; by apply Hne). }
  pose proof (Parse_spaces_panic s h Hrs) as Hp. split; [done|].
  unfold MustParse. by rewrite (bind_panicked _ _ _ _ _ Hp).
Qed.

Lemma C9_parse_spaces_only_witness :
  Forall (fun c => c = " "%char) (list_ascii_of_string "   ")
  ∧ Parse "   " [] = Panicked (PanicString "size must be > 0") []
  ∧ Parse EmptyString [] = Panicked (PanicString "size must be > 0") [].
Proof.
  assert (H3 : Forall (fun c => c = " "%char) (list_ascii_of_string "   "))
    by (repeat constructor).
  assert (H0 : Forall (fun c => c = " "%char) (list_ascii_of_string EmptyString))
    by constructor.
  split; [exact H3|]. split.
  - exact (proj1 (C9_parse_spaces_only "   " [] H3)).
  - exact (proj1 (C9_parse_spaces_only EmptyString [] H0)).
Defined.

(** C10. When [start] and [end - 1] are both indexes of [v] but
    [end <= start], both index checks of [Slice] pass and the call panics
    with the message of [New], reached with the size [end - start <= 0];
    the heap is as before. *)
Theorem C10_slice_empty_range h ba v start end_ :
  deref h ba = Some v → wf v →
  0 ≤ start < size v → 0 ≤ end_ - 1 < size v → end_ ≤ start →
  checkIdx ba start h = Ok tt h
  ∧ checkIdx ba (end_ - 1) h = Ok tt h
  ∧ New (end_ - start) [] h = Panicked (PanicString "size must be > 0") h
  ∧ Slice ba start end_ h = Panicked (PanicString "size must be > 0") h.
Proof.
  intros Hv Hwf Hstart Hend Hle. pose proof (wf_size _ Hwf) as Hsize.
  split; [by apply (checkIdx_ok _ _ v)|]. split; [by apply (checkIdx_ok _ _ v)|].
  split; [apply New_size_panic; lia|].
  apply (Slice_size_panic _ _ v); try done. lia.
Qed.

Lemma C10_slice_empty_range_witness :
  deref sample_heap 1%nat = Some sample
  ∧ Slice 1%nat 2 2 sample_heap = Panicked (PanicString "size must be > 0") sample_heap.
Proof.
  split; [reflexivity|].
  apply (C10_slice_empty_range sample_heap 1%nat sample 2 2 eq_refl wf_sample);
    simpl; lia.
Defined.

(** * Further properties *)


(** ** Checked single-bit access *)

Lemma checked_write_ok (b : bool) h p v idx :
  deref h p = Some v → wf v → 0 ≤ idx < size v →
  (checkIdx p idx;; if b then set p idx else unset p idx) h
  = Ok tt (update h p (mkBitArray (size v) (write_bit (data v) idx b))).
Proof.
  intros Hv Hwf Hidx. pose proof (wf_cover _ Hwf) as Hcov.
  rewrite (bind_ok _ _ _ _ _ (checkIdx_ok _ _ _ _ Hv Hidx)).
  by rewrite (write_ok b _ _ _ idx Hv ltac:(lia)).
Qed.

Lemma checked_write_panic (b : bool) h p v idx :
  deref h p = Some v → ¬ (0 ≤ idx < size v) →
  (checkIdx p idx;; if b then set p idx else unset p idx) h
  = Panicked (PanicString "index out of range") h.
Proof.
  intros Hv Hidx. by rewrite (bind_panicked _ _ _ _ _ (checkIdx_panic _ _ _ _ Hv Hidx)).
Qed.

Lemma wf_written (b : bool) v idx :
  wf v → 0 ≤ idx < size v → wf (mkBitArray (size v) (write_bit (data v) idx b)).
Proof. intros Hwf Hidx. apply wf_write_bit; [by rewrite mk_eta|done]. Qed.

Lemma bit_written (b : bool) v idx j :
  wf v → 0 ≤ idx < size v →
  bit (mkBitArray (size v) (write_bit (data v) idx b)) j
  = if bool_decide (j = idx) then b else bit v j.
Proof.
  intros Hwf Hidx. pose proof (wf_cover _ Hwf) as Hcov.
  unfold bit. simpl. apply bit_of_write_bit. lia.
Qed.

(** ** [New] with indexes *)

Lemma New_loop_ok h sz idx :
  Forall (fun i => 0 ≤ i < sz) idx →
  ∀ v, wf v → size v = sz →
  ∃ v', for_range idx (fun i => Set_ (S (length h)) i) (h ++ [v]) = Ok tt (h ++ [v'])
        ∧ wf v' ∧ size v' = sz
        ∧ ∀ j, bit v' j = bit v j || bool_decide (j ∈ idx).
Proof.
  induction 1 as [|i idx Hi _ IH]; intros v Hwf Hs.
  - exists v. split; [done|]. split; [done|]. split; [done|].
    intros j. rewrite bool_decide_eq_false_2 by apply not_elem_of_nil. by rewrite orb_false_r.
  - simpl. subst sz.
    pose proof (checked_write_ok true _ _ v i (deref_app_new h v) Hwf Hi) as Hset.
    rewrite update_app_new in Hset. 
    destruct (IH _ (wf_written true v i Hwf Hi) eq_refl) as (v' & Hrun & Hwf' & Hs' & Hbits).
    exists v'. split.
    + unfold Set_ at 1. by rewrite (bind_ok _ _ _ _ _ Hset).
    + split; [done|]. split; [done|]. intros j. rewrite Hbits, bit_written by done.
      destruct (decide (j = i)) as [->|Hne].
      * rewrite bool_decide_eq_true_2 by done.
        rewrite (bool_decide_eq_true_2 (i ∈ i :: idx)) by apply list_elem_of_here.
        by rewrite orb_true_r.
      * rewrite (bool_decide_eq_false_2 (j = i)) by done.
        f_equal. apply bool_decide_ext. rewrite elem_of_cons.
        split; [by right|by intros [?|?]].
Qed.

Lemma New_loop_panic h sz pre i rest :
  Forall (fun i => 0 ≤ i < sz) pre → ¬ (0 ≤ i < sz) →
  ∀ v, wf v → size v = sz →
  ∃ v', for_range (pre ++ i :: rest) (fun i => Set_ (S (length h)) i) (h ++ [v])
        = Panicked (PanicString "index out of range") (h ++ [v']).
Proof.
  intros Hpre Hi. induction Hpre as [|k pre Hk _ IH]; intros v Hwf Hs; subst sz.
  - exists v. simpl.
    by rewrite (bind_panicked _ _ _ _ _
                  (checked_write_panic true _ _ v i (deref_app_new h v) Hi)).
  - pose proof (checked_write_ok true _ _ v k (deref_app_new h v) Hwf Hk) as Hset.
    rewrite update_app_new in Hset.
    destruct (IH _ (wf_written true v k Hwf Hk) eq_refl) as (v' & Hrun).
    exists v'. simpl. unfold Set_ at 1. by rewrite (bind_ok _ _ _ _ _ Hset).
Qed.

Lemma New_idx_ok sz idx h :
  0 < sz ≤ max_int → Forall (fun i => 0 ≤ i < sz) idx →
  ∃ r, New sz idx h = Ok (S (length h)) (h ++ [r])
       ∧ wf r ∧ size r = sz
       ∧ ∀ j, bit r j = bool_decide (j ∈ idx).
Proof.
  intros Hsz Hidx. rewrite New_unfold by done.
  destruct (New_loop_ok h sz idx Hidx (zero_array sz) (wf_zero_array sz Hsz) eq_refl)
    as (r & Hrun & Hwf & Hs & Hbits).
  exists r. rewrite (bind_ok _ _ _ _ _ Hrun).
  split; [done|]. split; [done|]. split; [done|].
  intros j. by rewrite Hbits, bit_zero_array.
Qed.

Lemma first_bad_index sz idx :
  ¬ Forall (fun i => 0 ≤ i < sz) idx →
  ∃ pre i rest, idx = pre ++ i :: rest ∧ Forall (fun i => 0 ≤ i < sz) pre
                ∧ ¬ (0 ≤ i < sz).
Proof.
  intros Hbad. induction idx as [|k idx IH]; [by destruct Hbad|].
  destruct (decide (0 ≤ k < sz)) as [Hk|Hk].
  - destruct IH as (pre & i & rest & -> & Hpre & Hi).
    + intros Hall. apply Hbad. by constructor.
    + exists (k :: pre), i, rest. split; [done|]. split; [by constructor|done].
  - exists [], k, idx. split; [done|]. split; [constructor|done].
Qed.

Lemma New_idx_panic sz idx h :
  0 < sz ≤ max_int → ¬ Forall (fun i => 0 ≤ i < sz) idx →
  ∃ g, New sz idx h = Panicked (PanicString "index out of range") (h ++ [g]).
Proof.
  intros Hsz Hbad. rewrite New_unfold by done.
  destruct (first_bad_index sz idx Hbad) as (pre & i & rest & -> & Hpre & Hi).
  destruct (New_loop_panic h sz pre i rest Hpre Hi (zero_array sz)
              (wf_zero_array sz Hsz) eq_refl) as (v' & Hrun).
  exists v'. by rewrite (bind_panicked _ _ _ _ _ Hrun).
Qed.

(** X2. On a well-formed array and an index in [0, size), [Set] and
    [Unset] return and leave a well-formed array of the same size in which
    that bit is 1, respectively 0, as [Get] then reports, and every other
    bit is as before.  On any other index [Set], [Unset] and [Get] panic
    with the index message and the heap is untouched. *)
Theorem Set_Unset_Get_spec h ba v idx :
  deref h ba = Some v → wf v →
  (0 ≤ idx < size v →
     ∃ v1 v0,
       Set_ ba idx h = Ok tt (update h ba v1)
       ∧ Unset ba idx h = Ok tt (update h ba v0)
       ∧ wf v1 ∧ wf v0 ∧ size v1 = size v ∧ size v0 = size v
       ∧ Get ba idx (update h ba v1) = Ok true (update h ba v1)
       ∧ Get ba idx (update h ba v0) = Ok false (update h ba v0)
       ∧ (∀ j, j ≠ idx → bit v1 j = bit v j ∧ bit v0 j = bit v j))
  ∧ (¬ (0 ≤ idx < size v) →
       Set_ ba idx h = Panicked (PanicString "index out of range") h
       ∧ Unset ba idx h = Panicked (PanicString "index out of range") h
       ∧ Get ba idx h = Panicked (PanicString "index out of range") h).
Proof.
  intros Hv Hwf. split.
  - intros Hidx.
    exists (mkBitArray (size v) (write_bit (data v) idx true)),
      (mkBitArray (size v) (write_bit (data v) idx false)).
    pose proof (wf_written true v idx Hwf Hidx) as Hwf1.
    pose proof (wf_written false v idx Hwf Hidx) as Hwf0.
    split; [by apply (checked_write_ok true)|].
    split; [by apply (checked_write_ok false)|].
    split; [done|]. split; [done|]. split; [done|]. split; [done|].
    split; [|split].
    + rewrite (Get_ok _ _ _ idx (deref_update_eq _ _ _ _ Hv) Hwf1) by done.
      by rewrite bit_written, bool_decide_eq_true_2.
    + rewrite (Get_ok _ _ _ idx (deref_update_eq _ _ _ _ Hv) Hwf0) by done.
      by rewrite bit_written, bool_decide_eq_true_2.
    + intros j Hj. by rewrite !bit_written, !bool_decide_eq_false_2.
  - intros Hidx. split; [by apply (checked_write_panic true _ _ v)|].
    split; [by apply (checked_write_panic false _ _ v)|]. by apply (Get_panic _ _ v).
Qed.

Lemma Set_Unset_Get_spec_witness :
  deref sample_heap 1%nat = Some sample ∧ 0 ≤ 3 < size sample
  ∧ ∃ v1, Set_ 1%nat 3 sample_heap = Ok tt (update sample_heap 1%nat v1)
          ∧ Get 1%nat 3 (update sample_heap 1%nat v1)
            = Ok true (update sample_heap 1%nat v1).
Proof.
  assert (Hi : 0 ≤ 3 < size sample) by (simpl; lia).
  split; [reflexivity|]. split; [exact Hi|].
  destruct (proj1 (Set_Unset_Get_spec sample_heap 1%nat sample 3 eq_refl wf_sample) Hi)
    as (v1 & v0 & H1 & _ & _ & _ & _ & _ & H2 & _).
  by exists v1.
Defined.

(** X1. [New] with a size that is a positive [int] and indexes that are
    all below it returns the address of a new object, well-formed, of that
    size, whose bit [j] is set exactly when [j] is among the indexes, as
    [Get] reports; every other object is unchanged.  With a size [<= 0] it
    panics with the size message and the heap untouched; with an index out
    of range it panics with the index message, the objects that existed
    before being unchanged. *)
Theorem New_spec sz idx h :
  (0 < sz ≤ max_int → Forall (fun i => 0 ≤ i < sz) idx →
     ∃ r, New sz idx h = Ok (S (length h)) (h ++ [r])
          ∧ deref h (S (length h)) = None
          ∧ wf r ∧ size r = sz
          ∧ (∀ j, bit r j = bool_decide (j ∈ idx))
          ∧ (∀ j, 0 ≤ j < sz →
               Get (S (length h)) j (h ++ [r]) = Ok (bool_decide (j ∈ idx)) (h ++ [r])))
  ∧ (sz ≤ 0 → New sz idx h = Panicked (PanicString "size must be > 0") h)
  ∧ (0 < sz ≤ max_int → ¬ Forall (fun i => 0 ≤ i < sz) idx →
     ∃ h', New sz idx h = Panicked (PanicString "index out of range") h'
           ∧ ∀ q u, deref h q = Some u → deref h' q = Some u).
Proof.
  split; [|split].
  - intros Hsz Hidx.
    destruct (New_idx_ok sz idx h Hsz Hidx) as (r & Hrun & Hwf & Hs & Hb).
    exists r. split; [done|]. split; [apply deref_fresh|]. split; [done|].
    split; [done|]. split; [done|]. intros j Hj. rewrite <- Hb.
    apply Get_ok; [apply deref_app_new|done|lia].
  - apply New_size_panic.
  - intros Hsz Hbad. destruct (New_idx_panic sz idx h Hsz Hbad) as (g & Hrun).
    exists (h ++ [g]). split; [done|]. intros q u Hq. by apply deref_app_old.
Qed.

Lemma New_spec_witness :
  0 < 10 ≤ max_int ∧ Forall (fun i => 0 ≤ i < 10) [0; 8]
  ∧ ∃ r, New 10 [0; 8] [] = Ok 1%nat [r] ∧ size r = 10
         ∧ ∀ j, bit r j = bool_decide (j ∈ [0; 8]).
Proof.
  assert (H1 : 0 < 10 ≤ max_int) by int_lia.
  assert (H2 : Forall (fun i => 0 ≤ i < 10) [0; 8]) by (repeat constructor; lia).
  split; [exact H1|]. split; [exact H2|].
  destruct (proj1 (New_spec 10 [0; 8] []) H1 H2) as (r & Hr & _ & _ & Hs & Hb & _).
  by exists r.
Defined.

(** ** More on counting *)

Lemma ones_list_negb (f : Z → bool) l :
  foldr (fun j acc => Z.b2z (negb (f j)) + acc) 0 l
  = Z.of_nat (length l) - foldr (fun j acc => Z.b2z (f j) + acc) 0 l.
Proof. induction l as [|j l IH]; simpl; [done|]. rewrite IH. destruct (f j); simpl; lia. Qed.

Lemma ones_negb f lo n :
  0 ≤ n → ones (fun j => negb (f j)) lo n = n - ones f lo n.
Proof. intros Hn. unfold ones. rewrite ones_list_negb, length_seqZ. lia. Qed.

Lemma ones_list_zero (f : Z → bool) l :
  foldr (fun j acc => Z.b2z (f j) + acc) 0 l = 0 ↔ Forall (fun j => f j = false) l.
Proof.
  induction l as [|j l IH]; simpl; [by split|].
  assert (0 ≤ foldr (fun j acc => Z.b2z (f j) + acc) 0 l).
  { clear. induction l as [|k l IH]; simpl; [done|]. destruct (f k); simpl; lia. }
  rewrite Forall_cons, <- IH. destruct (f j); simpl; split; try lia; intros []; try done; lia.
Qed.

Lemma ones_zero_iff f lo n :
  ones f lo n = 0 ↔ ∀ j, lo ≤ j < lo + n → f j = false.
Proof. unfold ones. by rewrite ones_list_zero, Forall_seqZ. Qed.

Lemma ones_full_iff f lo n :
  0 ≤ n → ones f lo n = n ↔ ∀ j, lo ≤ j < lo + n → f j = true.
Proof.
  intros Hn. pose proof (ones_negb f lo n Hn) as Hneg.
  pose proof (ones_zero_iff (fun j => negb (f j)) lo n) as Hz. split.
  - intros Hfull j Hj. apply negb_false_iff. apply Hz; [lia|done].
  - intros Hall. assert (ones (fun j => negb (f j)) lo n = 0); [|lia].
    apply Hz. intros j Hj. by rewrite Hall.
Qed.

(** X3. On a well-formed array [Count] returns the number of set bits
    among the bits below the size: a number in [0, size] that is 0 exactly
    when no bit is set and [size] exactly when all are; after [Not] it
    returns [size] minus the count before. *)
Theorem Count_spec h ba v :
  deref h ba = Some v → wf v →
  ∃ c v',
    Count ba h = Ok c h
    ∧ c = ones (bit v) 0 (size v)
    ∧ 0 ≤ c ≤ size v
    ∧ (c = 0 ↔ ∀ j, 0 ≤ j < size v → bit v j = false)
    ∧ (c = size v ↔ ∀ j, 0 ≤ j < size v → bit v j = true)
    ∧ Not ba h = Ok tt (update h ba v')
    ∧ Count ba (update h ba v') = Ok (size v - c) (update h ba v').
Proof.
  intros Hv Hwf. pose proof (wf_size _ Hwf) as Hsize.
  destruct (Not_ok _ _ _ Hv Hwf) as (v' & Hrun & Hs & Hwf' & Hbits).
  exists (ones (bit v) 0 (size v)), v'.
  split; [by apply Count_ok|]. split; [done|]. split; [apply ones_bounds; lia|].
  split; [apply ones_zero_iff|]. split; [apply ones_full_iff; lia|]. split; [done|].
  rewrite (Count_ok _ _ v' (deref_update_eq _ _ _ _ Hv) Hwf'). f_equal. rewrite Hs.
  rewrite <- ones_negb by lia. apply ones_ext. intros j Hj. apply Hbits. lia.
Qed.

Lemma Count_spec_witness :
  deref sample_heap 1%nat = Some sample
  ∧ ∃ c v', Count 1%nat sample_heap = Ok c sample_heap
            ∧ Not 1%nat sample_heap = Ok tt (update sample_heap 1%nat v')
            ∧ Count 1%nat (update sample_heap 1%nat v')
              = Ok (size sample - c) (update sample_heap 1%nat v').
Proof.
  split; [reflexivity|].
  destruct (Count_spec sample_heap 1%nat sample eq_refl wf_sample)
    as (c & v' & H1 & _ & _ & _ & _ & H2 & H3).
  by exists c, v'.
Defined.

(** ** [Clear] and [SetAll] *)

(** X4. On a well-formed array [Clear] and [SetAll] return and leave a
    well-formed array of the same size: after [Clear] no bit is set and
    [Count] returns 0; after [SetAll] exactly the bits below the size are
    set and [Count] returns the size. *)
Theorem Clear_SetAll_spec h ba v :
  deref h ba = Some v → wf v →
  ∃ v0 v1,
    Clear ba h = Ok tt (update h ba v0)
    ∧ SetAll ba h = Ok tt (update h ba v1)
    ∧ wf v0 ∧ wf v1 ∧ size v0 = size v ∧ size v1 = size v
    ∧ (∀ j, bit v0 j = false)
    ∧ (∀ j, bit v1 j = bool_decide (0 ≤ j < size v))
    ∧ Count ba (update h ba v0) = Ok 0 (update h ba v0)
    ∧ Count ba (update h ba v1) = Ok (size v) (update h ba v1).
Proof.
  intros Hv Hwf. pose proof (wf_size _ Hwf) as Hsize.
  destruct (SetAll_ok _ _ _ Hv Hwf) as (v1 & Hrun & Hs & Hwf1 & Hbits & _).
  pose proof (wf_zero_array (size v) Hsize) as Hwf0.
  exists (zero_array (size v)), v1.
  split; [by apply Clear_ok|]. split; [done|]. split; [done|]. split; [done|].
  split; [done|]. split; [done|]. split; [apply bit_zero_array|]. split; [|split].
  - intros j. case_bool_decide as Hj; [by apply Hbits|].
    destruct (decide (j < 0)) as [Hneg|Hpos].
    + apply bit_of_outside. lia.
    + apply (wf_pad _ Hwf1). lia.
  - rewrite (Count_ok _ _ _ (deref_update_eq _ _ _ _ Hv) Hwf0). f_equal.
    apply ones_zero_iff. intros j _. apply bit_zero_array.
  - rewrite (Count_ok _ _ _ (deref_update_eq _ _ _ _ Hv) Hwf1). f_equal.
    rewrite Hs. apply ones_full_iff; [lia|]. intros j Hj. apply Hbits. lia.
Qed.

Lemma Clear_SetAll_spec_witness :
  deref sample_heap 1%nat = Some sample
  ∧ ∃ v1, SetAll 1%nat sample_heap = Ok tt (update sample_heap 1%nat v1)
          ∧ Count 1%nat (update sample_heap 1%nat v1)
            = Ok (size sample) (update sample_heap 1%nat v1).
Proof.
  split; [reflexivity|].
  destruct (Clear_SetAll_spec sample_heap 1%nat sample eq_refl wf_sample)
    as (v0 & v1 & _ & H1 & _ & _ & _ & _ & _ & _ & _ & H2).
  by exists v1.
Defined.

(** ** [Equal] *)

Lemma Equal_loop_ok h p q v w :
  deref h p = Some v → deref h q = Some w → length (data v) = length (data w) →
  ∀ fuel i, (i + fuel = length (data v))%nat →
  Equal_loop p q fuel (Z.of_nat i) h
  = Ok (bool_decide (drop i (data v) = drop i (data w))) h.
Proof.
  intros Hv Hw Hlen. induction fuel as [|fuel IH]; intros i Hi.
  - simpl. rewrite !drop_ge by lia. by rewrite bool_decide_eq_true_2.
  - simpl.
    destruct (lookup_lt_is_Some_2 (data v) i) as [x Hx]; [lia|].
    destruct (lookup_lt_is_Some_2 (data w) i) as [y Hy]; [lia|].
    rewrite (bind_ok _ _ _ _ _ (data_at_ok _ _ _ (Z.of_nat i) x Hv
               ltac:(apply index_Some; rewrite Nat2Z.id; split; [lia|done]))).
    rewrite (bind_ok _ _ _ _ _ (data_at_ok _ _ _ (Z.of_nat i) y Hw
               ltac:(apply index_Some; rewrite Nat2Z.id; split; [lia|done]))).
    rewrite (drop_S _ _ _ Hx), (drop_S _ _ _ Hy).
    case_bool_decide as Hxy.
    + unfold ret. f_equal. symmetry. apply bool_decide_eq_false_2. congruence.
    + replace (Z.of_nat i + 1) with (Z.of_nat (S i)) by lia.
      rewrite IH by lia. f_equal. apply bool_decide_ext.
      assert (x = y) as -> by (destruct (decide (x = y)); done).
      split; congruence.
Qed.

(** X5. On well-formed arrays [Equal] returns without changing anything,
    and returns true exactly when the two are the same record, that is
    when they have the same size and the same bit at every index below it.
    [Clone] returns the address of a new object that [Equal] reports equal
    to the original, and leaves every existing object unchanged. *)
Theorem Equal_spec h ba other v w :
  deref h ba = Some v → deref h other = Some w → wf v → wf w →
  (∃ b, Equal ba other h = Ok b h ∧ (b = true ↔ v = w))
  ∧ (v = w ↔ size v = size w ∧ ∀ j, 0 ≤ j < size v → bit v j = bit w j)
  ∧ ∃ p, Clone ba h = Ok p (h ++ [v]) ∧ deref h p = None
         ∧ Equal p ba (h ++ [v]) = Ok true (h ++ [v])
         ∧ ∀ q u, deref h q = Some u → deref (h ++ [v]) q = Some u.
Proof.
  intros Hv Hw Hwfv Hwfw. split; [|split].
  - unfold Equal.
    rewrite (bind_ok _ _ _ _ _ (get_size_ok _ _ _ Hv)).
    rewrite (bind_ok _ _ _ _ _ (get_size_ok _ _ _ Hw)).
    case_bool_decide as Hs.
    + exists false. split; [done|]. split; [done|]. intros ->. done.
    + assert (Hs' : size v = size w) by (destruct (decide (size v = size w)); done).
      rewrite (bind_ok _ _ _ _ _ (load_ok _ _ _ Hv)).
      assert (Hlen : length (data v) = length (data w)).
      { pose proof (wf_len _ Hwfv) as H1. pose proof (wf_len _ Hwfw) as H2.
        rewrite Hs' in H1. lia. }
      rewrite (Equal_loop_ok h ba other v w Hv Hw Hlen _ 0%nat) by lia.
      eexists. split; [done|]. rewrite bool_decide_eq_true, !drop_0.
      destruct v, w; simpl in *. split; congruence.
  - split; [by intros ->|]. intros [Hs Hb]. by apply wf_ext.
  - exists (S (length h)). split.
    + unfold Clone. rewrite (bind_ok _ _ _ _ _ (load_ok _ _ _ Hv)). by rewrite mk_eta.
    + split; [apply deref_fresh|]. split.
      * apply (Equal_same _ _ _ v); [apply deref_app_new|by apply deref_app_old].
      * intros q u Hq. by apply deref_app_old.
Qed.

Lemma Equal_spec_witness :
  deref sample_heap 1%nat = Some sample
  ∧ deref sample_heap 2%nat = Some (mkBitArray 10 [6; 1])
  ∧ ∃ b, Equal 1%nat 2%nat sample_heap = Ok b sample_heap
         ∧ (b = true ↔ sample = mkBitArray 10 [6; 1]).
Proof.
  split; [reflexivity|]. split; [reflexivity|].
  exact (proj1 (Equal_spec sample_heap 1%nat 2%nat sample (mkBitArray 10 [6; 1])
                  eq_refl eq_refl wf_sample wf_sample_second)).
Defined.

(** ** Operators composed with themselves *)

(** X6. [Not] is its own inverse: on a well-formed array two calls of
    [Not] in a row give back the heap as it was. *)
Theorem Not_Not h ba v :
  deref h ba = Some v → wf v →
  ∃ v', Not ba h = Ok tt (update h ba v')
        ∧ Not ba (update h ba v') = Ok tt h.
Proof.
  intros Hv Hwf.
  destruct (Not_ok _ _ _ Hv Hwf) as (v' & Hrun & Hs & Hwf' & Hbits).
  destruct (Not_ok _ _ _ (deref_update_eq _ _ _ _ Hv) Hwf') as (v'' & Hrun' & Hs' & Hwf'' & Hbits').
  exists v'. split; [done|]. rewrite Hrun', update_update. f_equal.
  assert (v'' = v) as ->.
  { apply wf_ext; try done; [lia|]. intros j Hj. rewrite Hbits' by lia.
    rewrite Hbits by lia. apply negb_involutive. }
  by apply update_same.
Qed.

Lemma Not_Not_witness :
  deref sample_heap 1%nat = Some sample
  ∧ ∃ v', Not 1%nat sample_heap = Ok tt (update sample_heap 1%nat v')
          ∧ Not 1%nat (update sample_heap 1%nat v') = Ok tt sample_heap.
Proof.
  split; [reflexivity|].
  exact (Not_Not sample_heap 1%nat sample eq_refl wf_sample).
Defined.

(** X7. The receiver as its own argument: the bit loop over the partial
    last byte then reads bits of the object it is writing.  [And] and [Or]
    leave the heap as it was; [Xor] and [AndNot] leave the all-zero array
    of the same size, as [Clear] does. *)
Theorem self_operand h ba v :
  deref h ba = Some v → wf v →
  And ba ba h = Ok tt h
  ∧ Or ba ba h = Ok tt h
  ∧ Xor ba ba h = Ok tt (update h ba (zero_array (size v)))
  ∧ AndNot ba ba h = Ok tt (update h ba (zero_array (size v))).
Proof.
  intros Hv Hwf. pose proof (wf_size _ Hwf) as Hsize.
  destruct (And_ok _ _ _ _ _ Hv Hv Hwf Hwf eq_refl) as (v1 & H1 & Hs1 & Hwf1 & Hb1).
  destruct (Or_ok _ _ _ _ _ Hv Hv Hwf Hwf eq_refl) as (v2 & H2 & Hs2 & Hwf2 & Hb2).
  destruct (Xor_ok _ _ _ _ _ Hv Hv Hwf Hwf eq_refl) as (v3 & H3 & Hs3 & Hwf3 & Hb3).
  destruct (AndNot_ok _ _ _ _ _ Hv Hv Hwf Hwf eq_refl) as (v4 & H4 & Hs4 & Hwf4 & Hb4).
  assert (v1 = v) as ->.
  { apply wf_ext; try done. intros j Hj. rewrite Hb1 by lia. by destruct (bit v j). }
  assert (v2 = v) as ->.
  { apply wf_ext; try done. intros j Hj. rewrite Hb2 by lia. by destruct (bit v j). }
  assert (v3 = zero_array (size v)) as ->.
  { apply wf_ext; [done|by apply wf_zero_array|done|].
    intros j Hj. rewrite Hb3, bit_zero_array by lia. by destruct (bit v j). }
  assert (v4 = zero_array (size v)) as ->.
  { apply wf_ext; [done|by apply wf_zero_array|done|].
    intros j Hj. rewrite Hb4, bit_zero_array by lia. by destruct (bit v j). }
  rewrite (update_same _ _ _ Hv) in H1, H2. done.
Qed.

Lemma self_operand_witness :
  deref sample_heap 1%nat = Some sample
  ∧ And 1%nat 1%nat sample_heap = Ok tt sample_heap
  ∧ Xor 1%nat 1%nat sample_heap
    = Ok tt (update sample_heap 1%nat (zero_array (size sample))).
Proof.
  split; [reflexivity|].
  destruct (self_operand sample_heap 1%nat sample eq_refl wf_sample)
    as (H1 & _ & H2 & _).
  by split.
Defined.

(** ** Objects beside later allocations *)

Lemma deref_update_app_eq h p v v' g :
  deref h p = Some v → deref (update h p v' ++ g) p = Some v'.
Proof.
  intros Hv. destruct p as [|k]; [done|]. simpl in *.
  rewrite lookup_app_l.
  - apply list_lookup_insert_eq. by eapply lookup_lt_Some.
  - rewrite length_insert. by eapply lookup_lt_Some.
Qed.

Lemma deref_update_app_ne h p q v' g u :
  q ≠ p → deref h q = Some u → deref (update h p v' ++ g) q = Some u.
Proof.
  intros Hne Hq. destruct q as [|k]; [done|]. simpl in *.
  rewrite lookup_app_l.
  - destruct p as [|k']; [done|]. simpl. rewrite list_lookup_insert_ne; [done|congruence].
  - destruct p as [|k']; simpl; [|rewrite length_insert]; by eapply lookup_lt_Some.
Qed.

(** ** [Rotate] back *)

(** X8. [Rotate n] followed by [Rotate (-n)] gives the array back, for
    every [int] [n] whose negation is an [int] (every one but the
    smallest); the other objects that existed are unchanged (each call
    may leave its auxiliary slice behind as a new object). *)
Theorem Rotate_inverse h ba v n :
  deref h ba = Some v → wf v → min_int < n ≤ max_int →
  ∃ h1 h2,
    Rotate ba n h = Ok tt h1
    ∧ Rotate ba (neg n) h1 = Ok tt h2
    ∧ deref h2 ba = Some v
    ∧ ∀ q u, q ≠ ba → deref h q = Some u → deref h2 q = Some u.
Proof.
  intros Hv Hwf Hn. pose proof (wf_size _ Hwf) as Hsize.
  rewrite neg_id by int_lia. clear Hn.
  destruct (Rotate_ok _ _ _ n Hv Hwf) as (v1 & g1 & Hrun1 & _ & Hs1 & Hwf1 & Hb1).
  pose proof (deref_update_app_eq h ba v v1 g1 Hv) as Hv1.
  destruct (Rotate_ok _ _ _ (- n) Hv1 Hwf1) as (v2 & g2 & Hrun2 & _ & Hs2 & Hwf2 & Hb2).
  exists (update h ba v1 ++ g1), (update (update h ba v1 ++ g1) ba v2 ++ g2).
  split; [done|]. split; [done|].
  assert (v2 = v) as ->.
  { apply wf_ext; [done|done|lia|]. intros j Hj.
    remember (n %i size v) as r eqn:Hrdef.
    assert (Hr : - size v < r < size v) by lia.
    assert (Hr' : (- n) %i size v1 = - r).
    { rewrite Hs1, Hrdef. apply Z.rem_opp_l. lia. }
    remember ((j + r) `mod` size v) as i eqn:Hidef.
    assert (Hi : 0 ≤ i < size v) by (rewrite Hidef; apply Z.mod_pos_bound; lia).
    assert (Hback : (i + - r) `mod` size v1 = j).
    { rewrite Hs1, Hidef. replace ((j + r) `mod` size v + - r)
        with ((j + r) `mod` size v - r) by lia.
      rewrite Zminus_mod_idemp_l. replace (j + r - r) with j by lia.
      apply Z.mod_small. lia. }
    rewrite Hs2, Hs1 in Hj.
    assert (Hi1 : 0 ≤ i < size v1) by (rewrite Hs1; exact Hi).
    pose proof (Hb2 i Hi1) as H2. rewrite Hr', Hback in H2.
    rewrite H2, Hidef. apply Hb1. exact Hj. }
  split; [by eapply deref_update_app_eq|].
  intros q u Hne Hq. apply deref_update_app_ne; [done|].
  by apply deref_update_app_ne.
Qed.

Lemma Rotate_inverse_witness :
  deref sample_heap 1%nat = Some sample ∧ min_int < 13 ≤ max_int
  ∧ ∃ h1 h2, Rotate 1%nat 13 sample_heap = Ok tt h1
             ∧ Rotate 1%nat (neg 13) h1 = Ok tt h2
             ∧ deref h2 1%nat = Some sample.
Proof.
  assert (Hn : min_int < 13 ≤ max_int) by int_lia.
  split; [reflexivity|]. split; [exact Hn|].
  destruct (Rotate_inverse sample_heap 1%nat sample 13 eq_refl wf_sample Hn)
    as (h1 & h2 & H1 & H2 & H3 & _).
  by exists h1, h2.
Defined.

(** ** [Slice] and [Concat] undo each other *)

(** X9. [Slice] undoes [Concat]: of the concatenation of [a] and [b],
    the slice [0, b.size) is a new object equal to [b] and the slice
    [b.size, a.size + b.size) is a new object equal to [a]. *)
Theorem Slice_of_Concat h ba1 ba2 a b :
  deref h ba1 = Some a → deref h ba2 = Some b → wf a → wf b →
  size a + size b ≤ max_int →
  ∃ p r,
    Concat ba1 ba2 h = Ok p (h ++ [r])
    ∧ Slice p 0 (size b) (h ++ [r]) = Ok (S (S (length h))) (h ++ [r] ++ [b])
    ∧ Slice p (size b) (size a + size b) (h ++ [r])
      = Ok (S (S (length h))) (h ++ [r] ++ [a]).
Proof.
  intros Ha Hb Hwfa Hwfb Hsum.
  pose proof (wf_size _ Hwfa) as Hsa. pose proof (wf_size _ Hwfb) as Hsb.
  destruct (Concat_ok _ _ _ _ _ Ha Hb Hwfa Hwfb Hsum) as (r & Hrun & Hwfr & Hsr & Hbits).
  exists (S (length h)), r. split; [done|].
  pose proof (deref_app_new h r) as Hr.
  assert (Hlen : S (length (h ++ [r])) = S (S (length h))).
  { rewrite length_app. simpl. lia. }
  split.
  - destruct (Slice_ok _ _ _ 0 (size b) Hr Hwfr ltac:(lia) ltac:(lia) ltac:(lia))
      as (lo & Hlo & Hwflo & Hslo & Hblo).
    assert (lo = b) as ->.
    { apply wf_ext; [done|done|lia|]. intros j Hj.
      rewrite Hblo by lia. rewrite Hbits. simpl.
      by rewrite bool_decide_eq_true_2 by lia. }
    by rewrite Hlo, Hlen, <- app_assoc.
  - destruct (Slice_ok _ _ _ (size b) (size a + size b) Hr Hwfr
                ltac:(lia) ltac:(lia) ltac:(lia))
      as (hi & Hhi & Hwfhi & Hshi & Hbhi).
    assert (hi = a) as ->.
    { apply wf_ext; [done|done|lia|]. intros j Hj.
      rewrite Hbhi by lia. rewrite Hbits.
      rewrite bool_decide_eq_false_2 by lia.
      rewrite bool_decide_eq_true_2 by lia. f_equal. lia. }
    by rewrite Hhi, Hlen, <- app_assoc.
Qed.

Lemma Slice_of_Concat_witness :
  deref sample_heap 1%nat = Some sample ∧ deref sample_heap 3%nat = Some sample4
  ∧ size sample + size sample4 ≤ max_int
  ∧ ∃ p r, Concat 1%nat 3%nat sample_heap = Ok p (sample_heap ++ [r])
           ∧ Slice p 0 (size sample4) (sample_heap ++ [r])
             = Ok 6%nat (sample_heap ++ [r] ++ [sample4]).
Proof.
  assert (Hsum : size sample + size sample4 ≤ max_int) by (simpl; int_lia).
  split; [reflexivity|]. split; [reflexivity|]. split; [exact Hsum|].
  destruct (Slice_of_Concat sample_heap 1%nat 3%nat sample sample4 eq_refl eq_refl
              wf_sample wf_sample4 Hsum) as (p & r & H1 & H2 & _).
  by exists p, r.
Defined.

(** X10. [Concat] undoes [Slice]: cutting a well-formed array at any
    [k] with [0 < k < size] into the slices [k, size) and [0, k) and
    concatenating the two, the upper one first, gives a new object equal
    to the array. *)
Theorem Concat_of_Slices h ba v k :
  deref h ba = Some v → wf v → 0 < k < size v →
  ∃ hi lo,
    Slice ba k (size v) h = Ok (S (length h)) (h ++ [hi])
    ∧ Slice ba 0 k (h ++ [hi]) = Ok (S (S (length h))) (h ++ [hi] ++ [lo])
    ∧ size hi = size v - k ∧ size lo = k
    ∧ Concat (S (length h)) (S (S (length h))) (h ++ [hi] ++ [lo])
      = Ok (S (S (S (length h)))) (h ++ [hi] ++ [lo] ++ [v]).
Proof.
  intros Hv Hwf Hk. pose proof (wf_size _ Hwf) as Hsize.
  destruct (Slice_ok _ _ _ k (size v) Hv Hwf ltac:(lia) ltac:(lia) ltac:(lia))
    as (hi & Hhi & Hwfhi & Hshi & Hbhi).
  pose proof (deref_app_old h hi ba v Hv) as Hv'.
  destruct (Slice_ok _ _ _ 0 k Hv' Hwf ltac:(lia) ltac:(lia) ltac:(lia))
    as (lo & Hlo & Hwflo & Hslo & Hblo).
  assert (Hlen1 : S (length (h ++ [hi])) = S (S (length h))).
  { rewrite length_app. simpl. lia. }
  rewrite Hlen1, <- app_assoc in Hlo.
  exists hi, lo. split; [done|]. split; [done|]. split; [done|]. split; [lia|].
  assert (Hphi : deref (h ++ [hi] ++ [lo]) (S (length h)) = Some hi).
  { rewrite app_assoc. apply deref_app_old, deref_app_new. }
  assert (Hplo : deref (h ++ [hi] ++ [lo]) (S (S (length h))) = Some lo).
  { rewrite app_assoc, <- Hlen1. apply deref_app_new. }
  destruct (Concat_ok _ _ _ _ _ Hphi Hplo Hwfhi Hwflo ltac:(lia))
    as (r & Hrun & Hwfr & Hsr & Hbits).
  assert (Hlen2 : S (length (h ++ [hi] ++ [lo])) = S (S (S (length h)))).
  { rewrite !length_app. simpl. lia. }
  assert (r = v) as ->.
  { apply wf_ext; [done|done|lia|]. intros j Hj. rewrite Hbits.
    destruct (decide (j < size lo)) as [Hlow|Hhigh].
    - rewrite bool_decide_eq_true_2 by lia. rewrite Hblo by lia. f_equal; lia.
    - rewrite bool_decide_eq_false_2 by lia. rewrite bool_decide_eq_true_2 by lia.
      rewrite Hbhi by lia. f_equal; lia. }
  by rewrite Hrun, Hlen2, <- !app_assoc.
Qed.

Lemma Concat_of_Slices_witness :
  deref sample_heap 1%nat = Some sample ∧ 0 < 4 < size sample
  ∧ ∃ hi lo, Slice 1%nat 4 (size sample) sample_heap = Ok 5%nat (sample_heap ++ [hi])
             ∧ Concat 5%nat 6%nat (sample_heap ++ [hi] ++ [lo])
               = Ok 7%nat (sample_heap ++ [hi] ++ [lo] ++ [sample]).
Proof.
  assert (Hk : 0 < 4 < size sample) by (simpl; lia).
  split; [reflexivity|]. split; [exact Hk|].
  destruct (Concat_of_Slices sample_heap 1%nat sample 4 eq_refl wf_sample Hk)
    as (hi & lo & H1 & _ & _ & _ & H2).
  by exists hi, lo.
Defined.

(** ** [String] after [Parse] *)

Lemma bits_string_runes rs f :
  Forall is_digit rs →
  (∀ j, 0 ≤ j < Z.of_nat (length rs) → f j = rune_bit rs j) →
  bits_string f (length rs) = string_of_list_ascii rs.
Proof.
  intros Hdig Hf.
  rewrite <- (string_of_list_ascii_of_string (bits_string f (length rs))). f_equal.
  apply list_eq_same_length with (length rs);
    [done|apply length_runes_bits_string|].
  intros k x y Hk Hx Hy. rewrite lookup_bits_string in Hx by done.
  injection Hx as <-. rewrite Hf by lia. unfold rune_bit.
  replace (Z.to_nat (Z.of_nat (length rs) - 1 - Z.of_nat (length rs - 1 - k))) with k by lia.
  rewrite Hy. rewrite Forall_forall in Hdig.
  destruct (Hdig y) as [->| ->]; [by eapply list_elem_of_lookup_2|done|done].
Qed.

(** X11. [String] undoes [Parse]: for a string whose runes other than
    spaces are digits 0 and 1, at least one of them, [Parse] returns a new
    array without error, [MustParse] returns the same, and [String] of that
    array is the input with its spaces removed. *)
Theorem String_of_Parse t h :
  let rs := runes_without_spaces t in
  0 < Z.of_nat (length rs) ≤ max_int → Forall is_digit rs →
  ∃ u, Parse t h = Ok (Success (S (length h))) (h ++ [u])
       ∧ MustParse t h = Ok (S (length h)) (h ++ [u])
       ∧ String_ (S (length h)) (h ++ [u]) = Ok (string_of_list_ascii rs) (h ++ [u]).
Proof.
  intros rs Hn Hdig.
  destruct (Parse_ok t h Hn Hdig) as (u & Hrun & Hwf & Hs & Hbits).
  exists u. split; [done|]. split.
  - unfold MustParse. by rewrite (bind_ok _ _ _ _ _ Hrun).
  - rewrite (String_ok _ _ u (deref_app_new _ _) Hwf). f_equal.
    fold rs in Hs. rewrite Hs, Nat2Z.id. apply bits_string_runes; [done|].
    intros j Hj. apply Hbits. lia.
Qed.

Lemma String_of_Parse_witness :
  0 < Z.of_nat (length (runes_without_spaces "01 10")) ≤ max_int
  ∧ Forall is_digit (runes_without_spaces "01 10")
  ∧ ∃ u, MustParse "01 10" [] = Ok 1%nat [u]
         ∧ String_ 1%nat [u] = Ok "0110" [u].
Proof.
  assert (Hn : 0 < Z.of_nat (length (runes_without_spaces "01 10")) ≤ max_int)
    by (vm_compute; split; [reflexivity|discriminate]).
  assert (Hd : Forall is_digit (runes_without_spaces "01 10")).
  { unfold runes_without_spaces. simpl.
    repeat constructor; (by left) || (by right). }
  split; [exact Hn|]. split; [exact Hd|].
  destruct (String_of_Parse "01 10" [] Hn Hd) as (u & _ & H1 & H2).
  by exists u.
Defined.

(** ** Leading and trailing zeros *)

Lemma nlz_spec n x :
  0 ≤ nlz n x ≤ Z.of_nat n
  ∧ (∀ k, Z.of_nat n - nlz n x ≤ k < Z.of_nat n → Z.testbit x k = false)
  ∧ (nlz n x < Z.of_nat n → Z.testbit x (Z.of_nat n - 1 - nlz n x) = true).
Proof.
  induction n as [|n (Hb & Hz & Ht)]; simpl nlz.
  - split; [lia|]. split; [intros; lia|lia].
  - destruct (Z.testbit x (Z.of_nat n)) eqn:Hn.
    + split; [lia|]. split; [intros; lia|]. intros _.
      by replace (Z.of_nat (S n) - 1 - 0) with (Z.of_nat n) by lia.
    + split; [lia|]. split.
      * intros k Hk. destruct (decide (k = Z.of_nat n)) as [->|Hne]; [done|].
        apply Hz. lia.
      * intros Hlt. replace (Z.of_nat (S n) - 1 - (1 + nlz n x))
          with (Z.of_nat n - 1 - nlz n x) by lia.
        apply Ht. lia.
Qed.

Lemma ntz_spec n k x :
  0 ≤ ntz n k x ≤ Z.of_nat n
  ∧ (∀ j, k ≤ j < k + ntz n k x → Z.testbit x j = false)
  ∧ (ntz n k x < Z.of_nat n → Z.testbit x (k + ntz n k x) = true).
Proof.
  revert k. induction n as [|n IH]; intros k; simpl ntz.
  - split; [lia|]. split; [intros; lia|lia].
  - destruct (IH (k + 1)) as (Hb & Hz & Ht).
    destruct (Z.testbit x k) eqn:Hk.
    + split; [lia|]. split; [intros; lia|]. intros _. by rewrite Z.add_0_r.
    + split; [lia|]. split.
      * intros j Hj. destruct (decide (j = k)) as [->|Hne]; [done|].
        apply Hz. lia.
      * intros Hlt. replace (k + (1 + ntz n (k + 1) x)) with (k + 1 + ntz n (k + 1) x) by lia.
        apply Ht. lia.
Qed.

(** A byte that is not zero has a set bit among its eight. *)
Lemma byte_nonzero_bit x :
  byte_ok x → x ≠ 0 → ¬ ∀ k, 0 ≤ k < 8 → Z.testbit x k = false.
Proof.
  intros [H0 H8]%byte_ok_bits Hx Hall. apply Hx.
  apply Z.bits_inj'. intros k Hk. rewrite Z.bits_0.
  destruct (decide (k < 8)); [apply Hall; lia|apply H8; lia].
Qed.

Lemma LeadingZeros8_spec x :
  byte_ok x → x ≠ 0 →
  0 ≤ LeadingZeros8 x < 8
  ∧ (∀ k, 8 - LeadingZeros8 x ≤ k < 8 → Z.testbit x k = false)
  ∧ Z.testbit x (7 - LeadingZeros8 x) = true.
Proof.
  intros Hx Hne. unfold LeadingZeros8.
  destruct (nlz_spec 8 x) as (Hb & Hz & Ht).
  assert (Hlt : nlz 8 x < 8).
  { destruct (decide (nlz 8 x < 8)) as [|Hge]; [done|].
    destruct (byte_nonzero_bit x Hx Hne). intros k Hk. apply Hz. lia. }
  split; [lia|]. split; [intros k Hk; apply Hz; lia|].
  replace (7 - nlz 8 x) with (Z.of_nat 8 - 1 - nlz 8 x) by lia. apply Ht. lia.
Qed.

Lemma TrailingZeros8_spec x :
  byte_ok x → x ≠ 0 →
  0 ≤ TrailingZeros8 x < 8
  ∧ (∀ k, 0 ≤ k < TrailingZeros8 x → Z.testbit x k = false)
  ∧ Z.testbit x (TrailingZeros8 x) = true.
Proof.
  intros Hx Hne. unfold TrailingZeros8.
  destruct (ntz_spec 8 0 x) as (Hb & Hz & Ht).
  assert (Hlt : ntz 8 0 x < 8).
  { destruct (decide (ntz 8 0 x < 8)) as [|Hge]; [done|].
    destruct (byte_nonzero_bit x Hx Hne). intros k Hk. apply Hz. lia. }
  split; [lia|]. split; [intros k Hk; apply Hz; lia|].
  rewrite <- (Z.add_0_l (ntz 8 0 x)). apply Ht. lia.
Qed.

Lemma bit_of_zero_byte d n k :
  index d n = Some 0 → 0 ≤ k < 8 → bit_of d (8 * n + k) = false.
Proof. intros Hx Hk. rewrite (bit_of_byte d n 0 k Hx Hk). apply Z.bits_0. Qed.

(** The loop of [LeadingZeros] started at byte [i] adds to its counter the
    number [z] of zero bits at the top of the bytes [0 .. i]. *)
Lemma LeadingZeros_loop_ok h ba v :
  deref h ba = Some v → bytes_ok (data v) →
  ∀ fuel i cnt, (fuel ≤ length (data v))%nat → i = Z.of_nat fuel - 1 → is_int cnt →
  ∃ z, LeadingZeros_loop ba fuel i cnt h = Ok (wrap (cnt + z)) h
       ∧ 0 ≤ z ≤ 8 * (i + 1)
       ∧ (∀ j, 8 * (i + 1) - z ≤ j < 8 * (i + 1) → bit v j = false)
       ∧ (z < 8 * (i + 1) → bit v (8 * (i + 1) - 1 - z) = true).
Proof.
  intros Hv Hd. induction fuel as [|fuel IH]; intros i cnt Hle Hi Hcnt.
  - exists 0. simpl. rewrite Z.add_0_r, wrap_id by done.
    split; [done|]. split; [lia|]. split; [intros; lia|lia].
  - cbn [LeadingZeros_loop]. rewrite bool_decide_eq_true_2 by lia.
    destruct (lookup_lt_is_Some_2 (data v) fuel) as [x Hx]; [lia|].
    assert (Hix : index (data v) i = Some x).
    { apply index_Some. split; [lia|]. by replace (Z.to_nat i) with fuel by lia. }
    pose proof (index_bytes_ok _ _ _ Hd Hix) as Hxb.
    rewrite (bind_ok _ _ _ _ _ (data_at_ok _ _ _ i x Hv Hix)).
    case_bool_decide as Hx0.
    + subst x.
      destruct (IH (i - 1) (cnt +i bitsN) ltac:(lia) ltac:(lia) (wrap_is_int _))
        as (z & Hrun & Hb & Hz & Ht).
      exists (z + 8). split; [|split; [lia|split]].
      * rewrite Hrun. unfold add, bitsN. rewrite wrap_add_l. do 2 f_equal. lia.
      * intros j Hj. destruct (decide (j < 8 * i)) as [Hlow|Hhigh].
        -- apply Hz. lia.
        -- replace j with (8 * i + (j - 8 * i)) by lia.
           apply (bit_of_zero_byte _ _ _ Hix). lia.
      * intros Hlt. replace (8 * (i + 1) - 1 - (z + 8)) with (8 * (i - 1 + 1) - 1 - z) by lia.
        apply Ht. lia.
    + destruct (LeadingZeros8_spec x Hxb Hx0) as (Hb & Hz & Ht).
      exists (LeadingZeros8 x). split; [done|]. split; [lia|]. split.
      * intros j Hj. replace j with (8 * i + (j - 8 * i)) by lia.
        unfold bit. rewrite (bit_of_byte _ _ _ _ Hix) by lia. apply Hz. lia.
      * intros _. replace (8 * (i + 1) - 1 - LeadingZeros8 x)
          with (8 * i + (7 - LeadingZeros8 x)) by lia.
        unfold bit. rewrite (bit_of_byte _ _ _ _ Hix) by lia. done.
Qed.

Lemma wrap_sub_l a b : wrap (wrap a - b) = wrap (a - b).
Proof. replace (wrap a - b) with (wrap a + - b) by lia. rewrite wrap_add_l. f_equal; lia. Qed.

(** X12. On a well-formed array [LeadingZeros] returns the number [lz]
    of unset bits at the high end: [0 <= lz <= size], the bits
    [size - lz .. size - 1] are unset and, unless [lz = size], bit
    [size - 1 - lz] is set.  The padding of the last byte is not counted. *)
Theorem LeadingZeros_spec h ba v :
  deref h ba = Some v → wf v →
  ∃ lz, LeadingZeros ba h = Ok lz h
        ∧ 0 ≤ lz ≤ size v
        ∧ (∀ j, size v - lz ≤ j < size v → bit v j = false)
        ∧ (lz < size v → bit v (size v - 1 - lz) = true).
Proof.
  intros Hv Hwf. pose proof (wf_size _ Hwf) as Hsize.
  pose proof (wf_cover _ Hwf) as Hcov. pose proof (wf_len _ Hwf) as Hlen.
  unfold nbytes in Hlen.
  remember (Z.of_nat (length (data v))) as L eqn:HL.
  destruct (LeadingZeros_loop_ok h ba v Hv (wf_bytes _ Hwf) (length (data v)) (L - 1) 0)
    as (z & Hrun & Hb & Hz & Ht); [lia|lia|int_lia|].
  replace (8 * (L - 1 + 1)) with (8 * L) in * by lia.
  assert (Hpad : 8 * L - size v ≤ z).
  { destruct (decide (8 * L - size v ≤ z)) as [|Hlt]; [done|].
    assert (Hz8 : z < 8 * L) by lia. specialize (Ht Hz8).
    rewrite (wf_pad _ Hwf) in Ht by lia. discriminate Ht. }
  exists (z - (8 * L - size v)).
  split; [|split; [lia|split]].
  - unfold LeadingZeros.
    rewrite (bind_ok _ _ _ _ _ (len_data_ok _ _ _ Hv)). rewrite <- HL.
    rewrite sub_id by int_lia.
    replace (Z.to_nat L) with (length (data v)) by lia.
    rewrite (bind_ok _ _ _ _ _ Hrun).
    rewrite (bind_ok _ _ _ _ _ (get_size_ok _ _ _ Hv)).
    unfold ret. f_equal. rewrite Z.add_0_l. unfold bitsN.
    case_bool_decide as Hx.
    + unfold sub at 1. rewrite (sub_id 8) by int_lia. rewrite wrap_sub_l.
      replace (z - (8 - size v %i 8)) with (z - (8 * L - size v)) by lia.
      apply wrap_id. int_lia.
    + assert (H0 : size v %i 8 = 0) by (destruct (decide (size v %i 8 = 0)); done).
      replace (z - (8 * L - size v)) with z by lia. apply wrap_id. int_lia.
  - intros j Hj. apply Hz. lia.
  - intros Hlt. replace (size v - 1 - (z - (8 * L - size v))) with (8 * L - 1 - z) by lia.
    apply Ht. lia.
Qed.

Lemma LeadingZeros_spec_witness :
  deref sample_heap 1%nat = Some sample
  ∧ LeadingZeros 1%nat sample_heap = Ok 1 sample_heap.
Proof.
  split; [reflexivity|].
  destruct (LeadingZeros_spec sample_heap 1%nat sample eq_refl wf_sample)
    as (lz & H1 & _).
  assert (H2 : LeadingZeros 1%nat sample_heap = Ok 1 sample_heap)
    by (vm_compute; reflexivity).
  assert (lz = 1) as <- by congruence. exact H1.
Defined.

(** The loop of [TrailingZeros] adds to its counter the number [z] of zero
    bits at the bottom of the storage. *)
Lemma TrailingZeros_loop_ok d :
  bytes_ok d → ∀ cnt, is_int cnt →
  ∃ z, TrailingZeros_loop d cnt = wrap (cnt + z)
       ∧ 0 ≤ z ≤ 8 * Z.of_nat (length d)
       ∧ (∀ j, 0 ≤ j < z → bit_of d j = false)
       ∧ (z < 8 * Z.of_nat (length d) → bit_of d z = true).
Proof.
  induction 1 as [|x d Hx Hd IH]; intros cnt Hcnt.
  - exists 0. simpl. rewrite Z.add_0_r, wrap_id by done.
    split; [done|]. split; [lia|]. split; [intros; lia|lia].
  - cbn [TrailingZeros_loop].
    replace (8 * Z.of_nat (length (x :: d))) with (8 + 8 * Z.of_nat (length d))
      by (simpl length; lia).
    case_bool_decide as Hx0.
    + subst x. destruct (IH (cnt +i bitsN) (wrap_is_int _)) as (z & Hrun & Hb & Hz & Ht).
      exists (8 + z). split; [|split; [lia|split]].
      * rewrite Hrun. unfold add, bitsN. rewrite wrap_add_l. f_equal. lia.
      * intros j Hj. destruct (decide (j < 8)) as [Hlow|Hhigh].
        -- rewrite bit_of_cons_low by lia. apply Z.bits_0.
        -- replace j with (8 + (j - 8)) by lia. rewrite bit_of_cons_high by lia.
           apply Hz. lia.
      * intros Hlt. rewrite bit_of_cons_high by lia. apply Ht. lia.
    + destruct (TrailingZeros8_spec x Hx Hx0) as (Hb & Hz & Ht).
      exists (TrailingZeros8 x). split; [done|]. split; [lia|]. split.
      * intros j Hj. rewrite bit_of_cons_low by lia. apply Hz. lia.
      * intros _. by rewrite bit_of_cons_low by lia.
Qed.

(** X13. On a well-formed array whose storage has fewer than [2^63] bits
    (a size of at most [max_int - 7]) [TrailingZeros] returns the number
    [tz] of unset bits at the low end: [0 <= tz <= size], the bits
    [0 .. tz - 1] are unset and, unless [tz = size], bit [tz] is set. *)
Theorem TrailingZeros_spec h ba v :
  deref h ba = Some v → wf v → size v ≤ max_int - 7 →
  ∃ tz, TrailingZeros ba h = Ok tz h
        ∧ 0 ≤ tz ≤ size v
        ∧ (∀ j, 0 ≤ j < tz → bit v j = false)
        ∧ (tz < size v → bit v tz = true).
Proof.
  intros Hv Hwf Hmax. pose proof (wf_size _ Hwf) as Hsize.
  pose proof (wf_cover _ Hwf) as Hcov.
  destruct (TrailingZeros_loop_ok (data v) (wf_bytes _ Hwf) 0 ltac:(int_lia))
    as (z & Hrun & Hb & Hz & Ht).
  rewrite Z.add_0_l, wrap_id in Hrun by int_lia.
  unfold TrailingZeros.
  rewrite (bind_ok _ _ _ _ _ (load_ok _ _ _ Hv)).
  rewrite (bind_ok _ _ _ _ _ (get_size_ok _ _ _ Hv)). rewrite Hrun.
  case_bool_decide as Hgt.
  - exists (size v). split; [done|]. split; [lia|]. split; [|lia].
    intros j Hj. apply Hz. lia.
  - exists z. split; [done|]. split; [lia|]. split; [done|].
    intros Hlt. apply Ht. lia.
Qed.

Lemma TrailingZeros_spec_witness :
  deref sample_heap 2%nat = Some (mkBitArray 10 [6; 1])
  ∧ size (mkBitArray 10 [6; 1]) ≤ max_int - 7
  ∧ TrailingZeros 2%nat sample_heap = Ok 1 sample_heap.
Proof.
  assert (Hmax : size (mkBitArray 10 [6; 1]) ≤ max_int - 7) by (simpl; int_lia).
  split; [reflexivity|]. split; [exact Hmax|].
  destruct (TrailingZeros_spec sample_heap 2%nat (mkBitArray 10 [6; 1]) eq_refl
              wf_sample_second Hmax) as (tz & H1 & _).
  assert (H2 : TrailingZeros 2%nat sample_heap = Ok 1 sample_heap)
    by (vm_compute; reflexivity).
  assert (tz = 1) as <- by congruence. exact H1.
Defined.

(** ** [Parse] on a character that is not a digit *)

Lemma Parse_loop_bad h0 n c rest :
  ¬ is_digit c → n ≤ max_int →
  ∀ pre i d, Forall is_digit pre →
    0 ≤ i → i + Z.of_nat (length pre) < n → n ≤ 8 * Z.of_nat (length d) →
    ∃ d', Parse_loop (S (length h0)) n i (pre ++ c :: rest) (h0 ++ [mkBitArray n d])
          = Ok (Failure (UnknownCharacter c)) (h0 ++ [mkBitArray n d']).
Proof.
  intros Hc Hmax pre. induction pre as [|c0 pre IH]; intros i d Hpre Hi Hlt Hlen.
  - exists d. simpl.
    rewrite bool_decide_eq_false_2 by (intros ->; apply Hc; by right).
    rewrite bool_decide_eq_true_2 by (intros ->; apply Hc; by left). done.
  - apply Forall_cons in Hpre as [Hc0 Hpre]. simpl length in Hlt. simpl.
    case_bool_decide as Hc1.
    + rewrite (sub_id n 1) by int_lia. rewrite sub_id by int_lia.
      assert (Hp : deref (h0 ++ [mkBitArray n d]) (S (length h0)) = Some (mkBitArray n d))
        by apply deref_app_new.
      rewrite (bind_ok _ _ _ _ _ (set_ok _ _ _ (n - 1 - i) Hp ltac:(simpl; lia))).
      rewrite update_app_new. simpl.
      apply IH; [done|lia|lia|]. by rewrite length_write_bit.
    + rewrite bool_decide_eq_false_2.
      2:{ intros Hne. destruct Hc0; congruence. }
      apply IH; [done|lia|lia|done].
Qed.

Lemma Parse_bad t h pre c rest :
  runes_without_spaces t = pre ++ c :: rest →
  Forall is_digit pre → ¬ is_digit c →
  Z.of_nat (length (runes_without_spaces t)) ≤ max_int →
  ∃ g, Parse t h = Ok (Failure (UnknownCharacter c)) (h ++ [g]).
Proof.
  intros Hrs Hpre Hc Hmax.
  assert (Hn : 0 < Z.of_nat (length (runes_without_spaces t)) ≤ max_int).
  { split; [|done]. rewrite Hrs, length_app. simpl. lia. }
  pose proof (wf_zero_array _ Hn) as Hz. pose proof (wf_cover _ Hz) as Hcov.
  destruct (Parse_loop_bad h (Z.of_nat (length (runes_without_spaces t))) c rest Hc Hmax
              pre 0 (data (zero_array (Z.of_nat (length (runes_without_spaces t))))) Hpre)
    as (d' & Hrun); [lia| |simpl in *; lia|].
  { rewrite Hrs, length_app. simpl. lia. }
  eexists. unfold Parse. rewrite (bind_ok _ _ _ _ _ (New_ok _ h Hn)).
  rewrite <- Hrs in Hrun. exact Hrun.
Qed.

(** X14. When the first rune of a string that is neither a space nor a
    digit 0 or 1 is [c], [Parse] returns the error for that rune (and no
    array), and [MustParse] panics with that error.  The array that was
    allocated for the result stays behind as a new object; the existing
    ones are unchanged. *)
Theorem Parse_unknown_character t h pre c rest :
  runes_without_spaces t = pre ++ c :: rest →
  Forall is_digit pre → ¬ is_digit c →
  Z.of_nat (length (runes_without_spaces t)) ≤ max_int →
  ∃ g, Parse t h = Ok (Failure (UnknownCharacter c)) (h ++ [g])
       ∧ MustParse t h = Panicked (PanicError (UnknownCharacter c)) (h ++ [g])
       ∧ c ≠ " "%char
       ∧ ∀ q u, deref h q = Some u → deref (h ++ [g]) q = Some u.
Proof.
  intros Hrs Hpre Hc Hmax.
  destruct (Parse_bad t h pre c rest Hrs Hpre Hc Hmax) as (g & HP).
  exists g. split; [exact HP|]. split; [|split].
  - unfold MustParse. by rewrite (bind_ok _ _ _ _ _ HP).
  - intros ->. assert (Hin : " "%char ∈ runes_without_spaces t).
    { rewrite Hrs. apply elem_of_app. right. apply list_elem_of_here. }
    unfold runes_without_spaces in Hin. apply list_elem_of_filter in Hin as [Hne _].
    by apply Hne.
  - intros q u Hq. by apply deref_app_old.
Qed.

Lemma Parse_unknown_character_witness :
  runes_without_spaces "01 2" = ["0"; "1"]%char ++ "2"%char :: []
  ∧ Forall is_digit ["0"; "1"]%char ∧ ¬ is_digit "2"%char
  ∧ Z.of_nat (length (runes_without_spaces "01 2")) ≤ max_int
  ∧ ∃ g, Parse "01 2" [] = Ok (Failure (UnknownCharacter "2")) [g].
Proof.
  assert (H1 : runes_without_spaces "01 2" = ["0"; "1"]%char ++ "2"%char :: [])
    by reflexivity.
  assert (H2 : Forall is_digit ["0"; "1"]%char).
  { repeat constructor; (by left) || (by right). }
  assert (H3 : ¬ is_digit "2"%char) by (intros [H|H]; discriminate H).
  assert (H4 : Z.of_nat (length (runes_without_spaces "01 2")) ≤ max_int)
    by (vm_compute; discriminate).
  split; [exact H1|]. split; [exact H2|]. split; [exact H3|]. split; [exact H4|].
  destruct (Parse_unknown_character "01 2" [] _ _ _ H1 H2 H3 H4) as (g & H5 & _).
  by exists g.
Defined.

(** ** [UnmarshalBinary] stores what it decodes *)

(** X15. [UnmarshalBinary] checks nothing of its own, for any gob that
    meets [GobLaws]: the encoding of any [int] followed by the encoding of
    any byte slice is accepted without error and stored in the receiver,
    whether or not the two make a well-formed array; and when the size
    decodes but the data that follows is cut short, the error is returned
    with the receiver's size already overwritten and its storage still the
    old one. *)
Theorem UnmarshalBinary_unchecked {G : Gob} {HG : GobLaws G} h q w sz d :
  deref h q = Some w → is_int sz → bytes_ok d → Z.of_nat (length d) ≤ max_int →
  ∃ b1 b2,
    gob_encode_int sz = Success b1 ∧ gob_encode_bytes d = Success b2
    ∧ UnmarshalBinary q (b1 ++ b2) h = Ok None (update h q (mkBitArray sz d))
    ∧ ∀ b2', truncation_of b2' b2 →
        ∃ e, UnmarshalBinary q (b1 ++ b2') h
             = Ok (Some e) (update h q (mkBitArray sz (data w))).
Proof.
  intros Hq Hsz Hd Hlen.
  destruct (gob_encode_int_total sz Hsz) as [b1 Hb1].
  destruct (gob_encode_bytes_total d Hd Hlen) as [b2 Hb2].
  exists b1, b2. split; [done|]. split; [done|]. split.
  - apply (UnmarshalBinary_decoded h q w _ _ b2 _ []); [done| |].
    + by apply gob_decode_encode_int.
    + rewrite <- (app_nil_r b2) at 1. by apply gob_decode_encode_bytes.
  - intros b2' Hb2'.
    destruct (gob_decode_bytes_truncated d b2 b2' Hd Hlen Hb2 Hb2') as [e He].
    exists e. apply (UnmarshalBinary_data_error h q w _ sz b2'); [done| |done].
    by apply gob_decode_encode_int.
Qed.

Lemma UnmarshalBinary_unchecked_witness :
  deref sample_heap 4%nat = Some zero_value
  ∧ is_int 5 ∧ bytes_ok [255; 255; 255] ∧ Z.of_nat (length [255; 255; 255]) ≤ max_int
  ∧ valid odd_payload = false
  ∧ ∃ b1 b2, @UnmarshalBinary le_gob 4%nat (b1 ++ b2) sample_heap
             = Ok None (update sample_heap 4%nat odd_payload).
Proof.
  assert (H1 : is_int 5) by int_lia.
  assert (H2 : bytes_ok [255; 255; 255]) by (repeat constructor; unfold byte_ok; lia).
  assert (H3 : Z.of_nat (length [255; 255; 255]) ≤ max_int) by (simpl; int_lia).
  split; [reflexivity|]. split; [exact H1|]. split; [exact H2|]. split; [exact H3|].
  split; [vm_compute; reflexivity|].
  destruct (@UnmarshalBinary_unchecked le_gob le_gob_laws sample_heap 4%nat zero_value
              5 [255; 255; 255] eq_refl H1 H2 H3) as (b1 & b2 & _ & _ & H4 & _).
  by exists b1, b2.
Defined.

Lemma preserves_refl r h : preserves r h h.
Proof. intros q u Hq. by exists u. Qed.

Lemma preserves_update h p v v' :
  deref h p = Some v → size v' = size v → preserves (Some p) h (update h p v').
Proof.
  intros Hv Hs q u Hq. destruct (decide (q = p)) as [->|Hne].
  - exists v'. split; [by eapply deref_update_eq|]. split; [congruence|]. by intros [].
  - exists u. split; [by rewrite deref_update_ne|done].
Qed.

Lemma deref_app_l h g q u : deref h q = Some u → deref (h ++ g) q = Some u.
Proof.
  destruct q as [|k]; [done|]. simpl. intros Hq. by apply lookup_app_l_Some.
Qed.

Lemma preserves_app r h h' g : preserves r h h' → preserves r h (h' ++ g).
Proof.
  intros Hp q u Hq. destruct (Hp q u Hq) as (u' & Hu' & Hs & Hr).
  exists u'. split; [by apply deref_app_l|done].
Qed.

Lemma preserves_alloc r h g : preserves r h (h ++ g).
Proof. apply preserves_app, preserves_refl. Qed.

Lemma preserves_trans r h1 h2 h3 :
  preserves r h1 h2 → preserves r h2 h3 → preserves r h1 h3.
Proof.
  intros H12 H23 q u Hq. destruct (H12 q u Hq) as (u2 & Hu2 & Hs2 & Hr2).
  destruct (H23 q u2 Hu2) as (u3 & Hu3 & Hs3 & Hr3).
  exists u3. split; [done|]. split; [congruence|].
  intros Hr. rewrite Hr3, Hr2; done.
Qed.

Lemma preserves_weaken r h h' : preserves None h h' → preserves r h h'.
Proof.
  intros Hp q u Hq. destruct (Hp q u Hq) as (u' & Hu' & Hs & Hr).
  exists u'. split; [done|]. split; [done|]. intros _. by apply Hr.
Qed.

Lemma digits_or_bad rs :
  Forall is_digit rs
  ∨ ∃ pre c rest, rs = pre ++ c :: rest ∧ Forall is_digit pre ∧ ¬ is_digit c.
Proof.
  induction rs as [|c rs IH]; [by left|].
  destruct (decide (c = "0"%char)) as [H0|H0];
    [|destruct (decide (c = "1"%char)) as [H1|H1]].
  - destruct IH as [Hall|(pre & c' & rest & -> & Hpre & Hc')].
    + left. constructor; [by left|done].
    + right. exists (c :: pre), c', rest. split; [done|].
      split; [constructor; [by left|done]|done].
  - destruct IH as [Hall|(pre & c' & rest & -> & Hpre & Hc')].
    + left. constructor; [by right|done].
    + right. exists (c :: pre), c', rest. split; [done|].
      split; [constructor; [by right|done]|done].
  - right. exists [], c, rs. split; [done|]. split; [constructor|].
    intros [?|?]; done.
Qed.

Lemma binop_preserves (opname : ptr → ptr → M unit) op tail h ba other :
  opname = (fun ba other => bytewise ba other op (tail ba other)) →
  (∀ v w, deref h ba = Some v → deref h other = Some w → wf v → wf w →
          size v = size w →
          ∃ v', opname ba other h = Ok tt (update h ba v') ∧ size v' = size v) →
  heap_wf h → preserves (Some ba) h (heap_of (opname ba other h)).
Proof.
  intros Hname Hok Hh.
  destruct (deref h ba) as [v|] eqn:Hv; [destruct (deref h other) as [w|] eqn:Hw|].
  - pose proof (heap_wf_deref _ _ _ Hh Hv) as Hwfv.
    pose proof (heap_wf_deref _ _ _ Hh Hw) as Hwfw.
    destruct (decide (size v = size w)) as [Hs|Hs].
    + destruct (Hok v w eq_refl eq_refl Hwfv Hwfw Hs) as (v' & -> & Hs'). simpl.
      by apply (preserves_update _ _ v).
    + rewrite Hname. rewrite (bytewise_panic _ _ _ _ _ _ _ Hv Hw Hs).
      apply preserves_refl.
  - rewrite Hname. unfold bytewise.
    rewrite (bind_panicked _ _ _ _ _ (checkSize_nil _ _ _ (or_intror Hw))).
    apply preserves_refl.
  - rewrite Hname. unfold bytewise.
    rewrite (bind_panicked _ _ _ _ _ (checkSize_nil _ _ _ (or_introl Hv))).
    apply preserves_refl.
Qed.

Lemma checked_write_preserves (b : bool) h p idx :
  heap_wf h →
  preserves (Some p) h
    (heap_of ((checkIdx p idx;; if b then set p idx else unset p idx) h)).
Proof.
  intros Hh. destruct (deref h p) as [v|] eqn:Hv.
  - pose proof (heap_wf_deref _ _ _ Hh Hv) as Hwf.
    destruct (decide (0 ≤ idx < size v)) as [Hidx|Hidx].
    + rewrite (checked_write_ok b _ _ v idx Hv Hwf Hidx). simpl.
      by apply (preserves_update _ _ v).
    + rewrite (checked_write_panic b _ _ v idx Hv Hidx). apply preserves_refl.
  - unfold checkIdx. rewrite bind_assoc.
    rewrite (bind_panicked _ _ _ _ _ (get_size_nil _ _ Hv)). apply preserves_refl.
Qed.

Lemma run_call_preserves c h :
  call_ok c → heap_wf h → preserves (receiver c) h (heap_of (run_call c h)).
Proof.
  destruct c as [sz idx|s|ba|ba start end_|ba1 ba2|ba idx|ba idx|ba|ba
                |ba other|ba other|ba other|ba other|ba|ba n|ba n];
    simpl; intros Hok Hh; rewrite ?heap_of_discard.
  - (* New *)
    destruct Hok as [Hsz _].
    destruct (decide (sz ≤ 0)) as [H0|H0].
    + rewrite (New_size_panic _ _ _ H0). apply preserves_refl.
    + assert (Hs : 0 < sz ≤ max_int) by (unfold is_int in Hsz; lia).
      destruct (decide (Forall (fun i => 0 ≤ i < sz) idx)) as [Hidx|Hidx].
      * destruct (New_idx_ok sz idx h Hs Hidx) as (r & -> & _). apply preserves_alloc.
      * destruct (New_idx_panic sz idx h Hs Hidx) as (g & ->). apply preserves_alloc.
  - (* Parse *)
    pose proof (length_runes_le s) as Hle.
    destruct (runes_without_spaces s) as [|c0 rs0] eqn:Hrs.
    + rewrite (Parse_spaces_panic s h Hrs). apply preserves_refl.
    + assert (Hn : 0 < Z.of_nat (length (runes_without_spaces s)) ≤ max_int).
      { rewrite Hrs in *. simpl length in *. lia. }
      destruct (digits_or_bad (runes_without_spaces s))
        as [Hdig|(pre & c & rest & Hsplit & Hpre & Hc)].
      * destruct (Parse_ok s h Hn Hdig) as (v & -> & _). apply preserves_alloc.
      * destruct (Parse_bad s h pre c rest Hsplit Hpre Hc ltac:(lia)) as (g & ->).
        apply preserves_alloc.
  - (* Clone *)
    unfold Clone. destruct (deref h ba) as [v|] eqn:Hv.
    + rewrite (bind_ok _ _ _ _ _ (load_ok _ _ _ Hv)). apply preserves_alloc.
    + rewrite (bind_panicked _ _ _ _ _ (load_nil _ _ Hv)). apply preserves_refl.
  - (* Slice *)
    destruct Hok as [Hs He]. destruct (deref h ba) as [v|] eqn:Hv.
    + pose proof (heap_wf_deref _ _ _ Hh Hv) as Hwf.
      pose proof (wf_size _ Hwf) as Hsize.
      destruct (decide (0 ≤ start < size v)) as [Hstart|Hstart];
        [|rewrite (Slice_start_panic _ _ _ _ _ Hv Hstart); apply preserves_refl].
      destruct (decide (0 ≤ end_ - 1 < size v)) as [Hend|Hend];
        [|rewrite (Slice_end_panic _ _ _ _ _ Hv ltac:(lia) He Hstart Hend);
          apply preserves_refl].
      destruct (decide (start < end_)) as [Hlt|Hlt].
      * destruct (Slice_ok _ _ _ _ _ Hv Hwf Hstart Hend Hlt) as (r & -> & _).
        apply preserves_alloc.
      * rewrite (Slice_size_panic _ _ _ _ _ Hv ltac:(lia) Hstart Hend ltac:(lia)).
        apply preserves_refl.
    + unfold Slice, checkIdx. rewrite !bind_assoc.
      rewrite (bind_panicked _ _ _ _ _ (get_size_nil _ _ Hv)). apply preserves_refl.
  - (* Concat *)
    destruct (deref h ba1) as [v|] eqn:Hv; [destruct (deref h ba2) as [w|] eqn:Hw|].
    + pose proof (heap_wf_deref _ _ _ Hh Hv) as Hwfv.
      pose proof (heap_wf_deref _ _ _ Hh Hw) as Hwfw.
      pose proof (wf_size _ Hwfv) as Hsv. pose proof (wf_size _ Hwfw) as Hsw.
      destruct (decide (size v + size w ≤ max_int)) as [Hsum|Hsum].
      * destruct (Concat_ok _ _ _ _ _ Hv Hw Hwfv Hwfw Hsum) as (r & -> & _).
        apply preserves_alloc.
      * unfold Concat.
        rewrite (bind_ok _ _ _ _ _ (get_size_ok _ _ _ Hv)).
        rewrite (bind_ok _ _ _ _ _ (get_size_ok _ _ _ Hw)).
        rewrite (bind_panicked _ _ h (PanicString "size must be > 0") h);
          [apply preserves_refl|].
        apply New_size_panic. unfold add, wrap, int_bits. simpl Z.sub.
        change (2 ^ 64) with 18446744073709551616.
        change (2 ^ 63) with 9223372036854775808. int_lia.
    + unfold Concat. rewrite (bind_ok _ _ _ _ _ (get_size_ok _ _ _ Hv)).
      rewrite (bind_panicked _ _ _ _ _ (get_size_nil _ _ Hw)). apply preserves_refl.
    + unfold Concat. rewrite (bind_panicked _ _ _ _ _ (get_size_nil _ _ Hv)).
      apply preserves_refl.
  - by apply (checked_write_preserves true).
  - by apply (checked_write_preserves false).
  - (* Clear *)
    destruct (deref h ba) as [v|] eqn:Hv.
    + pose proof (heap_wf_deref _ _ _ Hh Hv) as Hwf.
      rewrite (Clear_ok _ _ _ Hv Hwf). by apply (preserves_update _ _ v).
    + unfold Clear. rewrite (bind_panicked _ _ _ _ _ (len_data_nil _ _ Hv)).
      apply preserves_refl.
  - (* SetAll *)
    destruct (deref h ba) as [v|] eqn:Hv.
    + pose proof (heap_wf_deref _ _ _ Hh Hv) as Hwf.
      destruct (SetAll_ok _ _ _ Hv Hwf) as (v' & -> & Hs & _).
      by apply (preserves_update _ _ v).
    + unfold SetAll. rewrite (bind_panicked _ _ _ _ _ (get_size_nil _ _ Hv)).
      apply preserves_refl.
  - (* And *)
    eapply (binop_preserves And); [reflexivity| |done].
    intros v w Hv Hw Hwfv Hwfw Hs.
    destruct (And_ok _ _ _ _ _ Hv Hw Hwfv Hwfw Hs) as (v' & ? & ? & _). by exists v'.
  - eapply (binop_preserves Or); [reflexivity| |done].
    intros v w Hv Hw Hwfv Hwfw Hs.
    destruct (Or_ok _ _ _ _ _ Hv Hw Hwfv Hwfw Hs) as (v' & ? & ? & _). by exists v'.
  - eapply (binop_preserves Xor); [reflexivity| |done].
    intros v w Hv Hw Hwfv Hwfw Hs.
    destruct (Xor_ok _ _ _ _ _ Hv Hw Hwfv Hwfw Hs) as (v' & ? & ? & _). by exists v'.
  - eapply (binop_preserves AndNot); [reflexivity| |done].
    intros v w Hv Hw Hwfv Hwfw Hs.
    destruct (AndNot_ok _ _ _ _ _ Hv Hw Hwfv Hwfw Hs) as (v' & ? & ? & _). by exists v'.
  - (* Not *)
    destruct (deref h ba) as [v|] eqn:Hv.
    + pose proof (heap_wf_deref _ _ _ Hh Hv) as Hwf.
      destruct (Not_ok _ _ _ Hv Hwf) as (v' & -> & Hs & _).
      by apply (preserves_update _ _ v).
    + unfold Not. rewrite (bind_panicked _ _ _ _ _ (len_data_nil _ _ Hv)).
      apply preserves_refl.
  - (* Rotate *)
    destruct (deref h ba) as [v|] eqn:Hv.
    + pose proof (heap_wf_deref _ _ _ Hh Hv) as Hwf.
      destruct (Rotate_ok _ _ _ n Hv Hwf) as (v' & g & -> & _ & Hs & _).
      apply preserves_app. by apply (preserves_update _ _ v).
    + unfold Rotate. rewrite (bind_panicked _ _ _ _ _ (get_size_nil _ _ Hv)).
      apply preserves_refl.
  - (* Shift *)
    destruct (deref h ba) as [v|] eqn:Hv.
    + pose proof (heap_wf_deref _ _ _ Hh Hv) as Hwf.
      destruct (decide (n = min_int)) as [->|Hne].
      * rewrite (Shift_min_int _ _ _ Hv Hwf). apply preserves_refl.
      * destruct (Shift_ok _ _ _ n Hv Hwf ltac:(unfold is_int in Hok; lia))
          as (v' & -> & Hs & _).
        by apply (preserves_update _ _ v).
    + unfold Shift. rewrite (bind_panicked _ _ _ _ _ (get_size_nil _ _ Hv)).
      apply preserves_refl.
Qed.

(** X16. The size of an array is fixed for its lifetime, and an
    operation changes no array but its receiver: through any sequence of
    constructor and mutator calls, panics recovered, an object of a
    well-formed heap stays at its address with its size, which [Size]
    returns, and it is the same record at the end unless it was the
    receiver of one of the calls. *)
Theorem size_fixed cs h q u :
  Forall call_ok cs → heap_wf h → deref h q = Some u →
  ∃ u', deref (run_calls cs h) q = Some u'
        ∧ size u' = size u
        ∧ Size q (run_calls cs h) = Ok (size u) (run_calls cs h)
        ∧ (Forall (fun c => receiver c ≠ Some q) cs → u' = u).
Proof.
  intros Hcs Hh Hq.
  assert (Hgen : ∃ u', deref (run_calls cs h) q = Some u' ∧ size u' = size u
                       ∧ (Forall (fun c => receiver c ≠ Some q) cs → u' = u)).
  { revert h u Hh Hq. induction Hcs as [|c cs Hc _ IH]; intros h u Hh Hq.
    - exists u. by simpl.
    - simpl. destruct (run_call_preserves c h Hc Hh q u Hq) as (u1 & Hu1 & Hs1 & Hr1).
      destruct (IH _ u1 (run_call_safe c h Hc Hh) Hu1) as (u' & Hu' & Hs' & Hr').
      exists u'. split; [done|]. split; [congruence|].
      intros Hall. apply Forall_cons in Hall as [Hrc Hall].
      rewrite (Hr' Hall). by apply Hr1. }
  destruct Hgen as (u' & Hu' & Hs' & Hr'). exists u'.
  split; [done|]. split; [done|]. split; [|done].
  unfold Size. rewrite (get_size_ok _ _ _ Hu'). by rewrite Hs'.
Qed.

Lemma size_fixed_witness :
  Forall call_ok more_calls ∧ heap_wf sample_wf_heap
  ∧ deref sample_wf_heap 2%nat = Some (mkBitArray 10 [6; 1])
  ∧ deref (run_calls more_calls sample_wf_heap) 2%nat = Some (mkBitArray 10 [6; 1]).
Proof.
  assert (H1 : Forall call_ok more_calls).
  { unfold more_calls. repeat constructor; simpl; int_lia. }
  assert (H2 : heap_wf sample_wf_heap).
  { unfold sample_wf_heap, heap_wf.
    apply Forall_cons_2; [exact wf_sample|].
    apply Forall_cons_2; [exact wf_sample_second|].
    apply Forall_cons_2; [exact wf_sample4|]. apply Forall_nil_2. }
  split; [exact H1|]. split; [exact H2|]. split; [reflexivity|].
  destruct (size_fixed more_calls sample_wf_heap 2%nat (mkBitArray 10 [6; 1]) H1 H2 eq_refl)
    as (u' & Hu' & _ & _ & Hsame).
  rewrite Hu'. f_equal. apply Hsame.
  unfold more_calls. repeat constructor; simpl; discriminate.
Defined.

Lemma data_set_panic h p v n x :
  deref h p = Some v → ¬ (0 ≤ n < Z.of_nat (length (data v))) →
  data_set p n x h = Panicked RuntimeError h.
Proof.
  intros Hv Hn. unfold data_set.
  rewrite (bind_ok _ _ _ _ _ (load_ok _ _ _ Hv)).
  by rewrite bool_decide_eq_false_2.
Qed.

(** X17. The zero value of the type (size 0, no storage), which
    [new(BitArray)] gives: [SetAll], [Not], [Rotate] and [String] panic on
    it with a run-time error (an index of -1, a division by zero), [Set],
    [Unset] and [Get] panic with the index message for every index, and
    the heap is untouched; [Clear] returns, and [Count], [LeadingZeros]
    and [TrailingZeros] return 0. *)
Theorem zero_value_methods h p n idx :
  deref h p = Some zero_value →
  SetAll p h = Panicked RuntimeError h
  ∧ Not p h = Panicked RuntimeError h
  ∧ Rotate p n h = Panicked RuntimeError h
  ∧ String_ p h = Panicked RuntimeError h
  ∧ Set_ p idx h = Panicked (PanicString "index out of range") h
  ∧ Unset p idx h = Panicked (PanicString "index out of range") h
  ∧ Get p idx h = Panicked (PanicString "index out of range") h
  ∧ Clear p h = Ok tt h
  ∧ Count p h = Ok 0 h
  ∧ LeadingZeros p h = Ok 0 h
  ∧ TrailingZeros p h = Ok 0 h.
Proof.
  intros Hp.
  assert (Hidx : ¬ (0 ≤ idx < size zero_value)) by (simpl; lia).
  pose proof (get_size_ok _ _ _ Hp) as Hsize.
  pose proof (len_data_ok _ _ _ Hp) as Hlen.
  pose proof (load_ok _ _ _ Hp) as Hload.
  change (size zero_value) with 0 in Hsize.
  change (Z.of_nat (length (data zero_value))) with 0 in Hlen.
  assert (Hat : data_at p (0 -i 1) h = Panicked RuntimeError h).
  { by apply (data_at_panic _ _ zero_value). }
  split; [|split; [|split; [|split; [|split; [|split; [|split; [|split; [|split; [|split]]]]]]]]].
  - unfold SetAll. rewrite (bind_ok _ _ _ _ _ Hsize), (bind_ok _ _ _ _ _ Hlen).
    rewrite bool_decide_eq_true_2 by done.
    by rewrite (bind_panicked _ _ _ _ _
                  (data_set_panic h p zero_value (0 -i 1) max_uint8 Hp ltac:(simpl; int_lia))).
  - unfold Not. rewrite (bind_ok _ _ _ _ _ Hlen).
    rewrite (bind_ok _ _ _ _ _ (for_up_nop 0 (0 -i 1) _ h ltac:(done))).
    rewrite (bind_ok _ _ _ _ _ Hsize).
    rewrite bool_decide_eq_true_2 by done.
    by rewrite (bind_panicked _ _ _ _ _ Hat).
  - unfold Rotate. rewrite (bind_ok _ _ _ _ _ Hsize).
    unfold int_rem. by rewrite bool_decide_eq_true_2 by done.
  - unfold String_. rewrite (bind_ok _ _ _ _ _ Hlen), (bind_ok _ _ _ _ _ Hsize).
    by rewrite (bind_panicked _ _ _ _ _ Hat).
  - by apply (checked_write_panic true _ _ zero_value).
  - by apply (checked_write_panic false _ _ zero_value).
  - by apply (Get_panic _ _ zero_value).
  - unfold Clear. rewrite (bind_ok _ _ _ _ _ Hlen). by apply for_up_nop.
  - unfold Count. by rewrite (bind_ok _ _ _ _ _ Hload).
  - unfold LeadingZeros. rewrite (bind_ok _ _ _ _ _ Hlen). simpl.
    unfold bind at 1. unfold ret at 1. by rewrite (bind_ok _ _ _ _ _ Hsize).
  - unfold TrailingZeros. rewrite (bind_ok _ _ _ _ _ Hload).
    by rewrite (bind_ok _ _ _ _ _ Hsize).
Qed.

Lemma zero_value_methods_witness :
  deref sample_heap 4%nat = Some zero_value
  ∧ SetAll 4%nat sample_heap = Panicked RuntimeError sample_heap
  ∧ Rotate 4%nat 1 sample_heap = Panicked RuntimeError sample_heap.
Proof.
  split; [reflexivity|].
  destruct (zero_value_methods sample_heap 4%nat 1 0 eq_refl) as (H1 & _ & H2 & _).
  by split.
Defined.

Lemma Shift_spec_witness :
  deref sample_heap 1%nat = Some sample ∧ min_int < -3 ≤ max_int
  ∧ ∃ v' c c', Shift 1%nat (-3) sample_heap = Ok tt (update sample_heap 1%nat v')
               ∧ Count 1%nat sample_heap = Ok c sample_heap
               ∧ Count 1%nat (update sample_heap 1%nat v')
                 = Ok c' (update sample_heap 1%nat v')
               ∧ c' ≤ c.
Proof.
  assert (Hn : min_int < -3 ≤ max_int) by int_lia.
  split; [reflexivity|]. split; [exact Hn|].
  destruct (Shift_spec sample_heap 1%nat sample (-3) eq_refl wf_sample Hn)
    as (v' & c & c' & H1 & _ & _ & _ & _ & _ & _ & H2 & H3 & H4).
  by exists v', c, c'.
Defined.
